(** * vheap: a memory-mapped block allocator (Go package [vheap])

    A shallow embedding of the region and heap code of the package,
    followed by the properties of the specification that were checked
    against it.

    Modelling conventions.
    - A region's mapped memory [d []byte] is a [list Z] of bytes
      (values in [0, 256)); [int64] fields are read and written through
      the two primitives [read_int64] and [write_int64], which stand for
      the source's unsafe pointer casts of a byte address to an
      [int64] address on a little-endian machine.
    - [int64] values are [Z]; where the machine arithmetic can wrap, the
      wrap-around is written out with [wrap64].
    - A Go run-time panic (slice bounds out of range, index out of range,
      nil dereference, explicit [panic]) is the outcome [Panic].
    - The code mutates the mapped bytes in place; the model passes the
      region explicitly and returns the updated one.
    - The operating system (file growth, mmap) is assumed to succeed; a
      region's two cached slices [freePtr = d[8:16]] and
      [blockListNextIdPtr = d[len(d)-8:len(d)]] alias [d] and are modelled
      as reads and writes of [d] at those offsets. *)

From Stdlib Require Import ZArith Lia.
From stdpp Require Import base numbers option list.

Local Open Scope Z_scope.

(** ** Outcomes of Go calls *)

Inductive outcome (A : Type) : Type :=
| Ret (a : A)
| Panic.
Arguments Ret {A} a.
Arguments Panic {A}.

#[export] Instance outcome_ret : MRet outcome := fun A a => Ret a.
#[export] Instance outcome_bind : MBind outcome := fun A B k m =>
  match m with
  | Ret a => k a
  | Panic => Panic
  end.

(** ** 64-bit integers in mapped memory *)

Definition wrap64 (x : Z) : Z := (x + 2 ^ 63) mod 2 ^ 64 - 2 ^ 63.

(** Little-endian value of the [n] bytes of [d] starting at index [off];
    the callers check the slice bounds first, so no byte beyond the end
    of [d] is read. *)
Fixpoint le_read (d : list Z) (off n : nat) : Z :=
  match n with
  | O => 0
  | S n' => d !!! off + 256 * le_read d (S off) n'
  end.

(** Store the low [n] bytes of [v] at index [off], least significant
    byte first. *)
Fixpoint le_write (d : list Z) (off n : nat) (v : Z) : list Z :=
  match n with
  | O => d
  | S n' => le_write (<[off := v mod 256]> d) (S off) n' (v / 256)
  end.

Definition read_int64 (d : list Z) (off : Z) : Z :=
  wrap64 (le_read d (Z.to_nat off) 8).

Definition write_int64 (d : list Z) (off v : Z) : list Z :=
  le_write d (Z.to_nat off) 8 v.

(** The Go slice expression [s[lo:hi]] panics unless
    [0 <= lo <= hi <= cap(s)]; a mapping's capacity is its length. *)
Definition slice_ok (d : list Z) (lo hi : Z) : bool :=
  (0 <=? lo) && (lo <=? hi) && (hi <=? Z.of_nat (length d)).

(** ** Constants of the on-disk layout *)

Definition regionHeaderSize : Z := 32.
Definition regionSignature : Z := 0.
Definition regionFreePointerOffset : Z := 8.
Definition regionSizeOffset : Z := 16.
Definition regionId : Z := 24.
Definition blockListHeaderSize : Z := 8.
Definition blockListEntrySize : Z := 16.

(** The bytes of ["HEAPREGN"]. *)
Definition signature : list Z := [72; 69; 65; 80; 82; 69; 71; 78].

Inductive error : Type :=
| OutOfMemory
| BlockTooLarge
| InvalidSignature
| IOError. (* any error reported by the file or mapping calls *)

#[export] Instance error_eq_dec : EqDecision error.
Proof. solve_decision. Defined.

(** ** Data *)

(** [type region struct { id int64; f *os.File; d []byte; ... }] *)
Record region : Type := mkRegion {
  r_id : Z;
  r_d : list Z
}.

(** [type Block struct { region *region; Id BlockId; Bytes []byte;
    Size int64; Offset int64 }].  [Bytes] is the view
    [d[Offset : Offset+Size]] of the owning region's memory; the owning
    region is recorded by its id. *)
Record Block : Type := mkBlock {
  Region : Z;
  Id : Z;
  Size : Z;
  Offset : Z
}.

#[export] Instance Block_eq_dec : EqDecision Block.
Proof. solve_decision. Defined.

Definition Block_Bytes (r : region) (b : Block) : list Z :=
  take (Z.to_nat (Size b)) (drop (Z.to_nat (Offset b)) (r_d r)).

(** [b.Bytes[i] = v]: a client stores one byte through the view of a
    block; the index is checked against the length of the view. *)
Definition Block_store (r : region) (b : Block) (i v : Z) : outcome region :=
  if (0 <=? i) && (i <? Size b)
  then Ret (mkRegion (r_id r)
              (<[Z.to_nat (Offset b + i) := v mod 256]> (r_d r)))
  else Panic.

Record Heap : Type := mkHeap {
  regions : list region
}.

(** ** BlockId *)

Definition NewBlockId (rid bid : Z) : outcome Z :=
  if bid >? 1048575 (* 0xfffff *) then Panic
  else Ret (Z.lor (wrap64 (Z.shiftl rid 16)) (Z.land bid 65535)).

Definition BlockId_RegionId (id : Z) : Z := Z.shiftr id 16.

Definition BlockId_BlockId (id : Z) : Z := Z.land id 65535.

(** ** Region: accessors of the mapped fields *)

Definition region_Size (r : region) : Z := Z.of_nat (length (r_d r)).

(** The [int64] stored at byte offset [off] of the mapping, and the
    in-place store of one. *)
Definition peek (r : region) (off : Z) : Z := read_int64 (r_d r) off.

Definition poke (r : region) (off v : Z) : region :=
  mkRegion (r_id r) (write_int64 (r_d r) off v).

Definition getNextFreeBlockId (r : region) : outcome Z :=
  NewBlockId (r_id r) (peek r (region_Size r - 8)).

Definition setNextFreeBlockId (r : region) (id : Z) : region :=
  poke r (region_Size r - 8) (BlockId_BlockId id).

Definition incrementFreeBlockId (r : region) : outcome (Z * region) :=
  id ← getNextFreeBlockId r;
  mret (id, poke r (region_Size r - 8) (wrap64 (BlockId_BlockId id + 1))).

Definition getFreePointer (r : region) : Z :=
  peek r regionFreePointerOffset.

Definition setFreePointer (r : region) (offset : Z) : region :=
  poke r regionFreePointerOffset offset.

(** [getBlockListEntryBytes] returns the slice [d[j:i]]; the model
    returns its start [j] once the slice bounds are checked. *)
Definition getBlockListEntryBytes (r : region) (id : Z) : outcome Z :=
  let i := region_Size r - blockListHeaderSize
           - blockListEntrySize * BlockId_BlockId id in
  let j := i - blockListEntrySize in
  if slice_ok (r_d r) j i then Ret j else Panic.

Definition setBlockListEntry (r : region) (id offset size : Z)
  : outcome region :=
  j ← getBlockListEntryBytes r id;
  mret (poke (poke r j offset) (j + 8) size).

Definition initBlockList (r : region) : region :=
  poke r (region_Size r - 8) 0.

Definition rawGetBlock (r : region) (id : Z) : outcome (option Block) :=
  j ← getBlockListEntryBytes r id;
  let offset := peek r j in
  let size := peek r (j + 8) in
  if (offset =? 0) || (size =? 0) then Ret None
  else if slice_ok (r_d r) offset (wrap64 (offset + size))
       then Ret (Some (mkBlock (r_id r) id size offset))
       else Panic.

(** ** Region: public operations *)

Definition region_Available (r : region) : outcome Z :=
  next ← getNextFreeBlockId r;
  mret (wrap64 (wrap64 (wrap64 (region_Size r - getFreePointer r)
                        - blockListHeaderSize)
                - wrap64 (BlockId_BlockId next * blockListEntrySize))).

Definition region_Allocate (r : region) (size : Z)
  : outcome (option Block * option error * region) :=
  let offset := getFreePointer r in
  avail ← region_Available r;
  if size >? avail then Ret (None, Some OutOfMemory, r)
  else if size >? region_Size r then Ret (None, Some BlockTooLarge, r)
  else
    id ← getNextFreeBlockId r;
    r1 ← setBlockListEntry r id offset size;
    b ← rawGetBlock r1 id;
    let r2 := setFreePointer r1 (wrap64 (offset + size)) in
    '(_, r3) ← incrementFreeBlockId r2;
    Ret (b, None, r3).

Definition region_Free (r : region) (b : Block) : outcome (bool * region) :=
  j ← getBlockListEntryBytes r (Id b);
  let offset := peek r j in
  let size := peek r (j + 8) in
  if (offset =? 0) && (size =? 0) then Ret (false, r)
  else
    r1 ← setBlockListEntry r (Id b) 0 0;
    next ← getNextFreeBlockId r1;
    if Id b =? wrap64 (next - 1)
    then Ret (true, setNextFreeBlockId (setFreePointer r1 offset) (Id b))
    else Ret (true, r1).

Definition region_GetBlock (r : region) (id : Z) : outcome (option Block) :=
  max ← getNextFreeBlockId r;
  lo ← NewBlockId (r_id r) 0;
  if (id <? lo) || (id >=? max) then Ret None
  else rawGetBlock r id.

(** [entries := make([]*Block, 0, max)] panics when [max] is negative
    (the allocation limit of the platform, which also bounds [max], is
    not modelled); [for i := NewBlockId(r.id, 0); i < max; i++] then
    collects the non-nil results of [r.GetBlock(i)]. *)
Definition region_Blocks (r : region) : outcome (list Block) :=
  max ← getNextFreeBlockId r;
  if max <? 0 then Panic
  else
    lo ← NewBlockId (r_id r) 0;
    bs ← mapM (region_GetBlock r) (seqZ lo (max - lo));
    mret (omap (fun b => b) bs).

(** ** Creating a region *)

(** The 32 header bytes written by [appendRegion]: signature, free
    pointer (initially the header size), region size, region id. *)
Definition region_header (rid regionSizeB : Z) : list Z :=
  write_int64
    (write_int64
       (write_int64 (signature ++ replicate 24 0)
          regionFreePointerOffset regionHeaderSize)
       regionSizeOffset regionSizeB)
    regionId rid.

(** [appendRegion] grows the file by [regionSizeB] zero bytes, writes the
    header at the start of the new range, maps [regionSizeB] bytes of it
    ([openRegion]) and clears the block counter.  Mapping an empty range
    is refused by the operating system.  The file is taken to end on a
    page boundary, where the mapping can start; [appendRegion_file]
    below has the file and checks it. *)
Definition appendRegion (rid regionSizeB : Z) : outcome (region + error) :=
  if regionSizeB <=? 0 then Ret (inr IOError)
  else
    let d := take (Z.to_nat regionSizeB)
               (region_header rid regionSizeB
                ++ replicate (Z.to_nat (regionSizeB - regionHeaderSize)) 0) in
    if slice_ok d regionFreePointerOffset (regionFreePointerOffset + 8)
    then Ret (inl (initBlockList (mkRegion rid d)))
    else Panic.

(** ** Heap *)

(** [OpenForUpdate] on a file that does not exist yet. *)
Definition OpenForUpdate (regionSizeMb : Z) : outcome (Heap + error) :=
  r ← appendRegion 0 (wrap64 (wrap64 (regionSizeMb * 1024) * 1024));
  match r with
  | inl r => Ret (inl (mkHeap [r]))
  | inr e => Ret (inr e)
  end.

Fixpoint sum_Available (rs : list region) (c : Z) : outcome Z :=
  match rs with
  | [] => Ret c
  | r :: rs' => a ← region_Available r; sum_Available rs' (wrap64 (c + a))
  end.

Definition Heap_Available (h : Heap) : outcome Z :=
  sum_Available (regions h) 0.

(** [h.regions[i]] panics unless [0 <= i < len(h.regions)]. *)
Definition region_at (h : Heap) (i : Z) : outcome region :=
  if (i <? 0) || (Z.of_nat (length (regions h)) <=? i) then Panic
  else match regions h !! Z.to_nat i with
       | Some r => Ret r
       | None => Panic
       end.

Definition Heap_GetBlock (h : Heap) (id : Z) : outcome (option Block) :=
  r ← region_at h (BlockId_RegionId id);
  region_GetBlock r id.

Definition Heap_Blocks (h : Heap) : outcome (list Block) :=
  bss ← mapM region_Blocks (regions h);
  mret (concat bss).

Definition Heap_Free (h : Heap) (b : Block) : outcome (bool * Heap) :=
  r ← region_at h (BlockId_RegionId (Id b));
  '(ok, r') ← region_Free r b;
  mret (ok, mkHeap (<[Z.to_nat (BlockId_RegionId (Id b)) := r']> (regions h))).

(** The [for _, r = range h.regions] loop of [Heap.Allocate]: the first
    region whose [Allocate] returns no error, or an error other than
    [OutOfMemory], decides; [None] when every region is out of memory. *)
Fixpoint allocate_first (rs : list region) (size : Z)
  : outcome (option (option Block * option error) * list region) :=
  match rs with
  | [] => Ret (None, [])
  | r :: rs' =>
      '(b, err, r') ← region_Allocate r size;
      match err with
      | None => Ret (Some (b, None), r' :: rs')
      | Some OutOfMemory =>
          '(res, rs'') ← allocate_first rs' size;
          Ret (res, r' :: rs'')
      | Some e => Ret (Some (None, Some e), r' :: rs')
      end
  end.

(** [for regionSize < size { regionSize *= 2 }]; [None] when the loop is
    still running after [fuel] iterations. *)
Fixpoint grow_region_size (fuel : nat) (regionSize size : Z) : option Z :=
  if regionSize <? size then
    match fuel with
    | O => None
    | S fuel' => grow_region_size fuel' (wrap64 (regionSize * 2)) size
    end
  else Some regionSize.

(** [Heap.Allocate] calls itself after appending a region; [fuel] bounds
    the number of calls (and of doublings), [None] means the call is
    still running when the fuel is spent. *)
Fixpoint Heap_Allocate (fuel : nat) (h : Heap) (size : Z)
  : option (outcome (option Block * option error * Heap)) :=
  match fuel with
  | O => None
  | S fuel' =>
      match allocate_first (regions h) size with
      | Panic => Some Panic
      | Ret (Some (b, err), rs) => Some (Ret (b, err, mkHeap rs))
      | Ret (None, rs) =>
          match last rs with
          | None => Some Panic (* [r] is nil *)
          | Some r =>
              match grow_region_size fuel' (region_Size r) size with
              | None => None
              | Some regionSize =>
                  match appendRegion (wrap64 (r_id r + 1)) regionSize with
                  | Panic => Some Panic
                  | Ret (inr e) => Some (Ret (None, Some e, mkHeap rs))
                  | Ret (inl r') =>
                      Heap_Allocate fuel' (mkHeap (rs ++ [r'])) size
                  end
              end
          end
      end
  end.


(** ** Closing a heap *)

(** [h.Close()] closes the file and resets the heap: [*h = Heap{}]. *)
Definition Heap_Close (h : Heap) : Heap := mkHeap [].

(** ** The heap file

    The definitions above leave the file out: they describe
    [appendRegion] and [OpenForUpdate] on a file that is new and
    suitably aligned.  The definitions below make the file explicit, as
    the list of its bytes, and add the functions that read it
    ([openRegion], [initHeap], [Open]).  The operating system is
    followed where its answer is determined by the arguments of the
    call: truncating to a negative length and seeking to a negative
    offset are refused, a read at or past the end of the file reads
    nothing, [syscall.Mmap] refuses a length that is not positive (Go's
    wrapper) and an offset that is not a multiple of the page size
    ([pagesize], the value of [os.Getpagesize()]).  Failures for reasons
    outside the arguments (permissions, resource limits, I/O errors) are
    not modelled.  A mapping is shared with the file ([MAP_SHARED]): the
    bytes of the mapping are the bytes of the file at the mapped range,
    and a store through the mapping is a store to the file. *)

(** What a call that opens regions comes back with: its result, an
    error, or a mapping made over a range that reaches past the end of
    the file.  The last is no error for the code, which goes on with a
    slice whose pages past the end fault on access; the model stops
    there. *)
Inductive opened (A : Type) : Type :=
| Opened (a : A)
| Failed (e : error)
| PastEnd.
Arguments Opened {A} a.
Arguments Failed {A} e.
Arguments PastEnd {A}.

(** [f.Truncate(size)]: the file is cut or extended with zero bytes. *)
Definition Truncate (f : list Z) (size : Z) : option (list Z) :=
  if size <? 0 then None
  else Some (take (Z.to_nat size) f
             ++ replicate (Z.to_nat size - length f) 0).

(** [f.Write(bs)] with the file offset at [pos]; a gap between the end of
    the file and [pos] reads as zero bytes.  The same function gives the
    file after stores through a mapping [bs] of the range starting at
    [pos]. *)
Definition write_at (f : list Z) (pos : Z) (bs : list Z) : list Z :=
  let p := Z.to_nat pos in
  take p f ++ replicate (p - length f) 0 ++ bs ++ drop (p + length bs) f.

(** [f.Seek(offset, os.SEEK_SET)] followed by [f.Read(header)] into a
    zeroed buffer of [regionHeaderSize] bytes: [None] when either call
    returns an error (negative offset, nothing left to read). *)
Definition read_header (f : list Z) (offset : Z) : option (list Z) :=
  if (offset <? 0) || (Z.of_nat (length f) <=? offset) then None
  else
    let bs := take (Z.to_nat regionHeaderSize) (drop (Z.to_nat offset) f) in
    Some (bs ++ replicate (Z.to_nat regionHeaderSize - length bs) 0).

(** [syscall.Mmap(fd, offset, length, prot, MAP_SHARED)]. *)
Definition Mmap (pagesize : Z) (f : list Z) (offset length : Z)
  : opened (list Z) :=
  if length <=? 0 then Failed IOError
  else if negb (offset mod pagesize =? 0) then Failed IOError
  else if Z.of_nat (List.length f) <? offset + length then PastEnd
  else Opened (take (Z.to_nat length) (drop (Z.to_nat offset) f)).

(** [openRegion(f, writeable, offset)].  [writeable] selects the
    protection of the mapping only; the region carries no trace of it. *)
Definition openRegion (pagesize : Z) (f : list Z) (writeable : bool)
    (offset : Z) : outcome (opened region) :=
  match read_header f offset with
  | None => Ret (Failed IOError)
  | Some header =>
      if negb (bool_decide (take 8 header = signature))
      then Ret (Failed InvalidSignature)
      else
        let size := read_int64 header regionSizeOffset in
        let rid := read_int64 header regionId in
        match Mmap pagesize f offset size with
        | Failed e => Ret (Failed e)
        | PastEnd => Ret PastEnd
        | Opened d =>
            if slice_ok d regionFreePointerOffset
                 (regionFreePointerOffset + 8)
               && slice_ok d (Z.of_nat (length d) - 8) (Z.of_nat (length d))
            then Ret (Opened (mkRegion rid d))
            else Panic
        end
  end.

(** The loop of [initHeap]: [for offset < i.Size() { ... }]; [None] when
    the loop is still running after [fuel] iterations. *)
Fixpoint initHeap_loop (fuel : nat) (pagesize : Z) (f : list Z)
    (writeable : bool) (offset : Z) (regions : list region)
  : option (outcome (opened Heap)) :=
  if offset <? Z.of_nat (length f) then
    match fuel with
    | O => None
    | S fuel' =>
        match openRegion pagesize f writeable offset with
        | Panic => Some Panic
        | Ret (Failed e) => Some (Ret (Failed e))
        | Ret PastEnd => Some (Ret PastEnd)
        | Ret (Opened r) =>
            initHeap_loop fuel' pagesize f writeable
              (wrap64 (offset + region_Size r)) (regions ++ [r])
        end
    end
  else Some (Ret (Opened (mkHeap regions))).

Definition initHeap (fuel : nat) (pagesize : Z) (f : list Z)
    (writeable : bool) : option (outcome (opened Heap)) :=
  initHeap_loop fuel pagesize f writeable 0 [].

(** [Open(filename)] on the file [f]. *)
Definition Open (fuel : nat) (pagesize : Z) (f : list Z)
  : option (outcome (opened Heap)) :=
  initHeap fuel pagesize f false.

(** [appendRegion] with the file made explicit: the call returns the
    file as it leaves it, and the region or the error. *)
Definition appendRegion_file (pagesize : Z) (f : list Z)
    (rid regionSizeB : Z) : outcome (list Z * opened region) :=
  let size := Z.of_nat (length f) in
  match Truncate f (wrap64 (size + regionSizeB)) with
  | None => Ret (f, Failed IOError)
  | Some f1 =>
      let f2 := write_at f1 size (region_header rid regionSizeB) in
      r ← openRegion pagesize f2 true size;
      match r with
      | Opened r =>
          let r' := initBlockList r in
          Ret (write_at f2 size (r_d r'), Opened r')
      | Failed e => Ret (f2, Failed e)
      | PastEnd => Ret (f2, PastEnd)
      end
  end.

(** [OpenForUpdate(filename, regionSizeMb)] on the file [f] (empty when
    the call creates it): the file as the call leaves it, and the heap or
    the error. *)
Definition OpenForUpdate_file (fuel : nat) (pagesize : Z) (f : list Z)
    (regionSizeMb : Z) : option (outcome (list Z * opened Heap)) :=
  if Z.of_nat (length f) =? 0 then
    Some ('(f', r) ← appendRegion_file pagesize f 0
                       (wrap64 (wrap64 (regionSizeMb * 1024) * 1024));
          Ret (f', match r with
                   | Opened r => Opened (mkHeap [r])
                   | Failed e => Failed e
                   | PastEnd => PastEnd
                   end))
  else
    match initHeap fuel pagesize f true with
    | None => None
    | Some o => Some (h ← o; Ret (f, h))
    end.

(** * The stores of [Allocate], in program order *)

(** Every write of the region code to the mapping is the store of one
    [int64] through an [unsafe.Pointer] into [r.d].  The functions below
    are the functions [Allocate] calls, and [Allocate] itself, once
    more, each returning next to its result the stores it has made,
    oldest first. *)
Record store : Type := mkStore { st_off : Z; st_val : Z }.

Definition put (r : region) (off v : Z) : region * list store :=
  (poke r off v, [mkStore off v]).

(** The mapping after the stores [ws] have reached it, oldest first. *)
Definition run_stores (r : region) (ws : list store) : region :=
  foldl (fun s w => poke s (st_off w) (st_val w)) r ws.

Definition setBlockListEntry_log (r : region) (id offset size : Z)
  : outcome (region * list store) :=
  j ← getBlockListEntryBytes r id;
  let '(r1, w1) := put r j offset in
  let '(r2, w2) := put r1 (j + 8) size in
  mret (r2, w1 ++ w2).

Definition setFreePointer_log (r : region) (offset : Z)
  : region * list store :=
  put r regionFreePointerOffset offset.

Definition incrementFreeBlockId_log (r : region)
  : outcome (Z * region * list store) :=
  id ← getNextFreeBlockId r;
  let '(r1, w) := put r (region_Size r - 8)
                    (wrap64 (BlockId_BlockId id + 1)) in
  mret (id, r1, w).

Definition region_Allocate_log (r : region) (size : Z)
  : outcome (option Block * option error * region * list store) :=
  let offset := getFreePointer r in
  avail ← region_Available r;
  if size >? avail then Ret (None, Some OutOfMemory, r, [])
  else if size >? region_Size r then Ret (None, Some BlockTooLarge, r, [])
  else
    id ← getNextFreeBlockId r;
    '(r1, w1) ← setBlockListEntry_log r id offset size;
    b ← rawGetBlock r1 id;
    let '(r2, w2) := setFreePointer_log r1 (wrap64 (offset + size)) in
    '(_, r3, w3) ← incrementFreeBlockId_log r2;
    Ret (b, None, r3, w1 ++ w2 ++ w3).
(** * Vocabulary of the properties *)

(** The identifier of block 0 of region [rid]. *)
Definition region_base (rid : Z) : Z := wrap64 (rid * 65536).

(** The stored next-free-block-id counter (the last 8 bytes). *)
Definition block_count (r : region) : Z := peek r (region_Size r - 8).

(** Byte offset of the block-list entry of block index [k]. *)
Definition slot (r : region) (k : Z) : Z :=
  region_Size r - blockListHeaderSize - blockListEntrySize * (k + 1).

(** The stored (offset, size) pair of block index [k]. *)
Definition entry (r : region) (k : Z) : Z * Z :=
  (peek r (slot r k), peek r (slot r k + 8)).

(** The region after a successful [Allocate] of [size] bytes: the four
    stores in program order (entry offset, entry size, free pointer,
    counter). *)
Definition alloc_state (r : region) (size : Z) : region :=
  let f := getFreePointer r in
  let c := block_count r in
  poke (poke (poke (poke r (slot r c) f) (slot r c + 8) size)
          regionFreePointerOffset (f + size))
    (region_Size r - 8) (c + 1).

(** The region after the entry of block index [k] is cleared, and after
    the heap is then wound back to [offset] with [k] as the next id. *)
Definition zero_entry (r : region) (k : Z) : region :=
  poke (poke r (slot r k) 0) (slot r k + 8) 0.

Definition wind_back (r : region) (k offset : Z) : region :=
  poke (poke (zero_entry r k) regionFreePointerOffset offset)
    (region_Size r - 8) k.

(** The region [appendRegion] maps when the mapping holds the whole
    header. *)
Definition fresh_mapping (rid regionSizeB : Z) : list Z :=
  region_header rid regionSizeB
  ++ replicate (Z.to_nat (regionSizeB - regionHeaderSize)) 0.

Definition fresh_region (rid regionSizeB : Z) : region :=
  initBlockList (mkRegion rid (fresh_mapping rid regionSizeB)).

Arguments fresh_region : simpl never.

(** The heap [OpenForUpdate] returns for a new file: one fresh region
    with index 0. *)
Definition new_heap (regionSizeB : Z) : Heap :=
  mkHeap [fresh_region 0 regionSizeB].

(** One mebibyte, the region size of [OpenForUpdate(name, 1)]. *)
Definition MiB : Z := 1048576.

(** A region is well formed when its mapping has a Go slice length, its
    free pointer lies between the end of the header and the end of the
    mapping, and its counter is a 16-bit block index. *)
Definition well_formed (r : region) : Prop :=
  region_Size r < 2 ^ 63
  ∧ regionHeaderSize <= getFreePointer r <= region_Size r
  ∧ 0 <= block_count r <= 65535.

(** The first byte of the block list in use: the entries of the slots
    below the counter and the counter itself occupy
    [block_list_bottom r, region_Size r). *)
Definition block_list_bottom (r : region) : Z :=
  region_Size r - blockListHeaderSize - blockListEntrySize * block_count r.

(** The byte range [offset, offset + size) lies in the data area, between
    the header and the block list in use. *)
Definition in_data_area (r : region) (offset size : Z) : Prop :=
  regionHeaderSize <= offset ∧ offset + size <= block_list_bottom r.


(** A client that calls [Allocate] once per requested size, in order, on
    the same region. *)
Fixpoint allocate_all (r : region) (sizes : list Z)
  : outcome (list (option Block * option error) * region) :=
  match sizes with
  | [] => Ret ([], r)
  | size :: sizes' =>
      '(b, err, r1) ← region_Allocate r size;
      '(results, r2) ← allocate_all r1 sizes';
      Ret ((b, err) :: results, r2)
  end.

(** The requests fit the region one after the other: each is at most
    what is available when it is made, and an allocation of [size] bytes
    takes [size] bytes and one 16-byte entry from what is available. *)
Fixpoint fits (avail : Z) (sizes : list Z) : Prop :=
  match sizes with
  | [] => True
  | size :: sizes' =>
      size <= avail ∧ fits (avail - size - blockListEntrySize) sizes'
  end.


(** The bytes of the file behind a heap whose regions were appended one
    after the other: the mappings in order. *)
Definition Heap_file (h : Heap) : list Z := concat (r_d <$> regions h).

(** The header fields that [openRegion] reads are those of the region:
    the signature, the stored size and the stored region id. *)
Definition header_intact (r : region) : Prop :=
  regionHeaderSize <= region_Size r
  ∧ take 8 (r_d r) = signature
  ∧ peek r regionSizeOffset = region_Size r
  ∧ peek r regionId = r_id r.

(** The regions of a heap carry their positions as ids. *)
Definition numbered (rs : list region) : Prop :=
  ∀ i r, rs !! i = Some r → r_id r = Z.of_nat i.

(** A heap in good order: the regions are numbered by position, each is
    well formed, holds at least its header and counter, and has not used
    up its block indices. *)
Definition heap_ok (h : Heap) : Prop :=
  numbered (regions h)
  ∧ Forall (λ r, well_formed r ∧ 40 <= region_Size r
                 ∧ block_count r < 65535) (regions h).

(** A region has no room for a request of [size] bytes. *)
Definition full_for (size : Z) (r : region) : Prop :=
  ∃ a, region_Available r = Ret a ∧ a < size.

(** [keeps c r0 r]: region [r] is reached from [r0] by successful
    [Allocate] calls that do not take block index [c], by [Free] calls
    on blocks of other indices and by byte stores of clients into blocks
    that end at or below the entry of index [c]. *)
Inductive keeps (c : Z) (r0 : region) : region → Prop :=
| keeps_start : keeps c r0 r0
| keeps_Allocate r size id b r' :
    keeps c r0 r →
    getNextFreeBlockId r = Ret id → BlockId_BlockId id ≠ c →
    region_Allocate r size = Ret (b, None, r') →
    keeps c r0 r'
| keeps_Free r b ok r' :
    keeps c r0 r →
    BlockId_BlockId (Id b) ≠ c →
    region_Free r b = Ret (ok, r') →
    keeps c r0 r'
| keeps_store r b i v r' :
    keeps c r0 r →
    0 <= Offset b → Offset b + Size b <= slot r0 c →
    Block_store r b i v = Ret r' →
    keeps c r0 r'.
(** * Properties *)

(** ** 64-bit arithmetic *)

Lemma wrap64_small x : - 2 ^ 63 <= x < 2 ^ 63 → wrap64 x = x.
Proof.
  intros Hx. unfold wrap64.
  rewrite Z.mod_small by lia. lia.
Qed.

Lemma wrap64_range x : - 2 ^ 63 <= wrap64 x < 2 ^ 63.
Proof.
  unfold wrap64.
  pose proof (Z.mod_pos_bound (x + 2 ^ 63) (2 ^ 64)). lia.
Qed.

Lemma wrap64_mod x : wrap64 (x mod 2 ^ 64) = wrap64 x.
Proof.
  unfold wrap64.
  rewrite Zplus_mod_idemp_l. reflexivity.
Qed.

Lemma wrap64_mult_65536 x : wrap64 (x * 65536) mod 65536 = 0.
Proof.
  unfold wrap64.
  pose proof (Z.div_mod (x * 65536 + 2 ^ 63) (2 ^ 64) ltac:(lia)) as Hdm.
  set (q := (x * 65536 + 2 ^ 63) / 2 ^ 64) in *.
  replace ((x * 65536 + 2 ^ 63) mod 2 ^ 64 - 2 ^ 63)
    with ((x - 2 ^ 48 * q) * 65536) by lia.
  apply Z.mod_mul. lia.
Qed.

(** ** Little-endian reads and writes *)

Lemma le_write_length d off n v : length (le_write d off n v) = length d.
Proof.
  revert d off v. induction n as [|n IH]; intros d off v; simpl.
  - reflexivity.
  - rewrite IH. apply length_insert.
Qed.

Lemma le_write_lookup_ne d off n v k :
  (k < off ∨ off + n ≤ k)%nat → le_write d off n v !!! k = d !!! k.
Proof.
  revert d off v. induction n as [|n IH]; intros d off v Hk; simpl.
  - reflexivity.
  - rewrite IH by lia.
    apply list_lookup_total_insert_ne. lia.
Qed.

Lemma le_read_ext d1 d2 off n :
  (∀ k, (off ≤ k < off + n)%nat → d1 !!! k = d2 !!! k) →
  le_read d1 off n = le_read d2 off n.
Proof.
  revert off. induction n as [|n IH]; intros off Hk; simpl.
  - reflexivity.
  - rewrite (Hk off) by lia.
    rewrite (IH (S off)); [reflexivity|].
    intros k Hk'. apply Hk. lia.
Qed.

Lemma le_read_write_same d off n v :
  (off + n ≤ length d)%nat →
  le_read (le_write d off n v) off n = v mod 256 ^ Z.of_nat n.
Proof.
  revert d off v. induction n as [|n IH]; intros d off v Hlen.
  - simpl. rewrite Z.mod_1_r. reflexivity.
  - cbn [le_read le_write].
    rewrite le_write_lookup_ne by lia.
    rewrite list_lookup_total_insert_eq by lia.
    rewrite IH by (rewrite length_insert; lia).
    rewrite Nat2Z.inj_succ, Z.pow_succ_r by lia.
    rewrite Z.rem_mul_r by lia. reflexivity.
Qed.

Lemma write_int64_length d off v :
  length (write_int64 d off v) = length d.
Proof. apply le_write_length. Qed.

Lemma read_write_same d off v :
  0 <= off → off + 8 <= Z.of_nat (length d) →
  read_int64 (write_int64 d off v) off = wrap64 v.
Proof.
  intros H0 Hlen. unfold read_int64, write_int64.
  rewrite le_read_write_same by lia.
  apply wrap64_mod.
Qed.

Lemma read_write_ne d off off' v :
  0 <= off → 0 <= off' → off + 8 <= off' ∨ off' + 8 <= off →
  read_int64 (write_int64 d off v) off' = read_int64 d off'.
Proof.
  intros H0 H0' Hd. unfold read_int64, write_int64. f_equal.
  apply le_read_ext. intros k Hk.
  apply le_write_lookup_ne. lia.
Qed.

(** ** Block identifiers *)

Lemma land_65535 x : Z.land x 65535 = x mod 65536.
Proof. change 65535 with (Z.ones 16). rewrite Z.land_ones by lia. reflexivity. Qed.

Lemma land_disjoint a b :
  a mod 65536 = 0 → 0 <= b < 65536 → Z.land a b = 0.
Proof.
  intros Ha Hb. apply Z.bits_inj'. intros n Hn.
  rewrite Z.land_spec, Z.bits_0.
  destruct (Z.lt_ge_cases n 16) as [Hlt|Hge].
  - rewrite <- (Z.mod_pow2_bits_low a 16 n) by lia.
    change (2 ^ 16) with 65536. rewrite Ha, Z.bits_0. reflexivity.
  - rewrite <- (Z.mod_small b (2 ^ 16)) by lia.
    rewrite Z.mod_pow2_bits_high by lia.
    apply andb_false_r.
Qed.

Lemma lor_base rid k :
  0 <= k < 65536 → Z.lor (wrap64 (Z.shiftl rid 16)) k = region_base rid + k.
Proof.
  intros Hk. unfold region_base.
  rewrite Z.shiftl_mul_pow2 by lia. change (2 ^ 16) with 65536.
  pose proof (land_disjoint _ _ (wrap64_mult_65536 rid) Hk) as Hland.
  rewrite <- Z.lxor_lor by exact Hland.
  symmetry. apply Z.add_nocarry_lxor. exact Hland.
Qed.

Lemma NewBlockId_eq rid bid :
  bid <= 1048575 →
  NewBlockId rid bid = Ret (region_base rid + bid mod 65536).
Proof.
  intros Hb. unfold NewBlockId.
  destruct (bid >? 1048575) eqn:E; [lia|].
  rewrite land_65535, lor_base; [reflexivity|].
  apply Z.mod_pos_bound. lia.
Qed.

Lemma NewBlockId_panic rid bid : 1048575 < bid → NewBlockId rid bid = Panic.
Proof.
  intros Hb. unfold NewBlockId.
  destruct (bid >? 1048575) eqn:E; [reflexivity|lia].
Qed.

Lemma BlockId_BlockId_base rid k :
  BlockId_BlockId (region_base rid + k) = k mod 65536.
Proof.
  unfold BlockId_BlockId, region_base. rewrite land_65535.
  rewrite <- Zplus_mod_idemp_l, wrap64_mult_65536. reflexivity.
Qed.

Lemma region_base_small rid :
  - 2 ^ 47 <= rid < 2 ^ 47 → region_base rid = rid * 65536.
Proof. intros H. unfold region_base. apply wrap64_small. lia. Qed.

Lemma BlockId_RegionId_base rid k :
  - 2 ^ 47 <= rid < 2 ^ 47 → 0 <= k < 65536 →
  BlockId_RegionId (region_base rid + k) = rid.
Proof.
  intros Hr Hk. unfold BlockId_RegionId.
  rewrite region_base_small by exact Hr.
  rewrite Z.shiftr_div_pow2 by lia. change (2 ^ 16) with 65536.
  rewrite Z.add_comm, Z.div_add by lia.
  rewrite Z.div_small by lia. reflexivity.
Qed.

(** ** Stores and loads on a region *)

Lemma region_Size_poke r off v : region_Size (poke r off v) = region_Size r.
Proof. unfold region_Size, poke. cbn [r_d]. rewrite write_int64_length. reflexivity. Qed.

Lemma r_id_poke r off v : r_id (poke r off v) = r_id r.
Proof. reflexivity. Qed.

Lemma peek_poke_same r off v :
  0 <= off → off + 8 <= region_Size r → peek (poke r off v) off = wrap64 v.
Proof. intros. unfold peek, poke. cbn [r_d]. apply read_write_same; assumption. Qed.

Lemma peek_poke_ne r off off' v :
  0 <= off → 0 <= off' → off + 8 <= off' ∨ off' + 8 <= off →
  peek (poke r off v) off' = peek r off'.
Proof. intros. unfold peek, poke. cbn [r_d]. apply read_write_ne; assumption. Qed.

Lemma slot_poke r off v k : slot (poke r off v) k = slot r k.
Proof. unfold slot. rewrite region_Size_poke. reflexivity. Qed.

Lemma region_Size_nonneg r : 0 <= region_Size r.
Proof. unfold region_Size. lia. Qed.

Lemma slice_ok_true d lo hi :
  0 <= lo → lo <= hi → hi <= Z.of_nat (length d) → slice_ok d lo hi = true.
Proof. intros. unfold slice_ok. repeat (apply andb_true_intro; split); lia. Qed.

Lemma slice_ok_false d lo hi :
  lo < 0 ∨ hi < lo ∨ Z.of_nat (length d) < hi → slice_ok d lo hi = false.
Proof.
  intros H. unfold slice_ok.
  destruct (0 <=? lo) eqn:E1; [|reflexivity].
  destruct (lo <=? hi) eqn:E2; [|reflexivity].
  destruct (hi <=? Z.of_nat (length d)) eqn:E3; [|reflexivity].
  lia.
Qed.

(** ** The accessors on a region whose counter is a valid block index *)

Lemma getNextFreeBlockId_eq r :
  0 <= block_count r <= 65535 →
  getNextFreeBlockId r = Ret (region_base (r_id r) + block_count r).
Proof.
  intros Hc. unfold getNextFreeBlockId. fold (block_count r).
  rewrite NewBlockId_eq by lia.
  rewrite Z.mod_small by lia. reflexivity.
Qed.

Lemma BlockId_BlockId_small rid k :
  0 <= k <= 65535 → BlockId_BlockId (region_base rid + k) = k.
Proof. intros. rewrite BlockId_BlockId_base. apply Z.mod_small. lia. Qed.

Lemma BlockId_BlockId_range id : 0 <= BlockId_BlockId id <= 65535.
Proof.
  unfold BlockId_BlockId. rewrite land_65535.
  pose proof (Z.mod_pos_bound id 65536). lia.
Qed.

Lemma getBlockListEntryBytes_eq r id :
  0 <= slot r (BlockId_BlockId id) →
  getBlockListEntryBytes r id = Ret (slot r (BlockId_BlockId id)).
Proof.
  intros Hs. unfold getBlockListEntryBytes.
  pose proof (BlockId_BlockId_range id).
  unfold slot, blockListHeaderSize, blockListEntrySize in *.
  rewrite slice_ok_true by (fold (region_Size r); lia).
  f_equal. lia.
Qed.


Lemma setBlockListEntry_eq r id offset size :
  0 <= slot r (BlockId_BlockId id) →
  setBlockListEntry r id offset size
  = Ret (poke (poke r (slot r (BlockId_BlockId id)) offset)
           (slot r (BlockId_BlockId id) + 8) size).
Proof.
  intros Hs. unfold setBlockListEntry.
  rewrite getBlockListEntryBytes_eq by assumption. reflexivity.
Qed.

Lemma slice_ok_poke r off v lo hi :
  slice_ok (r_d (poke r off v)) lo hi = slice_ok (r_d r) lo hi.
Proof.
  unfold slice_ok, poke. cbn [r_d].
  rewrite write_int64_length. reflexivity.
Qed.

Lemma block_count_poke r off v :
  0 <= off → off + 8 <= region_Size r - 8 →
  block_count (poke r off v) = block_count r.
Proof.
  intros. unfold block_count. rewrite region_Size_poke.
  apply peek_poke_ne; lia.
Qed.

Lemma block_count_poke_same r v :
  8 <= region_Size r →
  block_count (poke r (region_Size r - 8) v) = wrap64 v.
Proof.
  intros. unfold block_count. rewrite region_Size_poke.
  apply peek_poke_same; lia.
Qed.

Lemma getFreePointer_poke r off v :
  16 <= off → getFreePointer (poke r off v) = getFreePointer r.
Proof.
  intros. unfold getFreePointer, regionFreePointerOffset.
  apply peek_poke_ne; lia.
Qed.

Lemma getFreePointer_poke_same r v :
  16 <= region_Size r →
  getFreePointer (poke r regionFreePointerOffset v) = wrap64 v.
Proof.
  intros. unfold getFreePointer, regionFreePointerOffset.
  apply peek_poke_same; lia.
Qed.

Lemma slot_bounds r k :
  0 <= k → slot r k + 16 <= region_Size r - 8.
Proof. intros. unfold slot, blockListHeaderSize, blockListEntrySize. lia. Qed.

(** Rewriting of loads over stores, side conditions by [lia]. *)
Ltac mem :=
  repeat first
    [ rewrite region_Size_poke
    | rewrite slot_poke
    | rewrite r_id_poke
    | rewrite slice_ok_poke
    | rewrite peek_poke_same by (rewrite ?region_Size_poke; lia)
    | rewrite peek_poke_ne by (rewrite ?region_Size_poke; lia) ].

Ltac run := cbn [mbind outcome_bind mret outcome_ret].

(** ** [Available] and [Allocate] *)

Lemma region_Available_eq r :
  region_Size r < 2 ^ 63 → 0 <= block_count r <= 65535 →
  0 <= getFreePointer r <= region_Size r + 2 ^ 62 →
  region_Available r
  = Ret (region_Size r - getFreePointer r - 8 - 16 * block_count r).
Proof.
  intros HS Hc Hf. unfold region_Available.
  rewrite getNextFreeBlockId_eq by assumption. run.
  rewrite BlockId_BlockId_small by assumption.
  pose proof (region_Size_nonneg r).
  unfold blockListHeaderSize, blockListEntrySize.
  rewrite (wrap64_small (region_Size r - getFreePointer r)) by lia.
  rewrite (wrap64_small (block_count r * 16)) by lia.
  rewrite (wrap64_small (region_Size r - getFreePointer r - 8)) by lia.
  rewrite wrap64_small by lia.
  f_equal. lia.
Qed.

Lemma region_Allocate_OutOfMemory r size a :
  region_Available r = Ret a → a < size →
  region_Allocate r size = Ret (None, Some OutOfMemory, r).
Proof.
  intros Ha Hlt. unfold region_Allocate. rewrite Ha. run.
  destruct (size >? a) eqn:E; [reflexivity|lia].
Qed.

Lemma region_Allocate_success r size :
  region_Size r < 2 ^ 63 → 32 <= getFreePointer r →
  0 <= block_count r <= 65535 →
  0 <= size <= region_Size r - getFreePointer r - 8 - 16 * block_count r →
  region_Allocate r size =
  Ret (if size =? 0 then None
       else Some (mkBlock (r_id r) (region_base (r_id r) + block_count r)
                    size (getFreePointer r)),
       None, alloc_state r size).
Proof.
  intros HS Hf Hc Hsz.
  unfold region_Allocate.
  rewrite region_Available_eq by lia. run.
  destruct (size >? _) eqn:E1; [lia|].
  destruct (size >? region_Size r) eqn:E2; [lia|].
  rewrite getNextFreeBlockId_eq by assumption. run.
  assert (Hslot : 16 <= slot r (block_count r))
    by (unfold slot, blockListHeaderSize, blockListEntrySize; lia).
  pose proof (slot_bounds r (block_count r) ltac:(lia)) as Hslot'.
  rewrite setBlockListEntry_eq
    by (rewrite BlockId_BlockId_small by lia; lia).
  rewrite BlockId_BlockId_small by lia. run.
  unfold rawGetBlock.
  rewrite getBlockListEntryBytes_eq
    by (rewrite BlockId_BlockId_small by lia; mem; lia).
  rewrite BlockId_BlockId_small by lia. run.
  mem.
  rewrite (wrap64_small (getFreePointer r)) by lia.
  rewrite (wrap64_small size) by lia.
  rewrite (wrap64_small (getFreePointer r + size)) by lia.
  replace (getFreePointer r =? 0) with false by lia. cbn [orb].
  rewrite slice_ok_true by (fold (region_Size r); lia).
  unfold incrementFreeBlockId, setFreePointer, regionFreePointerOffset.
  rewrite getNextFreeBlockId_eq
    by (rewrite !block_count_poke by (mem; lia); lia).
  run.
  rewrite !block_count_poke by (mem; lia).
  rewrite BlockId_BlockId_small by lia.
  rewrite (wrap64_small (block_count r + 1)) by lia.
  mem.
  unfold alloc_state, regionFreePointerOffset.
  destruct (size =? 0); reflexivity.
Qed.

Lemma wrap64_idem x : wrap64 (wrap64 x) = wrap64 x.
Proof. apply wrap64_small, wrap64_range. Qed.

Lemma peek_range r off : - 2 ^ 63 <= peek r off < 2 ^ 63.
Proof. apply wrap64_range. Qed.

Lemma wrap64_peek r off : wrap64 (peek r off) = peek r off.
Proof. apply wrap64_idem. Qed.

Section AllocState.
Variables (r : region) (size : Z).
Hypothesis Hcount : 0 <= block_count r.
Hypothesis Hslot : 16 <= slot r (block_count r).

Lemma region_Size_alloc_state :
  region_Size (alloc_state r size) = region_Size r.
Proof. unfold alloc_state. mem. reflexivity. Qed.

Lemma r_id_alloc_state : r_id (alloc_state r size) = r_id r.
Proof. reflexivity. Qed.

Lemma slot_alloc_state k : slot (alloc_state r size) k = slot r k.
Proof. unfold slot. rewrite region_Size_alloc_state. reflexivity. Qed.

Lemma getFreePointer_alloc_state :
  getFreePointer (alloc_state r size) = wrap64 (getFreePointer r + size).
Proof.
  pose proof (slot_bounds r _ Hcount).
  unfold alloc_state, getFreePointer, regionFreePointerOffset.
  mem. reflexivity.
Qed.

Lemma block_count_alloc_state :
  block_count (alloc_state r size) = wrap64 (block_count r + 1).
Proof.
  pose proof (slot_bounds r _ Hcount).
  unfold alloc_state, block_count. mem. reflexivity.
Qed.

Lemma peek_alloc_state_other off :
  16 <= off → off + 8 <= region_Size r - 8 →
  off + 8 <= slot r (block_count r) ∨ slot r (block_count r) + 16 <= off →
  peek (alloc_state r size) off = peek r off.
Proof.
  intros H1 H2 H3. pose proof (slot_bounds r _ Hcount).
  unfold alloc_state, regionFreePointerOffset.
  mem. reflexivity.
Qed.

Lemma entry_alloc_state_same :
  entry (alloc_state r size) (block_count r)
  = (getFreePointer r, wrap64 size).
Proof.
  pose proof (slot_bounds r _ Hcount).
  unfold entry. rewrite slot_alloc_state.
  unfold alloc_state, regionFreePointerOffset.
  mem. unfold getFreePointer. rewrite wrap64_peek. reflexivity.
Qed.

Lemma entry_alloc_state_other k :
  0 <= k → k ≠ block_count r → 16 <= slot r k →
  entry (alloc_state r size) k = entry r k.
Proof.
  intros Hk Hne Hs. pose proof (slot_bounds r _ Hk).
  assert (slot r k + 16 <= slot r (block_count r)
          ∨ slot r (block_count r) + 16 <= slot r k)
    by (unfold slot, blockListHeaderSize, blockListEntrySize in *; lia).
  unfold entry. rewrite slot_alloc_state.
  rewrite !peek_alloc_state_other by lia. reflexivity.
Qed.
End AllocState.

(** ** The freshly appended region *)

Lemma le_read_app_l d1 d2 off n :
  (off + n ≤ length d1)%nat → le_read (d1 ++ d2) off n = le_read d1 off n.
Proof.
  intros H. apply le_read_ext. intros k Hk.
  apply lookup_total_app_l. lia.
Qed.



Lemma region_header_length rid S : length (region_header rid S) = 32%nat.
Proof. unfold region_header. rewrite !write_int64_length. reflexivity. Qed.

Section Fresh.
Variables (rid S : Z).
Hypothesis HS : 40 <= S.

Local Abbreviation mapping := (fresh_mapping rid S).

Lemma fresh_mapping_length : Z.of_nat (length mapping) = S.
Proof.
  unfold fresh_mapping, regionHeaderSize.
  rewrite length_app, region_header_length, length_replicate. lia.
Qed.

Lemma region_Size_fresh : region_Size (fresh_region rid S) = S.
Proof.
  unfold fresh_region, initBlockList. rewrite region_Size_poke.
  apply fresh_mapping_length.
Qed.

Lemma r_id_fresh : r_id (fresh_region rid S) = rid.
Proof. reflexivity. Qed.

Lemma appendRegion_fresh : appendRegion rid S = Ret (inl (fresh_region rid S)).
Proof.
  unfold appendRegion. destruct (S <=? 0) eqn:E; [lia|].
  fold (fresh_mapping rid S). pose proof fresh_mapping_length as Hlen.
  rewrite take_ge by lia.
  rewrite slice_ok_true by (unfold regionFreePointerOffset; lia).
  reflexivity.
Qed.

Lemma block_count_fresh : block_count (fresh_region rid S) = 0.
Proof.
  unfold fresh_region, initBlockList.
  rewrite block_count_poke_same; [reflexivity|].
  unfold region_Size. cbn [r_d].
  rewrite fresh_mapping_length. lia.
Qed.

Lemma getFreePointer_fresh : getFreePointer (fresh_region rid S) = 32.
Proof.
  unfold fresh_region, initBlockList.
  assert (Hsz : region_Size (mkRegion rid mapping) = S)
    by apply fresh_mapping_length.
  rewrite Hsz.
  rewrite getFreePointer_poke by lia.
  unfold getFreePointer, peek, read_int64, fresh_mapping,
    regionFreePointerOffset.
  cbn [r_d].
  rewrite le_read_app_l by (rewrite region_header_length; simpl; lia).
  change (wrap64 (le_read (region_header rid S) (Z.to_nat 8) 8))
    with (read_int64 (region_header rid S) 8).
  unfold region_header, regionId, regionSizeOffset, regionFreePointerOffset,
    regionHeaderSize.
  rewrite !read_write_ne by lia.
  rewrite read_write_same by (simpl; lia).
  reflexivity.
Qed.


End Fresh.

(** ** [Free] *)



Lemma region_Free_live r b :
  let k := BlockId_BlockId (Id b) in
  16 <= slot r k → entry r k ≠ (0, 0) → 0 <= block_count r <= 65535 →
  region_Free r b
  = Ret (true,
         if Id b =? wrap64 (region_base (r_id r) + block_count r - 1)
         then wind_back r k (fst (entry r k))
         else zero_entry r k).
Proof.
  intros k Hs He Hc. subst k. unfold region_Free.
  pose proof (BlockId_BlockId_range (Id b)) as Hk.
  pose proof (slot_bounds r _ (proj1 Hk)) as Hb.
  rewrite getBlockListEntryBytes_eq by lia. run.
  destruct ((peek r _ =? 0) && (peek r _ =? 0)) eqn:E.
  { exfalso. apply He. unfold entry.
    apply andb_prop in E as [E1 E2].
    f_equal; lia. }
  rewrite setBlockListEntry_eq by lia. run.
  fold (zero_entry r (BlockId_BlockId (Id b))).
  assert (Hcz : block_count (zero_entry r (BlockId_BlockId (Id b)))
                = block_count r).
  { unfold zero_entry. rewrite !block_count_poke by (mem; lia). reflexivity. }
  rewrite getNextFreeBlockId_eq by (rewrite Hcz; lia). run.
  rewrite Hcz. unfold zero_entry at 1. rewrite !r_id_poke.
  destruct (Id b =? _); [|reflexivity].
  unfold setNextFreeBlockId, setFreePointer, wind_back, entry, fst.
  unfold zero_entry. mem. reflexivity.
Qed.

Section FreeStates.
Variables (r : region) (k : Z).
Hypothesis Hk : 0 <= k.
Hypothesis Hslot : 16 <= slot r k.

Lemma region_Size_zero_entry : region_Size (zero_entry r k) = region_Size r.
Proof. unfold zero_entry. mem. reflexivity. Qed.

Lemma slot_zero_entry k' : slot (zero_entry r k) k' = slot r k'.
Proof. unfold slot. rewrite region_Size_zero_entry. reflexivity. Qed.

Lemma getFreePointer_zero_entry :
  getFreePointer (zero_entry r k) = getFreePointer r.
Proof.
  unfold zero_entry. rewrite !getFreePointer_poke by lia. reflexivity.
Qed.

Lemma block_count_zero_entry : block_count (zero_entry r k) = block_count r.
Proof.
  pose proof (slot_bounds r k Hk).
  unfold zero_entry. rewrite !block_count_poke by (mem; lia). reflexivity.
Qed.

Lemma entry_zero_entry_same : entry (zero_entry r k) k = (0, 0).
Proof.
  pose proof (slot_bounds r k Hk).
  unfold entry. rewrite slot_zero_entry. unfold zero_entry. mem.
  reflexivity.
Qed.

Lemma entry_zero_entry_other k' :
  0 <= k' → k' ≠ k → 0 <= slot r k' →
  entry (zero_entry r k) k' = entry r k'.
Proof.
  intros Hk' Hne Hs'.
  pose proof (slot_bounds r k Hk). pose proof (slot_bounds r k' Hk').
  assert (slot r k' + 16 <= slot r k ∨ slot r k + 16 <= slot r k')
    by (unfold slot, blockListHeaderSize, blockListEntrySize in *; lia).
  unfold entry. rewrite slot_zero_entry. unfold zero_entry. mem.
  reflexivity.
Qed.

Variable offset : Z.

Lemma region_Size_wind_back :
  region_Size (wind_back r k offset) = region_Size r.
Proof. unfold wind_back, zero_entry. mem. reflexivity. Qed.

Lemma slot_wind_back k' : slot (wind_back r k offset) k' = slot r k'.
Proof. unfold slot. rewrite region_Size_wind_back. reflexivity. Qed.

Lemma getFreePointer_wind_back :
  getFreePointer (wind_back r k offset) = wrap64 offset.
Proof.
  pose proof (slot_bounds r k Hk).
  unfold wind_back, zero_entry, getFreePointer, regionFreePointerOffset.
  mem. reflexivity.
Qed.

Lemma block_count_wind_back :
  block_count (wind_back r k offset) = wrap64 k.
Proof.
  pose proof (slot_bounds r k Hk).
  unfold wind_back, zero_entry, block_count. mem. reflexivity.
Qed.

Lemma entry_wind_back_same : entry (wind_back r k offset) k = (0, 0).
Proof.
  pose proof (slot_bounds r k Hk).
  unfold entry. rewrite slot_wind_back.
  unfold wind_back, zero_entry, regionFreePointerOffset. mem.
  reflexivity.
Qed.

Lemma entry_wind_back_other k' :
  0 <= k' → k' ≠ k → 16 <= slot r k' →
  entry (wind_back r k offset) k' = entry r k'.
Proof.
  intros Hk' Hne Hs'.
  pose proof (slot_bounds r k Hk). pose proof (slot_bounds r k' Hk').
  assert (slot r k' + 16 <= slot r k ∨ slot r k + 16 <= slot r k')
    by (unfold slot, blockListHeaderSize, blockListEntrySize in *; lia).
  unfold entry. rewrite slot_wind_back.
  unfold wind_back, zero_entry, regionFreePointerOffset. mem.
  reflexivity.
Qed.
End FreeStates.

(** ** [GetBlock] *)

Lemma rawGetBlock_eq r id :
  0 <= slot r (BlockId_BlockId id) →
  rawGetBlock r id
  = let '(offset, size) := entry r (BlockId_BlockId id) in
    if (offset =? 0) || (size =? 0) then Ret None
    else if slice_ok (r_d r) offset (wrap64 (offset + size))
         then Ret (Some (mkBlock (r_id r) id size offset))
         else Panic.
Proof.
  intros Hs. unfold rawGetBlock.
  rewrite getBlockListEntryBytes_eq by assumption. reflexivity.
Qed.

Lemma region_GetBlock_eq r id :
  0 <= block_count r <= 65535 →
  region_GetBlock r id
  = if (id <? region_base (r_id r))
       || (id >=? region_base (r_id r) + block_count r)
    then Ret None
    else rawGetBlock r id.
Proof.
  intros Hc. unfold region_GetBlock.
  rewrite getNextFreeBlockId_eq by assumption. run.
  rewrite NewBlockId_eq by lia. run.
  rewrite Z.mod_0_l by lia. rewrite Z.add_0_r. reflexivity.
Qed.

Lemma region_base_bound rid :
  - 2 ^ 63 <= region_base rid <= 2 ^ 63 - 65536.
Proof.
  unfold region_base.
  pose proof (wrap64_range (rid * 65536)) as Hr.
  pose proof (wrap64_mult_65536 rid) as Hm.
  pose proof (Z.div_mod (wrap64 (rid * 65536)) 65536 ltac:(lia)) as Hd.
  rewrite Hm in Hd. lia.
Qed.

Lemma wrap64_region_id rid k :
  0 <= k <= 65535 → wrap64 (region_base rid + k) = region_base rid + k.
Proof.
  intros Hk. pose proof (region_base_bound rid).
  apply wrap64_small. lia.
Qed.

(** ** One allocation in a fresh region *)

Lemma region_base_0 : region_base 0 = 0.
Proof. reflexivity. Qed.

Lemma slot_fresh rid S k : 40 <= S → slot (fresh_region rid S) k = S - 8 - 16 * (k + 1).
Proof.
  intros HS. unfold slot, blockListHeaderSize, blockListEntrySize.
  rewrite region_Size_fresh by lia. reflexivity.
Qed.

Section AllocFresh.
Variables (rid S size : Z).
Hypothesis HS : 40 <= S < 2 ^ 63.
Hypothesis Hsize : 0 <= size <= S - 40.

Local Abbreviation r0 := (fresh_region rid S).
Local Abbreviation r1 := (alloc_state (fresh_region rid S) size).

Lemma alloc_fresh_slot : slot r0 (block_count r0) = S - 24.
Proof.
  rewrite block_count_fresh, slot_fresh by lia. lia.
Qed.

Lemma region_Allocate_fresh :
  region_Allocate r0 size
  = Ret (if size =? 0 then None
         else Some (mkBlock rid (region_base rid) size 32),
         None, r1).
Proof.
  rewrite region_Allocate_success;
    rewrite ?region_Size_fresh, ?getFreePointer_fresh, ?block_count_fresh;
    try lia.
  rewrite Z.add_0_r. reflexivity.
Qed.

Lemma region_Size_alloc_fresh : region_Size r1 = S.
Proof.
  rewrite region_Size_alloc_state. apply region_Size_fresh. lia.
Qed.

Lemma getFreePointer_alloc_fresh : getFreePointer r1 = 32 + size.
Proof.
  pose proof alloc_fresh_slot as Hs.
  pose proof (block_count_fresh rid S ltac:(lia)) as Hc.
  rewrite getFreePointer_alloc_state by lia.
  rewrite getFreePointer_fresh by lia.
  apply wrap64_small. lia.
Qed.

Lemma block_count_alloc_fresh : block_count r1 = 1.
Proof.
  pose proof alloc_fresh_slot as Hs.
  pose proof (block_count_fresh rid S ltac:(lia)) as Hc.
  rewrite block_count_alloc_state by lia.
  rewrite Hc. reflexivity.
Qed.

Lemma slot_alloc_fresh k : slot r1 k = S - 8 - 16 * (k + 1).
Proof.
  rewrite slot_alloc_state. apply slot_fresh. lia.
Qed.

Lemma entry_alloc_fresh : entry r1 0 = (32, size).
Proof.
  pose proof alloc_fresh_slot as Hs. pose proof (block_count_fresh rid S) as Hc.
  specialize (Hc ltac:(lia)).
  pose proof (entry_alloc_state_same r0 size) as He.
  rewrite Hc in He, Hs.
  rewrite He by lia.
  rewrite getFreePointer_fresh by lia.
  rewrite wrap64_small by lia. reflexivity.
Qed.

Lemma well_formed_alloc_fresh : well_formed r1.
Proof.
  unfold well_formed, regionHeaderSize.
  rewrite region_Size_alloc_fresh, getFreePointer_alloc_fresh,
    block_count_alloc_fresh.
  lia.
Qed.

Lemma region_Available_alloc_fresh :
  region_Available r1 = Ret (S - 40 - size - 16).
Proof.
  rewrite region_Available_eq;
    rewrite ?region_Size_alloc_fresh, ?getFreePointer_alloc_fresh,
      ?block_count_alloc_fresh; try lia.
  f_equal. lia.
Qed.
End AllocFresh.

(** ** What a reader sees *)

Lemma slice_ok_same_size r s lo hi :
  region_Size s = region_Size r →
  slice_ok (r_d s) lo hi = slice_ok (r_d r) lo hi.
Proof.
  intros H. unfold slice_ok. fold (region_Size s) (region_Size r).
  rewrite H. reflexivity.
Qed.

Lemma slot_same_size r s k :
  region_Size s = region_Size r → slot s k = slot r k.
Proof. intros H. unfold slot. rewrite H. reflexivity. Qed.

Lemma rawGetBlock_ext r s id :
  r_id s = r_id r → region_Size s = region_Size r →
  entry s (BlockId_BlockId id) = entry r (BlockId_BlockId id) →
  rawGetBlock s id = rawGetBlock r id.
Proof.
  intros Hid Hsz He. unfold rawGetBlock, getBlockListEntryBytes.
  rewrite Hsz, (slice_ok_same_size r s _ _ Hsz).
  destruct (slice_ok (r_d r) _ _); [|reflexivity]. run.
  unfold entry in He. rewrite (slot_same_size r s _ Hsz) in He.
  unfold slot in He. injection He as He1 He2.
  unfold blockListHeaderSize, blockListEntrySize in *.
  replace (region_Size r - 8 - 16 * BlockId_BlockId id - 16)
    with (region_Size r - 8 - 16 * (BlockId_BlockId id + 1)) by lia.
  rewrite He1, He2, Hid, (slice_ok_same_size r s _ _ Hsz). reflexivity.
Qed.

Lemma getNextFreeBlockId_ext r s :
  r_id s = r_id r → region_Size s = region_Size r →
  block_count s = block_count r →
  getNextFreeBlockId s = getNextFreeBlockId r.
Proof.
  intros Hid Hsz Hc. unfold getNextFreeBlockId.
  fold (block_count s) (block_count r). rewrite Hid, Hc. reflexivity.
Qed.

Lemma region_GetBlock_ext r s :
  r_id s = r_id r → region_Size s = region_Size r →
  block_count s = block_count r → 0 <= block_count r <= 65535 →
  (∀ k, 0 <= k < block_count r → entry s k = entry r k) →
  ∀ id, region_GetBlock s id = region_GetBlock r id.
Proof.
  intros Hid Hsz Hc Hcr He id.
  rewrite !region_GetBlock_eq by (rewrite ?Hc; lia).
  rewrite Hid, Hc.
  destruct ((id <? region_base (r_id r))
            || (id >=? region_base (r_id r) + block_count r)) eqn:E;
    [reflexivity|].
  apply orb_false_elim in E as [E1 E2].
  apply rawGetBlock_ext; try assumption.
  replace id with (region_base (r_id r) + (id - region_base (r_id r))) by lia.
  rewrite BlockId_BlockId_small by lia.
  apply He. lia.
Qed.

Lemma mapM_outcome_ext {A B} (f g : A → outcome B) l :
  (∀ x, f x = g x) → mapM f l = mapM g l.
Proof.
  intros H. induction l as [|x l IH]; cbn [mapM]; [reflexivity|].
  rewrite H, IH. reflexivity.
Qed.

Lemma region_Blocks_ext r s :
  r_id s = r_id r → region_Size s = region_Size r →
  block_count s = block_count r → 0 <= block_count r <= 65535 →
  (∀ k, 0 <= k < block_count r → entry s k = entry r k) →
  region_Blocks s = region_Blocks r.
Proof.
  intros Hid Hsz Hc Hcr He. unfold region_Blocks.
  rewrite (getNextFreeBlockId_ext r s) by assumption.
  rewrite Hid.
  destruct (getNextFreeBlockId r) as [max|]; run; [|reflexivity].
  destruct (max <? 0); [reflexivity|].
  destruct (NewBlockId (r_id r) 0) as [lo|]; run; [|reflexivity].
  rewrite (mapM_outcome_ext (region_GetBlock s) (region_GetBlock r))
    by (apply region_GetBlock_ext; assumption).
  reflexivity.
Qed.

Lemma entry_poke_other r off v k :
  0 <= off → 0 <= k → 0 <= slot r k → off + 8 <= region_Size r →
  off + 8 <= slot r k ∨ slot r k + 16 <= off →
  entry (poke r off v) k = entry r k.
Proof.
  intros H0 Hk Hs Hlen Hd. pose proof (slot_bounds r k Hk).
  unfold entry. rewrite slot_poke.
  rewrite !peek_poke_ne by lia. reflexivity.
Qed.

(** ** The shape of the stores of [Allocate] and [Free] on any region *)

Lemma getNextFreeBlockId_gen r :
  block_count r <= 1048575 →
  getNextFreeBlockId r
  = Ret (region_base (r_id r) + block_count r mod 65536).
Proof.
  intros Hc. unfold getNextFreeBlockId. fold (block_count r).
  apply NewBlockId_eq. exact Hc.
Qed.

Lemma getBlockListEntryBytes_Ret r id j :
  getBlockListEntryBytes r id = Ret j →
  j = slot r (BlockId_BlockId id) ∧ 0 <= j.
Proof.
  unfold getBlockListEntryBytes.
  destruct (slice_ok _ _ _) eqn:E; [|discriminate].
  intros [= <-]. unfold slice_ok in E.
  apply andb_prop in E as [E _]. apply andb_prop in E as [E _].
  unfold slot, blockListHeaderSize, blockListEntrySize in *.
  split; lia.
Qed.

Lemma region_Allocate_shape r size b r' :
  region_Allocate r size = Ret (b, None, r') →
  ∃ id v w,
    getNextFreeBlockId r = Ret id
    ∧ 0 <= slot r (BlockId_BlockId id)
    ∧ 1 <= w <= 65536
    ∧ rawGetBlock (poke (poke r (slot r (BlockId_BlockId id))
                           (getFreePointer r))
                     (slot r (BlockId_BlockId id) + 8) size) id = Ret b
    ∧ r' = poke (poke (poke (poke r (slot r (BlockId_BlockId id))
                               (getFreePointer r))
                         (slot r (BlockId_BlockId id) + 8) size)
                   regionFreePointerOffset v)
             (region_Size r - 8) w.
Proof.
  unfold region_Allocate.
  destruct (region_Available r) as [a|]; run; [|discriminate].
  destruct (size >? a); [discriminate|].
  destruct (size >? region_Size r); [discriminate|].
  destruct (getNextFreeBlockId r) as [id|]; run; [|discriminate].
  unfold setBlockListEntry.
  destruct (getBlockListEntryBytes r id) as [j|] eqn:Ej; run; [|discriminate].
  destruct (getBlockListEntryBytes_Ret _ _ _ Ej) as [-> Hj].
  destruct (rawGetBlock _ id) as [b1|] eqn:Eraw; run; [|discriminate].
  unfold incrementFreeBlockId.
  destruct (getNextFreeBlockId _) as [id2|]; run; [|discriminate].
  intros [= <- <-].
  pose proof (BlockId_BlockId_range id2) as Hr.
  exists id, (wrap64 (getFreePointer r + size)),
    (wrap64 (BlockId_BlockId id2 + 1)).
  split; [reflexivity|]. split; [exact Hj|]. split.
  - rewrite wrap64_small by lia. lia.
  - split; [exact Eraw|]. unfold setFreePointer. mem. reflexivity.
Qed.

Lemma region_Free_shape r b ok r' :
  region_Free r b = Ret (ok, r') →
  let k := BlockId_BlockId (Id b) in
  0 <= slot r k
  ∧ ((ok = false ∧ r' = r)
     ∨ (ok = true ∧ entry r k ≠ (0, 0)
        ∧ (r' = zero_entry r k ∨ r' = wind_back r k (fst (entry r k))))).
Proof.
  intros H k. unfold region_Free in H.
  destruct (getBlockListEntryBytes r (Id b)) as [j|] eqn:Ej;
    cbn [mbind outcome_bind mret outcome_ret] in H; [|discriminate].
  destruct (getBlockListEntryBytes_Ret _ _ _ Ej) as [-> Hj]. fold k in H, Hj.
  split; [exact Hj|].
  destruct ((peek r (slot r k) =? 0) && (peek r (slot r k + 8) =? 0)) eqn:E.
  { injection H as <- <-. left. auto. }
  right.
  assert (Hne : entry r k ≠ (0, 0)).
  { unfold entry. intros [= H1 H2]. rewrite H1, H2 in E. discriminate. }
  unfold setBlockListEntry in H. rewrite Ej in H.
  cbn [mbind outcome_bind mret outcome_ret] in H.
  fold k in H. fold (zero_entry r k) in H.
  destruct (getNextFreeBlockId _) as [next|];
    cbn [mbind outcome_bind mret outcome_ret] in H; [|discriminate].
  destruct (Id b =? wrap64 (next - 1)).
  - injection H as <- <-. split; [reflexivity|]. split; [exact Hne|].
    right. unfold setNextFreeBlockId, setFreePointer, wind_back, entry, fst.
    unfold zero_entry. mem. fold k. reflexivity.
  - injection H as <- <-. auto.
Qed.


(** ** Byte stores of clients *)

Lemma read_int64_insert_ne d p v off :
  0 <= off → 0 <= p → p < off ∨ off + 8 <= p →
  read_int64 (<[Z.to_nat p := v]> d) off = read_int64 d off.
Proof.
  intros H0 Hp Hd. unfold read_int64. f_equal.
  apply le_read_ext. intros k Hk.
  apply list_lookup_total_insert_ne. lia.
Qed.

Lemma Block_store_shape r b i v r' :
  Block_store r b i v = Ret r' →
  0 <= i < Size b
  ∧ r' = mkRegion (r_id r) (<[Z.to_nat (Offset b + i) := v mod 256]> (r_d r)).
Proof.
  unfold Block_store.
  destruct ((0 <=? i) && (i <? Size b)) eqn:E; [|discriminate].
  apply andb_prop in E as [E1 E2]. intros [= <-]. split; [lia|reflexivity].
Qed.

Lemma region_Size_store_byte r p v :
  region_Size (mkRegion (r_id r) (<[p := v]> (r_d r))) = region_Size r.
Proof. unfold region_Size. cbn [r_d]. rewrite length_insert. reflexivity. Qed.

Lemma peek_store_byte r p v off :
  0 <= off → 0 <= p → p < off ∨ off + 8 <= p →
  peek (mkRegion (r_id r) (<[Z.to_nat p := v]> (r_d r))) off = peek r off.
Proof. intros. unfold peek. cbn [r_d]. apply read_int64_insert_ne; assumption. Qed.

(** * The properties of the specification *)

Lemma OpenForUpdate_1 : OpenForUpdate 1 = Ret (inl (new_heap MiB)).
Proof.
  unfold OpenForUpdate.
  change (wrap64 (wrap64 (1 * 1024) * 1024)) with MiB.
  rewrite appendRegion_fresh by (unfold MiB; lia). reflexivity.
Qed.

(** ** BlockId codec *)

Lemma NewBlockId_roundtrip rid bid :
  - 2 ^ 47 <= rid < 2 ^ 47 → 0 <= bid <= 65535 →
  ∃ id, NewBlockId rid bid = Ret id
        ∧ BlockId_RegionId id = rid ∧ BlockId_BlockId id = bid.
Proof.
  intros Hr Hb. exists (region_base rid + bid).
  rewrite NewBlockId_eq by lia.
  rewrite Z.mod_small by lia.
  rewrite BlockId_RegionId_base by lia.
  rewrite BlockId_BlockId_small by lia.
  auto.
Qed.

Lemma NewBlockId_20_bits rid bid :
  65535 < bid <= 1048575 →
  NewBlockId rid bid = NewBlockId rid (bid mod 65536).
Proof.
  intros Hb. pose proof (Z.mod_pos_bound bid 65536 ltac:(lia)).
  rewrite !NewBlockId_eq by lia.
  rewrite Z.mod_mod by lia. reflexivity.
Qed.

(** C6 (defect of the code).  The specification wants every block
    index above 65535 refused.  The guard of [NewBlockId] compares with 0xfffff
    (1048575), so block index 65536 is accepted and, after the 16-bit
    mask, yields the identifier of block 0 of the same region, which
    decodes to the pair (0, 0) and not to (0, 65536). *)
Theorem C6_NewBlockId_accepts_65536 :
  NewBlockId 0 65536 = Ret 0
  ∧ NewBlockId 0 65536 = NewBlockId 0 0
  ∧ (BlockId_RegionId 0, BlockId_BlockId 0) = (0, 0).
Proof. repeat split. Qed.

(** ** Heap.GetBlock *)

Lemma region_at_out_of_range h i :
  i < 0 ∨ Z.of_nat (length (regions h)) <= i → region_at h i = Panic.
Proof.
  intros H. unfold region_at.
  destruct ((i <? 0) || (Z.of_nat (length (regions h)) <=? i)) eqn:E;
    [reflexivity|].
  apply orb_false_elim in E as [E1 E2]. lia.
Qed.

Lemma region_at_in_range h i r :
  0 <= i → regions h !! Z.to_nat i = Some r → region_at h i = Ret r.
Proof.
  intros Hi Hr. unfold region_at.
  pose proof (lookup_lt_Some _ _ _ Hr) as Hlt.
  destruct ((i <? 0) || (Z.of_nat (length (regions h)) <=? i)) eqn:E.
  - apply orb_prop in E as [E|E]; lia.
  - rewrite Hr. reflexivity.
Qed.

Lemma Heap_GetBlock_out_of_range h id :
  BlockId_RegionId id < 0
  ∨ Z.of_nat (length (regions h)) <= BlockId_RegionId id →
  Heap_GetBlock h id = Panic.
Proof.
  intros H. unfold Heap_GetBlock.
  rewrite region_at_out_of_range by assumption. reflexivity.
Qed.

Lemma Heap_GetBlock_in_range h id r :
  0 <= BlockId_RegionId id →
  regions h !! Z.to_nat (BlockId_RegionId id) = Some r →
  Heap_GetBlock h id = region_GetBlock r id.
Proof.
  intros Hi Hr. unfold Heap_GetBlock.
  rewrite (region_at_in_range h _ r) by assumption. reflexivity.
Qed.

(** C7 (as amended).  For a BlockId whose region index is inside the
    heap's region sequence, [Heap.GetBlock] returns exactly what that
    region's [GetBlock] returns; for a region index outside the sequence
    (negative, or not below the number of regions) the slice index
    [h.regions[id.RegionId()]] panics. *)
Theorem C7_Heap_GetBlock_routes h id :
  (BlockId_RegionId id < 0
   ∨ Z.of_nat (length (regions h)) <= BlockId_RegionId id →
   Heap_GetBlock h id = Panic)
  ∧ (∀ r, 0 <= BlockId_RegionId id →
          regions h !! Z.to_nat (BlockId_RegionId id) = Some r →
          Heap_GetBlock h id = region_GetBlock r id).
Proof.
  split.
  - apply Heap_GetBlock_out_of_range.
  - intros r. apply Heap_GetBlock_in_range.
Qed.

Lemma C7_Heap_GetBlock_routes_witness :
  Heap_GetBlock (new_heap MiB) 65536 = Panic
  ∧ Heap_GetBlock (new_heap MiB) 0
    = region_GetBlock (fresh_region 0 MiB) 0.
Proof.
  split.
  - apply (proj1 (C7_Heap_GetBlock_routes (new_heap MiB) 65536)).
    right. change (BlockId_RegionId 65536) with 1.
    change (Z.of_nat (length (regions (new_heap MiB)))) with 1. lia.
  - apply (proj2 (C7_Heap_GetBlock_routes (new_heap MiB) 0)).
    + change (BlockId_RegionId 0) with 0. lia.
    + reflexivity.
Defined.

(** C7 (counterexample to the stated property): on the heap of a new
    one-region file, the identifier 65536 (region 1, block 0) makes
    [Heap.GetBlock] panic, while the same heap answers an unknown block
    index of region 0 with an absent block. *)
Lemma C7_out_of_range_region_panics :
  BlockId_RegionId 65536 = 1
  ∧ length (regions (new_heap MiB)) = 1%nat
  ∧ Heap_GetBlock (new_heap MiB) 65536 = Panic
  ∧ Heap_GetBlock (new_heap MiB) 7 = Ret None.
Proof.
  split; [reflexivity|]. split; [reflexivity|]. split.
  - apply Heap_GetBlock_out_of_range.
    right. change (BlockId_RegionId 65536) with 1.
    change (Z.of_nat (length (regions (new_heap MiB)))) with 1. lia.
  - rewrite (Heap_GetBlock_in_range _ _ (fresh_region 0 MiB));
      [|change (BlockId_RegionId 7) with 0; lia|reflexivity].
    rewrite region_GetBlock_eq
      by (rewrite block_count_fresh by (unfold MiB; lia); lia).
    rewrite block_count_fresh by (unfold MiB; lia).
    reflexivity.
Qed.

(** ** Region.Allocate: the two failure conditions *)

Lemma well_formed_Available r :
  well_formed r →
  region_Available r
  = Ret (region_Size r - getFreePointer r - 8 - 16 * block_count r).
Proof.
  intros (HS & Hf & Hc). unfold regionHeaderSize in Hf.
  apply region_Available_eq; lia.
Qed.

Lemma region_Available_fresh rid S :
  40 <= S < 2 ^ 63 → region_Available (fresh_region rid S) = Ret (S - 40).
Proof.
  intros HS. rewrite region_Available_eq.
  - rewrite region_Size_fresh, getFreePointer_fresh, block_count_fresh by lia.
    f_equal. lia.
  - rewrite region_Size_fresh by lia. lia.
  - rewrite block_count_fresh by lia. lia.
  - rewrite region_Size_fresh, getFreePointer_fresh by lia. lia.
Qed.

Lemma well_formed_fresh rid S : 40 <= S < 2 ^ 63 → well_formed (fresh_region rid S).
Proof.
  intros HS. unfold well_formed, regionHeaderSize.
  rewrite region_Size_fresh, getFreePointer_fresh, block_count_fresh by lia.
  lia.
Qed.

Lemma region_Allocate_error_cases r size a b e r' :
  region_Available r = Ret a →
  region_Allocate r size = Ret (b, e, r') →
  (a < size ∧ e = Some OutOfMemory)
  ∨ (size <= a ∧ region_Size r < size ∧ e = Some BlockTooLarge)
  ∨ (size <= a ∧ size <= region_Size r ∧ e = None).
Proof.
  intros Ha. unfold region_Allocate. rewrite Ha. run.
  destruct (size >? a) eqn:E1.
  { intros [= <- <- <-]. left. split; [lia|reflexivity]. }
  destruct (size >? region_Size r) eqn:E2.
  { intros [= <- <- <-]. right. left. repeat split; lia. }
  destruct (getNextFreeBlockId r) as [id|]; run; [|discriminate].
  destruct (setBlockListEntry r id _ size) as [r1|]; run; [|discriminate].
  destruct (rawGetBlock r1 id) as [b1|]; run; [|discriminate].
  destruct (incrementFreeBlockId _) as [[id' r3]|]; run; [|discriminate].
  intros [= <- <- <-]. right. right. repeat split; lia.
Qed.

(** C2 (as amended).  On a well-formed region, [Allocate(size)] fails
    with [OutOfMemory] exactly when [size > Available()], whatever the
    relation of [size] to the region's capacity; since [Available()] is
    smaller than the region size, the later test [size > Size()] can no
    longer hold and [BlockTooLarge] is never returned. *)
Theorem C2_Allocate_failure_is_OutOfMemory r size :
  well_formed r →
  ∃ a, region_Available r = Ret a
       ∧ a < region_Size r
       ∧ (a < size →
          region_Allocate r size = Ret (None, Some OutOfMemory, r))
       ∧ (∀ b e r', region_Allocate r size = Ret (b, e, r') →
                    (e = Some OutOfMemory ↔ a < size)
                    ∧ e ≠ Some BlockTooLarge).
Proof.
  intros Hwf. pose proof (well_formed_Available r Hwf) as Ha.
  destruct Hwf as (HS & Hf & Hc). unfold regionHeaderSize in Hf.
  eexists. split; [exact Ha|]. split; [lia|]. split.
  - intros Hlt. eapply region_Allocate_OutOfMemory; eassumption.
  - intros b e r' Hr.
    destruct (region_Allocate_error_cases _ _ _ _ _ _ Ha Hr)
      as [(H1 & ->)|[(H1 & H2 & ->)|(H1 & H2 & ->)]].
    + split; [tauto|discriminate].
    + lia.
    + split; [|discriminate]. split; [discriminate|lia].
Qed.

Lemma C2_Allocate_failure_is_OutOfMemory_witness :
  ∃ a, region_Available (fresh_region 0 MiB) = Ret a
       ∧ a < region_Size (fresh_region 0 MiB)
       ∧ (a < 2 * MiB →
          region_Allocate (fresh_region 0 MiB) (2 * MiB)
          = Ret (None, Some OutOfMemory, fresh_region 0 MiB))
       ∧ (∀ b e r',
            region_Allocate (fresh_region 0 MiB) (2 * MiB) = Ret (b, e, r') →
            (e = Some OutOfMemory ↔ a < 2 * MiB)
            ∧ e ≠ Some BlockTooLarge).
Proof.
  apply (C2_Allocate_failure_is_OutOfMemory (fresh_region 0 MiB) (2 * MiB)).
  apply well_formed_fresh. unfold MiB. lia.
Defined.

(** C2 (counterexample to the stated property): a request of 2 MiB can
    never fit a 1 MiB region, yet the empty region answers
    [OutOfMemory], not [BlockTooLarge]. *)
Lemma C2_too_large_reports_OutOfMemory :
  region_Size (fresh_region 0 MiB) < 2 * MiB
  ∧ region_Allocate (fresh_region 0 MiB) (2 * MiB)
    = Ret (None, Some OutOfMemory, fresh_region 0 MiB).
Proof.
  split.
  - rewrite region_Size_fresh by (unfold MiB; lia). unfold MiB. lia.
  - eapply region_Allocate_OutOfMemory.
    + apply region_Available_fresh. unfold MiB. lia.
    + unfold MiB. lia.
Qed.

(** ** Entries that the readers do not show *)

Lemma mapM_outcome_elem {A B} (f : A → outcome B) (l : list A) ys y :
  mapM f l = Ret ys → y ∈ ys → ∃ x, x ∈ l ∧ f x = Ret y.
Proof.
  revert ys. induction l as [|x l IH]; intros ys; cbn [mapM]; run.
  - intros [= <-] Hy. inversion Hy.
  - destruct (f x) as [y0|] eqn:Ef; run; [|discriminate].
    destruct (mapM f l) as [ys0|]; run; [|discriminate].
    intros [= <-] Hy. apply elem_of_cons in Hy as [->|Hy].
    + exists x. split; [left|exact Ef].
    + destruct (IH ys0 eq_refl Hy) as (x' & Hx' & Hf).
      exists x'. split; [right; exact Hx'|exact Hf].
Qed.

Lemma rawGetBlock_Id r i b : rawGetBlock r i = Ret (Some b) → Id b = i.
Proof.
  unfold rawGetBlock.
  destruct (getBlockListEntryBytes r i) as [j|]; run; [|discriminate].
  destruct ((peek r j =? 0) || (peek r (j + 8) =? 0)); [discriminate|].
  destruct (slice_ok _ _ _); [|discriminate].
  intros [= <-]. reflexivity.
Qed.

Lemma region_GetBlock_Id r i b : region_GetBlock r i = Ret (Some b) → Id b = i.
Proof.
  unfold region_GetBlock.
  destruct (getNextFreeBlockId r) as [max|]; run; [|discriminate].
  destruct (NewBlockId (r_id r) 0) as [lo|]; run; [|discriminate].
  destruct ((i <? lo) || (i >=? max)); [discriminate|].
  apply rawGetBlock_Id.
Qed.

Lemma region_Blocks_elem r bs b :
  region_Blocks r = Ret bs → b ∈ bs →
  region_GetBlock r (Id b) = Ret (Some b).
Proof.
  unfold region_Blocks.
  destruct (getNextFreeBlockId r) as [max|]; run; [|discriminate].
  destruct (max <? 0); [discriminate|].
  destruct (NewBlockId (r_id r) 0) as [lo|]; run; [|discriminate].
  destruct (mapM _ _) as [obs|] eqn:Em; run; [|discriminate].
  intros [= <-] Hb.
  apply list_elem_of_omap in Hb as (ob & Hob & ->).
  destruct (mapM_outcome_elem _ _ _ _ Em Hob) as (i & _ & Hi).
  rewrite (region_GetBlock_Id _ _ _ Hi). exact Hi.
Qed.

(** A slot whose stored size is zero is invisible to [GetBlock], in
    whatever state the rest of the region is. *)
Lemma zero_size_entry_is_absent r id :
  block_count r <= 1048575 → 0 <= slot r (BlockId_BlockId id) →
  snd (entry r (BlockId_BlockId id)) = 0 →
  region_GetBlock r id = Ret None.
Proof.
  intros Hc Hs Hz. unfold region_GetBlock.
  rewrite getNextFreeBlockId_gen by exact Hc. run.
  rewrite NewBlockId_eq by lia. run.
  destruct (_ || _); [reflexivity|].
  rewrite rawGetBlock_eq by exact Hs.
  destruct (entry r (BlockId_BlockId id)) as [offset size].
  cbn [snd] in Hz. subst size. rewrite orb_true_r. reflexivity.
Qed.

(** A successful [Allocate] leaves the entries of all other slots above
    the free-pointer field as they were, and leaves a counter between 1
    and 65536. *)
Lemma region_Allocate_frame r size id b r' k :
  region_Allocate r size = Ret (b, None, r') →
  getNextFreeBlockId r = Ret id →
  0 <= k → k ≠ BlockId_BlockId id → 16 <= slot r k →
  region_Size r' = region_Size r
  ∧ r_id r' = r_id r
  ∧ 1 <= block_count r' <= 65536
  ∧ entry r' k = entry r k.
Proof.
  intros Halloc Hid Hk Hne Hs.
  destruct (region_Allocate_shape _ _ _ _ Halloc)
    as (id' & v & w & Hid' & Hj & Hw & _ & ->).
  rewrite Hid in Hid'. injection Hid' as <-.
  pose proof (BlockId_BlockId_range id) as Hkb.
  pose proof (slot_bounds r _ (proj1 Hkb)) as Hjb.
  pose proof (slot_bounds r k Hk) as Hkb'.
  assert (slot r k + 16 <= slot r (BlockId_BlockId id)
          ∨ slot r (BlockId_BlockId id) + 16 <= slot r k)
    by (unfold slot, blockListHeaderSize, blockListEntrySize in *; lia).
  split; [mem; reflexivity|]. split; [reflexivity|]. split.
  - unfold block_count, regionFreePointerOffset. mem.
    rewrite wrap64_small; lia.
  - unfold regionFreePointerOffset.
    rewrite !entry_poke_other;
      rewrite ?slot_poke, ?region_Size_poke; try lia.
    reflexivity.
Qed.

(** What [keeps c r0] preserves: the size of the region, a counter of
    at most 65536 and the entry of index [c]. *)
Lemma keeps_invariant c r0 r :
  keeps c r0 r →
  0 <= c → 16 <= slot r0 c → block_count r0 <= 65536 →
  region_Size r = region_Size r0
  ∧ block_count r <= 65536
  ∧ entry r c = entry r0 c.
Proof.
  intros Hk Hc Hs0 Hc0.
  induction Hk as [|r size id b r' Hk IH Hid Hne Halloc
                   |r b ok r' Hk IH Hne Hfree
                   |r b i v r' Hk IH Hlo Hhi Hstore].
  - split; [reflexivity|]. split; [exact Hc0|reflexivity].
  - destruct IH as (HS & Hcnt & Hent).
    assert (Hsk : slot r c = slot r0 c) by (apply slot_same_size; exact HS).
    destruct (region_Allocate_frame r size id b r' c Halloc Hid Hc
                ltac:(congruence) ltac:(lia)) as (HS' & _ & Hc' & He').
    split; [congruence|]. split; [lia|congruence].
  - destruct IH as (HS & Hcnt & Hent).
    assert (Hsk : slot r c = slot r0 c) by (apply slot_same_size; exact HS).
    destruct (region_Free_shape _ _ _ _ Hfree) as (Hj & Hcases).
    pose proof (BlockId_BlockId_range (Id b)) as Hkb.
    pose proof (slot_bounds r _ (proj1 Hkb)) as Hjb.
    pose proof (slot_bounds r c Hc) as Hcb.
    set (kb := BlockId_BlockId (Id b)) in *.
    destruct Hcases as [(_ & ->) | (_ & Hlive & Hr')]; [auto|].
    assert (Hd : slot r c + 16 <= slot r kb ∨ slot r kb + 16 <= slot r c)
      by (unfold slot, blockListHeaderSize, blockListEntrySize in *; lia).
    assert (Hze : entry (zero_entry r kb) c = entry r c).
    { unfold zero_entry.
      rewrite !entry_poke_other;
        rewrite ?slot_poke, ?region_Size_poke; try lia.
      reflexivity. }
    assert (Hzc : block_count (zero_entry r kb) = block_count r).
    { unfold zero_entry. rewrite !block_count_poke by (mem; lia).
      reflexivity. }
    assert (Hzs : region_Size (zero_entry r kb) = region_Size r)
      by (unfold zero_entry; mem; reflexivity).
    destruct Hr' as [-> | ->].
    + split; [congruence|]. split; [lia|congruence].
    + split; [unfold wind_back; mem; congruence|]. split.
      * unfold wind_back, block_count, regionFreePointerOffset. mem.
        rewrite Hzs. rewrite peek_poke_same by (mem; lia).
        rewrite wrap64_small; lia.
      * rewrite <- Hent, <- Hze.
        unfold wind_back, regionFreePointerOffset.
        rewrite !entry_poke_other;
          rewrite ?slot_poke, ?region_Size_poke,
            ?(slot_same_size r (zero_entry r kb) _ Hzs), ?Hzs; try lia.
        reflexivity.
  - destruct IH as (HS & Hcnt & Hent).
    assert (Hsk : slot r c = slot r0 c) by (apply slot_same_size; exact HS).
    pose proof (slot_bounds r c Hc) as Hcb.
    destruct (Block_store_shape _ _ _ _ _ Hstore) as (Hi & ->).
    split; [rewrite region_Size_store_byte; exact HS|]. split.
    + unfold block_count. rewrite region_Size_store_byte.
      rewrite peek_store_byte by lia. exact Hcnt.
    + rewrite <- Hent.
      unfold entry, slot. rewrite region_Size_store_byte.
      fold (slot r c).
      rewrite !peek_store_byte by lia. reflexivity.
Qed.

(** ** Region.Free: what is reclaimed *)

(** C5 (as amended).  Let block B occupy slot [k] below the counter of a
    well-formed region, its entry lying above the header and naming a
    range between the header and the free pointer.  [Free(B)] returns
    true.  When [k] is the last slot (counter - 1), the free pointer is
    rolled back to B's offset, the counter is decremented by one, and
    [Available()] grows by the bytes between B's offset and the old free
    pointer plus the 16 bytes of the reclaimed block-list entry: by
    [size + 16] when B ends at the free pointer.  When [k] is any other
    slot, free pointer, counter and [Available()] are unchanged. *)
Theorem C5_Free_reclaims r b k off sz a :
  well_formed r →
  0 <= k < block_count r →
  Id b = region_base (r_id r) + k →
  regionHeaderSize <= slot r k →
  entry r k = (off, sz) →
  regionHeaderSize <= off → 0 <= sz → off + sz <= getFreePointer r →
  region_Available r = Ret a →
  ∃ r', region_Free r b = Ret (true, r')
        ∧ if k =? block_count r - 1
          then getFreePointer r' = off
               ∧ block_count r' = block_count r - 1
               ∧ region_Available r'
                 = Ret (a + (getFreePointer r - off) + blockListEntrySize)
               ∧ (off + sz = getFreePointer r →
                  region_Available r' = Ret (a + sz + blockListEntrySize))
          else getFreePointer r' = getFreePointer r
               ∧ block_count r' = block_count r
               ∧ region_Available r' = Ret a.
Proof.
  intros Hwf Hk Hid Hslot Hent Hoff Hsz Htop Ha.
  rewrite (well_formed_Available r Hwf) in Ha. injection Ha as Ha.
  destruct Hwf as (HS & Hf & Hc).
  unfold regionHeaderSize, blockListEntrySize in *.
  assert (Hbk : BlockId_BlockId (Id b) = k)
    by (rewrite Hid; apply BlockId_BlockId_small; lia).
  pose proof (region_Free_live r b) as Hfree. cbv zeta in Hfree.
  rewrite Hbk, Hent in Hfree.
  specialize (Hfree ltac:(lia) ltac:(intros [= -> ->]; lia) ltac:(lia)).
  rewrite Hfree, Hid. cbn [fst].
  replace (region_base (r_id r) + block_count r - 1)
    with (region_base (r_id r) + (block_count r - 1)) by lia.
  rewrite wrap64_region_id by lia.
  destruct (k =? block_count r - 1) eqn:Ek.
  - apply Z.eqb_eq in Ek.
    replace (region_base (r_id r) + k =? _) with true by lia.
    eexists. split; [reflexivity|].
    assert (Hfp : getFreePointer (wind_back r k off) = off)
      by (rewrite getFreePointer_wind_back by lia; apply wrap64_small; lia).
    assert (Hbc : block_count (wind_back r k off) = block_count r - 1)
      by (rewrite block_count_wind_back by lia; rewrite wrap64_small; lia).
    assert (Hav : region_Available (wind_back r k off)
                  = Ret (a + (getFreePointer r - off) + 16)).
    { rewrite region_Available_eq;
        rewrite ?region_Size_wind_back, ?Hfp, ?Hbc; try lia.
      f_equal. lia. }
    repeat split; try assumption.
    intros Heq. rewrite Hav. f_equal. lia.
  - apply Z.eqb_neq in Ek.
    replace (region_base (r_id r) + k =? _) with false by lia.
    eexists. split; [reflexivity|].
    assert (Hfp : getFreePointer (zero_entry r k) = getFreePointer r)
      by (apply getFreePointer_zero_entry; lia).
    assert (Hbc : block_count (zero_entry r k) = block_count r)
      by (apply block_count_zero_entry; lia).
    repeat split; try assumption.
    rewrite region_Available_eq;
      rewrite ?region_Size_zero_entry, ?Hfp, ?Hbc; try lia.
    f_equal. lia.
Qed.

Lemma C5_Free_reclaims_witness :
  ∃ r', region_Free (alloc_state (fresh_region 0 MiB) 1000)
          (mkBlock 0 0 1000 32) = Ret (true, r')
        ∧ getFreePointer r' = 32
        ∧ block_count r' = 0
        ∧ region_Available r' = Ret (MiB - 40).
Proof.
  assert (HS : 40 <= MiB < 2 ^ 63) by (unfold MiB; lia).
  assert (Hsz : 0 <= 1000 <= MiB - 40) by (unfold MiB; lia).
  set (r1 := alloc_state (fresh_region 0 MiB) 1000).
  pose proof (block_count_alloc_fresh 0 MiB 1000 HS Hsz) as Hc.
  pose proof (getFreePointer_alloc_fresh 0 MiB 1000 HS Hsz) as Hf.
  pose proof (slot_alloc_fresh 0 MiB 1000 HS 0) as Hs.
  fold r1 in Hc, Hf, Hs.
  assert (H1 : 0 <= 0 < block_count r1) by (rewrite Hc; lia).
  assert (H2 : Id (mkBlock 0 0 1000 32) = region_base (r_id r1) + 0)
    by (rewrite Z.add_0_r; exact (eq_sym region_base_0)).
  assert (H3 : regionHeaderSize <= slot r1 0)
    by (rewrite Hs; unfold regionHeaderSize, MiB; lia).
  assert (H4 : regionHeaderSize <= 32) by (unfold regionHeaderSize; lia).
  assert (H5 : (0 <= 1000)%Z) by lia.
  assert (H6 : 32 + 1000 <= getFreePointer r1) by (rewrite Hf; lia).
  destruct (C5_Free_reclaims r1 (mkBlock 0 0 1000 32) 0 32 1000
              (MiB - 40 - 1000 - 16)
              (well_formed_alloc_fresh 0 MiB 1000 HS Hsz)
              H1 H2 H3 (entry_alloc_fresh 0 MiB 1000 HS Hsz) H4 H5 H6
              (region_Available_alloc_fresh 0 MiB 1000 HS Hsz))
    as (r' & Hfree & Hrest).
  rewrite Hc in Hrest. change (0 =? 1 - 1) with true in Hrest.
  destruct Hrest as (Hfp & Hbc & _ & Hav).
  exists r'. split; [exact Hfree|]. split; [exact Hfp|]. split; [exact Hbc|].
  rewrite Hav by (rewrite Hf; reflexivity).
  reflexivity.
Defined.

(** C5 (counterexample to the stated property): in a new 1 MiB region,
    allocating 1000 bytes and freeing that block again raises
    [Available()] from 1047520 to 1048536, that is by 1016 bytes, not by
    the block's size. *)
Lemma C5_available_grows_by_size_plus_entry :
  region_Allocate (fresh_region 0 MiB) 1000
  = Ret (Some (mkBlock 0 0 1000 32), None,
         alloc_state (fresh_region 0 MiB) 1000)
  ∧ region_Available (alloc_state (fresh_region 0 MiB) 1000) = Ret 1047520
  ∧ region_Free (alloc_state (fresh_region 0 MiB) 1000) (mkBlock 0 0 1000 32)
    = Ret (true, wind_back (alloc_state (fresh_region 0 MiB) 1000) 0 32)
  ∧ region_Available (wind_back (alloc_state (fresh_region 0 MiB) 1000) 0 32)
    = Ret 1048536
  ∧ 1048536 - 1047520 ≠ Size (mkBlock 0 0 1000 32).
Proof.
  assert (HS : 40 <= MiB < 2 ^ 63) by (unfold MiB; lia).
  assert (Hsz : 0 <= 1000 <= MiB - 40) by (unfold MiB; lia).
  set (r1 := alloc_state (fresh_region 0 MiB) 1000).
  pose proof (block_count_alloc_fresh 0 MiB 1000 HS Hsz) as Hc.
  pose proof (getFreePointer_alloc_fresh 0 MiB 1000 HS Hsz) as Hf.
  pose proof (slot_alloc_fresh 0 MiB 1000 HS 0) as Hs.
  pose proof (entry_alloc_fresh 0 MiB 1000 HS Hsz) as He.
  pose proof (region_Size_alloc_fresh 0 MiB 1000 HS) as HSz.
  fold r1 in Hc, Hf, Hs, He, HSz.
  split; [apply (region_Allocate_fresh 0 MiB 1000 HS Hsz)|].
  split; [apply (region_Available_alloc_fresh 0 MiB 1000 HS Hsz)|].
  split; [|split].
  - pose proof (region_Free_live r1 (mkBlock 0 0 1000 32)) as H.
    cbv zeta in H. cbn [Id] in H.
    change (BlockId_BlockId 0) with 0 in H.
    rewrite He, Hc, Hs in H. rewrite H; [reflexivity| |discriminate|lia].
    unfold MiB. lia.
  - rewrite region_Available_eq;
      rewrite ?region_Size_wind_back, ?getFreePointer_wind_back,
        ?block_count_wind_back, ?Hs, ?HSz;
      unfold MiB; try lia.
    + reflexivity.
    + rewrite wrap64_small; lia.
    + rewrite wrap64_small; lia.
  - cbn [Size]. lia.
Qed.

(** ** Heap.Allocate: growth *)

Lemma allocate_first_all_OutOfMemory rs size :
  Forall (λ r, region_Allocate r size = Ret (None, Some OutOfMemory, r)) rs →
  allocate_first rs size = Ret (None, rs).
Proof.
  induction 1 as [|r rs Hr _ IH]; cbn [allocate_first]; [reflexivity|].
  rewrite Hr. run. rewrite IH. reflexivity.
Qed.

Lemma grow_region_size_enough fuel regionSize size :
  size <= regionSize → grow_region_size fuel regionSize size = Some regionSize.
Proof.
  intros H. destruct fuel; cbn [grow_region_size];
    destruct (regionSize <? size) eqn:E; (reflexivity || lia).
Qed.

Lemma region_Allocate_fresh_OutOfMemory rid S size :
  40 <= S < 2 ^ 63 → S - 40 < size →
  region_Allocate (fresh_region rid S) size
  = Ret (None, Some OutOfMemory, fresh_region rid S).
Proof.
  intros HS Hsz. eapply region_Allocate_OutOfMemory.
  - apply region_Available_fresh. exact HS.
  - exact Hsz.
Qed.

(** When a request is larger than the room of an empty region of the size
    the growth loop settles on, every retry appends one more region that
    is again too small: the call never returns. *)
Lemma Heap_Allocate_never_returns S size :
  40 <= S < 2 ^ 63 → S - 40 < size <= S →
  ∀ fuel rs r,
    Forall (λ r, region_Allocate r size = Ret (None, Some OutOfMemory, r)) rs →
    last rs = Some r → region_Size r = S →
    Heap_Allocate fuel (mkHeap rs) size = None.
Proof.
  intros HS Hsz. induction fuel as [|fuel IH]; intros rs r Hall Hlast Hsize.
  - reflexivity.
  - cbn [Heap_Allocate regions].
    rewrite allocate_first_all_OutOfMemory by exact Hall.
    rewrite Hlast, Hsize.
    rewrite grow_region_size_enough by lia.
    rewrite appendRegion_fresh by lia.
    apply (IH _ (fresh_region (wrap64 (r_id r + 1)) S)).
    + apply Forall_app. split; [exact Hall|].
      constructor; [|constructor].
      apply region_Allocate_fresh_OutOfMemory; lia.
    + apply last_snoc.
    + apply region_Size_fresh. lia.
Qed.

Lemma grow_region_size_spec fuel :
  ∀ L R, 0 < L → R <= 2 ^ 62 → R <= L * 2 ^ Z.of_nat fuel →
  ∃ k, 0 <= k
       ∧ grow_region_size fuel L R = Some (L * 2 ^ k)
       ∧ R <= L * 2 ^ k
       ∧ (0 < k → L * 2 ^ (k - 1) < R).
Proof.
  induction fuel as [|fuel IH]; intros L R HL HR Hfuel.
  - exists 0. cbn [grow_region_size].
    change (Z.of_nat 0) with 0 in Hfuel. rewrite Z.pow_0_r, Z.mul_1_r in *.
    destruct (L <? R) eqn:E; [lia|]. repeat split; (reflexivity || lia).
  - cbn [grow_region_size]. destruct (L <? R) eqn:E.
    + rewrite (wrap64_small (L * 2)) by lia.
      destruct (IH (L * 2) R) as (k & Hk & Hg & Hle & Hmin); try lia.
      { rewrite Nat2Z.inj_succ, Z.pow_succ_r in Hfuel by lia. lia. }
      exists (k + 1).
      replace (L * 2 ^ (k + 1)) with (L * 2 * 2 ^ k)
        by (rewrite Z.pow_add_r by lia; lia).
      replace (k + 1 - 1) with k by lia.
      split; [lia|]. split; [exact Hg|]. split; [exact Hle|].
      intros _. destruct (Z.eq_dec k 0) as [->|Hne].
      * rewrite Z.pow_0_r. lia.
      * specialize (Hmin ltac:(lia)).
        replace (2 ^ k) with (2 * 2 ^ (k - 1))
          by (rewrite <- Z.pow_succ_r by lia; f_equal; lia).
        lia.
    + exists 0. rewrite Z.pow_0_r, Z.mul_1_r.
      repeat split; (reflexivity || lia).
Qed.

Lemma allocate_first_app_OutOfMemory rs rs' size :
  Forall (λ r, region_Allocate r size = Ret (None, Some OutOfMemory, r)) rs →
  allocate_first (rs ++ rs') size
  = '(res, rs'') ← allocate_first rs' size; Ret (res, rs ++ rs'').
Proof.
  induction 1 as [|r rs Hr _ IH]; cbn [allocate_first app].
  - destruct (allocate_first rs' size) as [[res rs'']|]; reflexivity.
  - rewrite Hr. run. rewrite IH.
    destruct (allocate_first rs' size) as [[res rs'']|]; reflexivity.
Qed.

(** The growth policy where it works.  When every region is out of
    memory for a request of [R] bytes and the last region has [L] bytes,
    the region appended has [L * 2^k] bytes for the smallest [k] with
    [L * 2^k >= R] and the next region index; the retried allocation
    succeeds in it provided the request also leaves room for the 32-byte
    header and the 8-byte counter. *)
Lemma Heap_Allocate_grows fuel rs r R :
  Forall (λ r, region_Allocate r R = Ret (None, Some OutOfMemory, r)) rs →
  last rs = Some r →
  0 < region_Size r < 2 ^ 63 → 0 < R <= 2 ^ 62 → (62 ≤ fuel)%nat →
  ∃ k, 0 <= k
       ∧ R <= region_Size r * 2 ^ k
       ∧ (0 < k → region_Size r * 2 ^ (k - 1) < R)
       ∧ (R <= region_Size r * 2 ^ k - 40 →
          Heap_Allocate (S (S fuel)) (mkHeap rs) R
          = Some (Ret (Some (mkBlock (wrap64 (r_id r + 1))
                               (region_base (wrap64 (r_id r + 1))) R 32),
                       None,
                       mkHeap (rs ++ [alloc_state
                                        (fresh_region (wrap64 (r_id r + 1))
                                           (region_Size r * 2 ^ k)) R])))).
Proof.
  intros Hall Hlast HL HR Hfuel.
  destruct (grow_region_size_spec (S fuel) (region_Size r) R)
    as (k & Hk & Hg & Hle & Hmin); try lia.
  { assert (2 ^ 62 <= 2 ^ Z.of_nat (S fuel))
      by (apply Z.pow_le_mono_r; lia).
    nia. }
  exists k. split; [exact Hk|]. split; [exact Hle|]. split; [exact Hmin|].
  intros Hroom.
  set (N := region_Size r * 2 ^ k) in *.
  assert (HN : 40 <= N < 2 ^ 63).
  { split; [lia|]. destruct (Z.eq_dec k 0) as [->|Hne].
    - unfold N. rewrite Z.pow_0_r. lia.
    - specialize (Hmin ltac:(lia)). unfold N.
      replace (2 ^ k) with (2 * 2 ^ (k - 1))
        by (rewrite <- Z.pow_succ_r by lia; f_equal; lia).
      lia. }
  cbn [Heap_Allocate regions].
  rewrite allocate_first_all_OutOfMemory by exact Hall.
  rewrite Hlast, Hg.
  rewrite appendRegion_fresh by lia.
  rewrite allocate_first_app_OutOfMemory by exact Hall.
  cbn [allocate_first].
  rewrite region_Allocate_fresh by lia.
  replace (R =? 0) with false by lia. reflexivity.
Qed.

(** C1 (defect of the code).  The specification wants the retried
    allocation to succeed in the one region appended.  On the heap of a new file with
    1 MiB regions, a request of 1 MiB finds the only region out of
    memory; the growth loop keeps the size 1 MiB (1 MiB * 2^0 >= the
    request); the region appended with index 1 has only 1 MiB - 40 bytes
    available, so the retry is out of memory in it as well, and the call
    appends region after region without ever returning. *)
Theorem C1_Heap_Allocate_region_sized_request_never_returns :
  allocate_first (regions (new_heap MiB)) MiB
  = Ret (None, regions (new_heap MiB))
  ∧ grow_region_size 0 (region_Size (fresh_region 0 MiB)) MiB = Some MiB
  ∧ appendRegion (wrap64 (r_id (fresh_region 0 MiB) + 1)) MiB
    = Ret (inl (fresh_region 1 MiB))
  ∧ region_Available (fresh_region 1 MiB) = Ret (MiB - 40)
  ∧ region_Allocate (fresh_region 1 MiB) MiB
    = Ret (None, Some OutOfMemory, fresh_region 1 MiB)
  ∧ ∀ fuel, Heap_Allocate fuel (new_heap MiB) MiB = None.
Proof.
  assert (HS : 40 <= MiB < 2 ^ 63) by (unfold MiB; lia).
  assert (Hsz : MiB - 40 < MiB <= MiB) by lia.
  assert (Hall : Forall (λ r, region_Allocate r MiB
                              = Ret (None, Some OutOfMemory, r))
                   (regions (new_heap MiB))).
  { constructor; [|constructor].
    apply region_Allocate_fresh_OutOfMemory; lia. }
  split; [apply allocate_first_all_OutOfMemory; exact Hall|].
  split; [rewrite region_Size_fresh by lia;
          apply grow_region_size_enough; lia|].
  split; [apply (appendRegion_fresh 1 MiB); lia|].
  split; [apply region_Available_fresh; exact HS|].
  split; [apply region_Allocate_fresh_OutOfMemory; lia|].
  intros fuel.
  apply (Heap_Allocate_never_returns MiB MiB HS Hsz fuel _ (fresh_region 0 MiB)).
  - exact Hall.
  - reflexivity.
  - apply region_Size_fresh. lia.
Qed.

(** ** The data area *)

(** A block allocated with at least 16 bytes to spare lies in the data
    area of the resulting region. *)
Lemma region_Allocate_in_data_area r size a :
  well_formed r → region_Available r = Ret a →
  0 <= size <= a - blockListEntrySize →
  in_data_area (alloc_state r size) (getFreePointer r) size.
Proof.
  intros Hwf Ha Hsz.
  rewrite (well_formed_Available r Hwf) in Ha. injection Ha as Ha.
  destruct Hwf as (HS & Hf & Hc).
  unfold regionHeaderSize, blockListEntrySize in *.
  assert (Hslot : 16 <= slot r (block_count r))
    by (unfold slot, blockListHeaderSize, blockListEntrySize; lia).
  unfold in_data_area, block_list_bottom, regionHeaderSize,
    blockListHeaderSize, blockListEntrySize.
  rewrite region_Size_alloc_state, block_count_alloc_state by lia.
  rewrite wrap64_small by lia. lia.
Qed.

(** C3 (defect of the code).  The specification wants every live
    entry's range inside the data area, also after an allocation of
    exactly [Available()] bytes.  [Available()] does not set aside the 16 bytes
    of the entry the allocation itself adds: in a new 1 MiB region
    [Allocate(1048536)] succeeds with the block [32, 1048568), while the
    block list now starts at byte 1048552, so the block's last 16 bytes
    are the bytes of its own block-list entry. *)
Theorem C3_exact_fit_overlaps_block_list :
  region_Available (fresh_region 0 MiB) = Ret 1048536
  ∧ region_Allocate (fresh_region 0 MiB) 1048536
    = Ret (Some (mkBlock 0 0 1048536 32), None,
           alloc_state (fresh_region 0 MiB) 1048536)
  ∧ entry (alloc_state (fresh_region 0 MiB) 1048536) 0 = (32, 1048536)
  ∧ slot (alloc_state (fresh_region 0 MiB) 1048536) 0 = 1048552
  ∧ block_list_bottom (alloc_state (fresh_region 0 MiB) 1048536) = 1048552
  ∧ ¬ in_data_area (alloc_state (fresh_region 0 MiB) 1048536) 32 1048536.
Proof.
  assert (HS : 40 <= MiB < 2 ^ 63) by (unfold MiB; lia).
  assert (Hsz : 0 <= 1048536 <= MiB - 40) by (unfold MiB; lia).
  assert (Hb : block_list_bottom (alloc_state (fresh_region 0 MiB) 1048536)
               = 1048552).
  { unfold block_list_bottom, blockListHeaderSize, blockListEntrySize.
    rewrite region_Size_alloc_fresh, block_count_alloc_fresh by assumption.
    reflexivity. }
  split; [apply (region_Available_fresh 0 MiB HS)|].
  split; [apply (region_Allocate_fresh 0 MiB 1048536 HS Hsz)|].
  split; [apply (entry_alloc_fresh 0 MiB 1048536 HS Hsz)|].
  split; [rewrite (slot_alloc_fresh 0 MiB 1048536 HS 0); reflexivity|].
  split; [exact Hb|].
  unfold in_data_area. rewrite Hb. lia.
Qed.

(** ** Region.Allocate: the order of the stores *)

(** The states a successful [Allocate] on a well-formed region goes
    through: [s1] and [s2] after the two stores of [setBlockListEntry],
    [s3] after [setFreePointer], [s4] after [incrementFreeBlockId].  In
    [s1], [s2] and [s3] the counter is the old one and the readers answer
    as before the call. *)
Lemma Allocate_intermediate_states r size a :
  well_formed r → region_Available r = Ret a → 0 <= size <= a →
  let c := block_count r in
  let id := region_base (r_id r) + c in
  let f := getFreePointer r in
  let s1 := poke r (slot r c) f in
  let s2 := poke s1 (slot r c + 8) size in
  let s3 := setFreePointer s2 (wrap64 (f + size)) in
  let s4 := poke s3 (region_Size s3 - 8) (wrap64 (c + 1)) in
  let b := if size =? 0 then None
           else Some (mkBlock (r_id r) id size f) in
  setBlockListEntry r id f size = Ret s2
  ∧ rawGetBlock s2 id = Ret b
  ∧ incrementFreeBlockId s3 = Ret (id, s4)
  ∧ region_Allocate r size = Ret (b, None, s4)
  ∧ region_GetBlock r id = Ret None
  ∧ (∀ s, s = s1 ∨ s = s2 ∨ s = s3 →
          block_count s = c
          ∧ (∀ i, region_GetBlock s i = region_GetBlock r i)
          ∧ region_Blocks s = region_Blocks r)
  ∧ block_count s4 = c + 1
  ∧ (c < 65535 → region_GetBlock s4 id = Ret b)
  ∧ entry s2 c = (f, size)
  ∧ getFreePointer s2 = f
  ∧ getFreePointer s3 = f + size.
Proof.
  intros Hwf Ha Hsz c id f s1 s2 s3 s4 b.
  rewrite (well_formed_Available r Hwf) in Ha. injection Ha as Ha.
  destruct Hwf as (HS & Hf & Hc). unfold regionHeaderSize in Hf.
  fold c f in Ha, Hf, Hc.
  assert (Hslot : 16 <= slot r c)
    by (unfold slot, blockListHeaderSize, blockListEntrySize; lia).
  pose proof (slot_bounds r c ltac:(lia)) as Hslot'.
  assert (Hbid : BlockId_BlockId id = c)
    by (apply BlockId_BlockId_small; lia).
  (* the three steps of the code *)
  assert (Hset : setBlockListEntry r id f size = Ret s2)
    by (rewrite setBlockListEntry_eq by (rewrite Hbid; lia);
        rewrite Hbid; reflexivity).
  assert (Hs2 : region_Size s2 = region_Size r) by (unfold s2, s1; mem; reflexivity).
  assert (Hs3 : region_Size s3 = region_Size r)
    by (unfold s3, setFreePointer; mem; exact Hs2).
  assert (He2 : entry s2 c = (f, size)).
  { unfold entry, s2, s1. mem.
    rewrite !wrap64_small by lia. reflexivity. }
  assert (Hraw : rawGetBlock s2 id = Ret b).
  { rewrite rawGetBlock_eq by (rewrite Hbid, (slot_same_size r s2 _ Hs2); lia).
    rewrite Hbid, He2.
    replace (f =? 0) with false by lia. cbn [orb].
    rewrite (wrap64_small (f + size)) by lia.
    rewrite (slice_ok_same_size r s2 _ _ Hs2).
    rewrite slice_ok_true by (fold (region_Size r); lia).
    unfold b. destruct (size =? 0); reflexivity. }
  assert (Hc3 : block_count s3 = c).
  { unfold s3, setFreePointer, regionFreePointerOffset, s2, s1.
    rewrite !block_count_poke by (mem; lia). reflexivity. }
  assert (Hinc : incrementFreeBlockId s3 = Ret (id, s4)).
  { unfold incrementFreeBlockId.
    rewrite getNextFreeBlockId_eq by (rewrite Hc3; lia). run.
    rewrite Hc3. change (r_id s3) with (r_id r). fold id.
    rewrite Hbid. reflexivity. }
  assert (Halloc : region_Allocate r size = Ret (b, None, s4)).
  { rewrite region_Allocate_success by (fold f c; lia).
    fold c f id b. do 2 f_equal.
    unfold alloc_state, s4. rewrite Hs3.
    unfold s3, setFreePointer, s2, s1.
    fold c f. rewrite !wrap64_small by lia. reflexivity. }
  assert (Hpre : region_GetBlock r id = Ret None).
  { rewrite region_GetBlock_eq by (fold c; lia). fold c id.
    replace (id >=? id) with true by lia.
    rewrite orb_true_r. reflexivity. }
  assert (Hc4 : block_count s4 = c + 1).
  { unfold s4. rewrite block_count_poke_same by lia.
    rewrite wrap64_idem. apply wrap64_small. lia. }
  (* the intermediate states *)
  assert (Hframe : ∀ s, s = s1 ∨ s = s2 ∨ s = s3 →
            r_id s = r_id r ∧ region_Size s = region_Size r
            ∧ block_count s = c
            ∧ ∀ k, 0 <= k < c → entry s k = entry r k).
  { assert (Hk : ∀ k, 0 <= k < c → slot r c + 16 <= slot r k)
      by (intros k Hk; unfold slot, blockListHeaderSize, blockListEntrySize;
          lia).
    assert (H1 : r_id s1 = r_id r ∧ region_Size s1 = region_Size r
                 ∧ block_count s1 = c
                 ∧ ∀ k, 0 <= k < c → entry s1 k = entry r k).
    { split; [reflexivity|]. split; [apply region_Size_poke|].
      split; [apply block_count_poke; lia|].
      intros k Hk'. specialize (Hk k Hk').
      apply entry_poke_other; lia. }
    destruct H1 as (H1a & H1b & H1c & H1d).
    assert (H2 : r_id s2 = r_id r ∧ region_Size s2 = region_Size r
                 ∧ block_count s2 = c
                 ∧ ∀ k, 0 <= k < c → entry s2 k = entry r k).
    { split; [reflexivity|]. split; [exact Hs2|].
      split; [unfold s2; rewrite block_count_poke by (rewrite ?H1b; lia);
              exact H1c|].
      intros k Hk'. specialize (Hk k Hk').
      unfold s2. rewrite entry_poke_other;
        rewrite ?(slot_same_size r s1 _ H1b), ?H1b; try lia.
      apply H1d. lia. }
    destruct H2 as (H2a & H2b & H2c & H2d).
    intros s [-> | [-> | ->]].
    - auto.
    - auto.
    - split; [reflexivity|]. split; [exact Hs3|]. split; [exact Hc3|].
      intros k Hk'. specialize (Hk k Hk').
      unfold s3, setFreePointer, regionFreePointerOffset.
      rewrite entry_poke_other;
        rewrite ?(slot_same_size r s2 _ H2b), ?H2b; try lia.
      apply H2d. lia. }
  assert (Hfp2 : getFreePointer s2 = f)
    by (unfold s2, s1; rewrite !getFreePointer_poke by lia; reflexivity).
  assert (Hfp3 : getFreePointer s3 = f + size).
  { unfold s3, setFreePointer.
    rewrite getFreePointer_poke_same by lia.
    rewrite wrap64_idem. apply wrap64_small. lia. }
  split; [exact Hset|]. split; [exact Hraw|]. split; [exact Hinc|].
  split; [exact Halloc|]. split; [exact Hpre|].
  split; [|split; [|split; [|auto]]].
  - intros s Hs. destruct (Hframe s Hs) as (Hi & Hz & Hcs & He).
    split; [exact Hcs|]. split.
    + apply region_GetBlock_ext; fold c; auto; lia.
    + apply region_Blocks_ext; fold c; auto; lia.
  - exact Hc4.
  - intros Hlt.
    rewrite region_GetBlock_eq by (rewrite Hc4; lia).
    rewrite Hc4. change (r_id s4) with (r_id r). fold id.
    replace (region_base (r_id r) + (c + 1)) with (id + 1) by (unfold id; lia).
    replace ((id <? region_base (r_id r)) || (id >=? id + 1)) with false
      by (unfold id; lia).
    rewrite <- Hraw. apply rawGetBlock_ext.
    + reflexivity.
    + unfold s4. rewrite region_Size_poke. congruence.
    + rewrite Hbid. unfold s4, s3, setFreePointer, regionFreePointerOffset.
      rewrite !entry_poke_other;
        rewrite ?slot_poke, ?region_Size_poke,
          ?(slot_same_size r s2 _ Hs2), ?Hs2; try lia.
      reflexivity.
Qed.

(** [Allocate] and its logging twin return the same block, error and
    region, on every region and for every size; and the region the twin
    returns is the one its log produces. *)
Lemma region_Allocate_log_agrees r size :
  region_Allocate r size = (x ← region_Allocate_log r size; mret (fst x)).
Proof.
  unfold region_Allocate, region_Allocate_log.
  destruct (region_Available r) as [a|]; run; [|reflexivity].
  destruct (size >? a); [reflexivity|].
  destruct (size >? region_Size r); [reflexivity|].
  destruct (getNextFreeBlockId r) as [id|]; run; [|reflexivity].
  unfold setBlockListEntry, setBlockListEntry_log.
  destruct (getBlockListEntryBytes r id) as [j|]; run; [|reflexivity].
  cbn [put]. run.
  destruct (rawGetBlock _ id) as [b|]; run; [|reflexivity].
  unfold setFreePointer_log, incrementFreeBlockId_log,
    incrementFreeBlockId, setFreePointer. cbn [put].
  destruct (getNextFreeBlockId _) as [id2|]; run; reflexivity.
Qed.

Lemma region_Allocate_log_replay r size b e r' ws :
  region_Allocate_log r size = Ret (b, e, r', ws) → r' = run_stores r ws.
Proof.
  unfold region_Allocate_log.
  destruct (region_Available r) as [a|]; run; [|discriminate].
  destruct (size >? a); [intros [= <- <- <- <-]; reflexivity|].
  destruct (size >? region_Size r); [intros [= <- <- <- <-]; reflexivity|].
  destruct (getNextFreeBlockId r) as [id|]; run; [|discriminate].
  unfold setBlockListEntry_log.
  destruct (getBlockListEntryBytes r id) as [j|]; run; [|discriminate].
  cbn [put]. run.
  destruct (rawGetBlock _ id) as [b1|]; run; [|discriminate].
  unfold setFreePointer_log, incrementFreeBlockId_log. cbn [put].
  destruct (getNextFreeBlockId _) as [id2|]; run; [|discriminate].
  intros [= <- <- <- <-]. reflexivity.
Qed.

(** C4.  A successful [Allocate] on a well-formed region makes four
    stores, in this order: the offset word and the size word of the
    entry of the next slot ([setBlockListEntry]), the free pointer
    ([setFreePointer]), the counter last ([incrementFreeBlockId]); the
    region it returns is the one these stores produce.  Before the call
    the new slot is invisible; after none, one, two or three of the
    stores the counter is still the old one and [GetBlock] and
    [Blocks], which consult only the slots below the counter, answer
    exactly as before the call; after the fourth the counter is one
    higher and the new slot answers with the block the call
    returned. *)
Theorem C4_Allocate_write_order r size a :
  well_formed r → region_Available r = Ret a → 0 <= size <= a →
  let c := block_count r in
  let id := region_base (r_id r) + c in
  let f := getFreePointer r in
  let log := [mkStore (slot r c) f; mkStore (slot r c + 8) size;
              mkStore regionFreePointerOffset (f + size);
              mkStore (region_Size r - 8) (c + 1)] in
  let b := if size =? 0 then None
           else Some (mkBlock (r_id r) id size f) in
  region_Allocate_log r size = Ret (b, None, run_stores r log, log)
  ∧ region_Allocate r size = Ret (b, None, run_stores r log)
  ∧ region_GetBlock r id = Ret None
  ∧ (∀ n, (n < 4)%nat →
          let s := run_stores r (take n log) in
          block_count s = c
          ∧ (∀ i, region_GetBlock s i = region_GetBlock r i)
          ∧ region_Blocks s = region_Blocks r)
  ∧ block_count (run_stores r log) = c + 1
  ∧ (c < 65535 → region_GetBlock (run_stores r log) id = Ret b)
  ∧ entry (run_stores r (take 2 log)) c = (f, size)
  ∧ getFreePointer (run_stores r (take 2 log)) = f
  ∧ getFreePointer (run_stores r (take 3 log)) = f + size.
Proof.
  intros Hwf Ha Hsz c id f log b.
  pose proof (Allocate_intermediate_states r size a Hwf Ha Hsz) as H.
  cbv zeta in H. fold c f in H. fold id in H. fold b in H.
  pose proof Ha as Ha'.
  rewrite (well_formed_Available r Hwf) in Ha'. injection Ha' as Ha'.
  destruct Hwf as (HS & Hf & Hc). unfold regionHeaderSize in Hf.
  fold c f in Ha', Hf, Hc.
  assert (Hslot : 16 <= slot r c)
    by (unfold slot, blockListHeaderSize, blockListEntrySize; lia).
  assert (Hbid : BlockId_BlockId id = c)
    by (apply BlockId_BlockId_small; lia).
  unfold setFreePointer in H. rewrite !region_Size_poke in H.
  rewrite (wrap64_small (f + size)) in H by lia.
  rewrite (wrap64_small (c + 1)) in H by lia.
  destruct H as (Hset & Hraw & Hinc & Halloc & Hpre & Hmid & Hc4 & Hget
                 & He2 & Hf2 & Hf3).
  split.
  { unfold region_Allocate_log. rewrite Ha. run.
    destruct (size >? a) eqn:E1; [lia|].
    destruct (size >? region_Size r) eqn:E2; [lia|].
    rewrite getNextFreeBlockId_eq by (fold c; lia). run. fold c id f.
    unfold setBlockListEntry_log.
    rewrite getBlockListEntryBytes_eq by (rewrite Hbid; lia).
    rewrite Hbid. run. cbn [put]. run.
    rewrite Hraw. run.
    unfold setFreePointer_log, incrementFreeBlockId_log. cbn [put].
    unfold incrementFreeBlockId in Hinc.
    destruct (getNextFreeBlockId _) as [id2|] eqn:E3;
      cbn [mbind outcome_bind mret outcome_ret] in Hinc; [|discriminate].
    injection Hinc as -> _.
    rewrite (wrap64_small (f + size)) in * by lia.
    rewrite E3. run.
    rewrite Hbid, (wrap64_small (c + 1)) by lia.
    rewrite !region_Size_poke. reflexivity. }
  split; [exact Halloc|]. split; [exact Hpre|]. split.
  { intros n Hn s. subst s.
    destruct n as [|[|[|[|n]]]]; [| | | |lia]; cbn [take log run_stores foldl st_off st_val].
    - split; [reflexivity|]. split; reflexivity.
    - apply Hmid. left. reflexivity.
    - apply Hmid. right. left. reflexivity.
    - apply Hmid. right. right. reflexivity. }
  split; [exact Hc4|]. split; [exact Hget|].
  split; [exact He2|]. split; [exact Hf2|exact Hf3].
Qed.

Lemma C4_Allocate_write_order_witness :
  region_Allocate_log (fresh_region 0 MiB) 1000
  = Ret (Some (mkBlock 0 0 1000 32), None,
         run_stores (fresh_region 0 MiB)
           [mkStore (MiB - 24) 32; mkStore (MiB - 16) 1000;
            mkStore 8 1032; mkStore (MiB - 8) 1],
         [mkStore (MiB - 24) 32; mkStore (MiB - 16) 1000;
          mkStore 8 1032; mkStore (MiB - 8) 1]).
Proof.
  assert (HS : 40 <= MiB < 2 ^ 63) by (unfold MiB; lia).
  assert (Hsz : 0 <= 1000 <= MiB - 40) by (unfold MiB; lia).
  pose proof (C4_Allocate_write_order (fresh_region 0 MiB) 1000 (MiB - 40)
                (well_formed_fresh 0 MiB HS)
                (region_Available_fresh 0 MiB HS) Hsz) as H.
  cbv zeta in H. destruct H as (H & _).
  rewrite block_count_fresh, getFreePointer_fresh, r_id_fresh,
    region_Size_fresh, slot_fresh in H by lia.
  exact H.
Defined.

(** ** Zero-size allocations: the consumed slot *)

(** After [Allocate(0)] has taken the next slot of a well-formed region,
    [Free] of the slot's identifier returns [true] and winds the region
    back, and the next [Allocate] of a positive size hands out a block
    with that identifier, which [GetBlock] then returns. *)
Lemma zero_size_slot_is_reclaimed r size b0 :
  well_formed r → 0 < size →
  size <= region_Size r - getFreePointer r - 8 - 16 * block_count r →
  block_count r < 65535 →
  Id b0 = region_base (r_id r) + block_count r →
  let r2 := wind_back (alloc_state r 0) (block_count r) (getFreePointer r) in
  ∃ r3 b,
    region_Allocate r 0 = Ret (None, None, alloc_state r 0)
    ∧ region_GetBlock (alloc_state r 0) (Id b0) = Ret None
    ∧ region_Free (alloc_state r 0) b0 = Ret (true, r2)
    ∧ region_Allocate r2 size = Ret (Some b, None, r3)
    ∧ Id b = Id b0
    ∧ region_GetBlock r3 (Id b0) = Ret (Some b).
Proof.
  intros Hwf Hpos Hsz Hlt Hid.
  pose proof Hwf as (HS & Hf & Hc). unfold regionHeaderSize in Hf.
  set (c := block_count r) in *. set (f := getFreePointer r) in *.
  set (r1 := alloc_state r 0).
  assert (Hslot : 16 <= slot r c)
    by (unfold slot, blockListHeaderSize, blockListEntrySize; lia).
  assert (Hc1 : block_count r1 = c + 1)
    by (unfold r1; rewrite block_count_alloc_state by (fold c; lia);
        apply wrap64_small; fold c; lia).
  assert (Hs1 : region_Size r1 = region_Size r)
    by (apply region_Size_alloc_state; fold c; lia).
  assert (Hsl1 : slot r1 c = slot r c) by (apply slot_same_size; exact Hs1).
  assert (He1 : entry r1 c = (f, 0))
    by (unfold r1, c; rewrite entry_alloc_state_same by (fold c; lia);
        reflexivity).
  assert (Hk0 : BlockId_BlockId (Id b0) = c)
    by (rewrite Hid; apply BlockId_BlockId_small; lia).
  intros r2.
  assert (Hc2 : block_count r2 = c)
    by (unfold r2; rewrite block_count_wind_back by lia;
        apply wrap64_small; lia).
  assert (Hf2 : getFreePointer r2 = f)
    by (unfold r2; rewrite getFreePointer_wind_back by lia;
        apply wrap64_peek).
  assert (Hs2 : region_Size r2 = region_Size r)
    by (unfold r2; rewrite region_Size_wind_back by lia; exact Hs1).
  assert (Hwf2 : well_formed r2)
    by (unfold well_formed, regionHeaderSize; rewrite Hc2, Hf2, Hs2; lia).
  pose proof (well_formed_Available r2 Hwf2) as Ha2.
  rewrite Hc2, Hf2, Hs2 in Ha2.
  pose proof (Allocate_intermediate_states r2 size _ Hwf2 Ha2 ltac:(lia))
    as H.
  cbv zeta in H.
  destruct H as (_ & _ & _ & Halloc & _ & _ & _ & Hget & _).
  rewrite Hc2, Hf2 in Halloc, Hget.
  change (r_id r2) with (r_id r) in Halloc, Hget.
  replace (size =? 0) with false in Halloc, Hget by lia.
  rewrite <- Hid in Halloc, Hget.
  eexists _, _.
  split; [apply region_Allocate_success; fold c f; lia|].
  split.
  { apply zero_size_entry_is_absent; rewrite ?Hk0.
    - lia.
    - lia.
    - rewrite He1. reflexivity. }
  split.
  { pose proof (region_Free_live r1 b0) as H. cbv zeta in H.
    rewrite Hk0, He1, Hc1, Hsl1 in H. cbn [fst] in H.
    rewrite H; [|lia|intros [= E]; lia|lia].
    change (r_id r1) with (r_id r).
    replace (region_base (r_id r) + (c + 1) - 1)
      with (region_base (r_id r) + c) by lia.
    rewrite wrap64_region_id by lia.
    rewrite Hid, Z.eqb_refl. reflexivity. }
  split; [exact Halloc|]. split; [reflexivity|].
  apply Hget. lia.
Qed.

(** C10.  On a well-formed region with [Available() >= 0], [Allocate(0)]
    returns neither a block nor an error, and so does [Heap.Allocate(0)]
    when that region is the heap's first; the call nevertheless stores
    the entry (free pointer, 0) in the next slot and increments the
    counter, the free pointer staying where it was; the slot is then
    invisible to [GetBlock] and to [Blocks], and it stays invisible to
    both after a further successful [Allocate] and, more generally,
    after any later successful [Allocate] calls that do not take the
    slot's index again, [Free] calls on blocks of other indices and
    stores of clients into blocks below the slot's entry.  The slot is
    not invisible for good: [Free], which takes an entry for the
    sentinel only when offset and size are both zero, accepts the slot's
    identifier, returns [true] and winds the counter and the free
    pointer back, and the next [Allocate] of a positive size hands out a
    block with that identifier, which [GetBlock] returns. *)
Theorem C10_Allocate_zero r a :
  well_formed r → region_Available r = Ret a → 0 <= a →
  let id := region_base (r_id r) + block_count r in
  let r' := alloc_state r 0 in
  region_Allocate r 0 = Ret (None, None, r')
  ∧ entry r' (block_count r) = (getFreePointer r, 0)
  ∧ block_count r' = block_count r + 1
  ∧ getFreePointer r' = getFreePointer r
  ∧ region_GetBlock r' id = Ret None
  ∧ (∀ bs, region_Blocks r' = Ret bs → ∀ b, b ∈ bs → Id b ≠ id)
  ∧ (∀ rs fuel,
       Heap_Allocate (S fuel) (mkHeap (r :: rs)) 0
       = Some (Ret (None, None, mkHeap (r' :: rs))))
  ∧ (∀ size b r'', region_Allocate r' size = Ret (b, None, r'') →
                   region_GetBlock r'' id = Ret None)
  ∧ (∀ r'', keeps (block_count r) r' r'' →
            region_GetBlock r'' id = Ret None
            ∧ ∀ bs, region_Blocks r'' = Ret bs → ∀ b, b ∈ bs → Id b ≠ id)
  ∧ (block_count r < 65535 → ∀ b0, Id b0 = id →
       let r2 := wind_back r' (block_count r) (getFreePointer r) in
       region_Free r' b0 = Ret (true, r2)
       ∧ block_count r2 = block_count r
       ∧ getFreePointer r2 = getFreePointer r
       ∧ ∀ size, 0 < size <= a →
           ∃ b r3, region_Allocate r2 size = Ret (Some b, None, r3)
                   ∧ Id b = id
                   ∧ region_GetBlock r3 id = Ret (Some b)).
Proof.
  intros Hwf Ha Ha0 id r'.
  rewrite (well_formed_Available r Hwf) in Ha. injection Ha as Ha.
  pose proof Hwf as Hwf0.
  destruct Hwf as (HS & Hf & Hc). unfold regionHeaderSize in Hf.
  assert (Hslot : 16 <= slot r (block_count r))
    by (unfold slot, blockListHeaderSize, blockListEntrySize; lia).
  assert (Halloc : region_Allocate r 0 = Ret (None, None, r'))
    by (rewrite region_Allocate_success by lia; reflexivity).
  assert (Hentry : entry r' (block_count r) = (getFreePointer r, 0))
    by (subst r'; rewrite entry_alloc_state_same by lia; reflexivity).
  assert (Hget : region_GetBlock r' id = Ret None).
  { unfold region_GetBlock, getNextFreeBlockId.
    fold (block_count r'). subst r'.
    rewrite block_count_alloc_state, r_id_alloc_state by lia.
    rewrite wrap64_small by lia.
    rewrite !NewBlockId_eq by lia. run.
    destruct (_ || _); [reflexivity|].
    subst id. rewrite rawGetBlock_eq;
      rewrite BlockId_BlockId_small by lia;
      rewrite ?slot_alloc_state; [|lia].
    rewrite Hentry. rewrite orb_true_r. reflexivity. }
  assert (Hc' : block_count r' = block_count r + 1)
    by (subst r'; rewrite block_count_alloc_state by lia;
        apply wrap64_small; lia).
  assert (Hs' : slot r' (block_count r) = slot r (block_count r))
    by (subst r'; apply slot_alloc_state).
  split; [exact Halloc|]. split; [exact Hentry|].
  split; [exact Hc'|].
  split; [subst r'; rewrite getFreePointer_alloc_state by lia;
          rewrite Z.add_0_r; apply wrap64_peek|].
  split; [exact Hget|]. split.
  { intros bs Hbs b Hb Hid.
    pose proof (region_Blocks_elem _ _ _ Hbs Hb) as Hsome.
    rewrite Hid, Hget in Hsome. discriminate. }
  split.
  { intros rs fuel. cbn [Heap_Allocate regions allocate_first].
    rewrite Halloc. reflexivity. }
  split.
  { intros size b r'' Halloc'.
    assert (Hnext : getNextFreeBlockId r'
                    = Ret (region_base (r_id r')
                           + (block_count r + 1) mod 65536))
      by (rewrite getNextFreeBlockId_gen by lia; rewrite Hc'; reflexivity).
    destruct (region_Allocate_frame r' size _ b r'' (block_count r)
                Halloc' Hnext) as (Hsz'' & _ & Hc'' & He'').
    { lia. }
    { rewrite BlockId_BlockId_base, Z.mod_mod by lia.
      destruct (Z.eq_dec (block_count r) 65535) as [->|Hne];
        [discriminate|].
      rewrite Z.mod_small by lia. lia. }
    { lia. }
    subst id. apply zero_size_entry_is_absent;
      rewrite ?BlockId_BlockId_small by lia.
    + lia.
    + rewrite (slot_same_size r' r'' _ Hsz''). lia.
    + rewrite He'', Hentry. reflexivity. }
  split.
  { intros r'' Hk.
    destruct (keeps_invariant _ _ _ Hk ltac:(lia) ltac:(lia) ltac:(lia))
      as (Hsz'' & Hc'' & He'').
    assert (Hget'' : region_GetBlock r'' id = Ret None).
    { subst id. apply zero_size_entry_is_absent;
        rewrite ?BlockId_BlockId_small by lia.
      + lia.
      + rewrite (slot_same_size r' r'' _ Hsz''). lia.
      + rewrite He'', Hentry. reflexivity. }
    split; [exact Hget''|].
    intros bs Hbs b Hb Hid.
    pose proof (region_Blocks_elem _ _ _ Hbs Hb) as Hsome.
    rewrite Hid, Hget'' in Hsome. discriminate. }
  intros Hlt b0 Hb0 r2.
  assert (Hk0 : BlockId_BlockId (Id b0) = block_count r)
    by (rewrite Hb0; subst id; apply BlockId_BlockId_small; lia).
  split; [|split; [|split]].
  - pose proof (region_Free_live r' b0) as H. cbv zeta in H.
    rewrite Hk0, Hentry, Hc', Hs' in H. cbn [fst] in H.
    rewrite H; [|lia|intros [= E]; lia|lia].
    replace (region_base (r_id r') + (block_count r + 1) - 1) with id
      by (subst id r'; rewrite r_id_alloc_state; lia).
    rewrite Hb0. subst id. rewrite wrap64_region_id by lia.
    rewrite Z.eqb_refl. reflexivity.
  - subst r2. rewrite block_count_wind_back by lia.
    apply wrap64_small. lia.
  - subst r2. rewrite getFreePointer_wind_back by lia.
    apply wrap64_peek.
  - intros size Hsize.
    destruct (zero_size_slot_is_reclaimed r size b0 Hwf0 ltac:(lia)
                ltac:(lia) Hlt Hb0)
      as (r3 & b & _ & _ & _ & Hre & Hidb & Hgetb).
    rewrite Hb0 in Hidb, Hgetb.
    exists b, r3. split; [exact Hre|]. split; [exact Hidb|exact Hgetb].
Qed.

Lemma C10_Allocate_zero_witness :
  region_Allocate (fresh_region 0 MiB) 0
  = Ret (None, None, alloc_state (fresh_region 0 MiB) 0)
  ∧ entry (alloc_state (fresh_region 0 MiB) 0)
      (block_count (fresh_region 0 MiB))
    = (getFreePointer (fresh_region 0 MiB), 0).
Proof.
  assert (Hwf : well_formed (fresh_region 0 MiB))
    by (apply well_formed_fresh; unfold MiB; lia).
  assert (Ha : region_Available (fresh_region 0 MiB) = Ret (MiB - 40))
    by (apply region_Available_fresh; unfold MiB; lia).
  assert (Ha0 : 0 <= MiB - 40) by (unfold MiB; lia).
  pose proof (C10_Allocate_zero (fresh_region 0 MiB) (MiB - 40) Hwf Ha Ha0)
    as (H1 & H2 & _).
  split; [exact H1|exact H2].
Defined.

(** C10 (counterexample to the stated property): in a new 1 MiB region,
    [Allocate(0)] takes slot 0 and [GetBlock(0)] finds nothing; [Free]
    of a handle with identifier 0 then returns [true], the next
    [Allocate(5)] returns a block with identifier 0 and [GetBlock(0)]
    returns that block: the slot has not stayed invisible. *)
Lemma C10_freed_zero_size_slot_is_reused :
  ∃ r2 r3 b,
    region_Allocate (fresh_region 0 MiB) 0
    = Ret (None, None, alloc_state (fresh_region 0 MiB) 0)
    ∧ region_GetBlock (alloc_state (fresh_region 0 MiB) 0) 0 = Ret None
    ∧ region_Free (alloc_state (fresh_region 0 MiB) 0) (mkBlock 0 0 0 0)
      = Ret (true, r2)
    ∧ region_Allocate r2 5 = Ret (Some b, None, r3)
    ∧ Id b = 0
    ∧ region_GetBlock r3 0 = Ret (Some b).
Proof.
  assert (HS : 40 <= MiB < 2 ^ 63) by (unfold MiB; lia).
  destruct (zero_size_slot_is_reclaimed (fresh_region 0 MiB) 5
              (mkBlock 0 0 0 0) (well_formed_fresh 0 MiB HS))
    as (r3 & b & H).
  - lia.
  - rewrite region_Size_fresh, getFreePointer_fresh, block_count_fresh
      by lia.
    unfold MiB. lia.
  - rewrite block_count_fresh by lia. lia.
  - rewrite r_id_fresh, block_count_fresh by lia. reflexivity.
  - cbn [Id] in H. eexists _, r3, b. exact H.
Qed.

(** ** Region.Free: idempotence *)










(** ** Block indices of successive allocations *)

Lemma allocate_all_ids sizes :
  ∀ r,
    region_Size r < 2 ^ 63 → 32 <= getFreePointer r → 0 <= block_count r →
    block_count r + Z.of_nat (length sizes) <= 65536 →
    Forall (λ size, 0 < size) sizes →
    fits (region_Size r - getFreePointer r - 8 - 16 * block_count r) sizes →
    ∃ blocks r',
      allocate_all r sizes = Ret ((λ b, (Some b, None)) <$> blocks, r')
      ∧ length blocks = length sizes
      ∧ (∀ i b, blocks !! i = Some b →
                Id b = region_base (r_id r) + (block_count r + Z.of_nat i)
                ∧ sizes !! i = Some (Size b))
      ∧ region_Size r' = region_Size r
      ∧ r_id r' = r_id r
      ∧ block_count r' = block_count r + Z.of_nat (length sizes)
      ∧ getFreePointer r' = getFreePointer r + foldr Z.add 0 sizes.
Proof.
  induction sizes as [|size sizes IH]; intros r HS Hf Hc Hn Hpos Hfits.
  - exists [], r. split; [reflexivity|]. split; [reflexivity|].
    split; [intros i b Hi; rewrite lookup_nil in Hi; discriminate|].
    cbn [length foldr]. repeat split; lia.
  - cbn [length] in Hn. rewrite Nat2Z.inj_succ in Hn.
    apply Forall_cons in Hpos as [Hpos1 Hpos].
    cbn [fits] in Hfits. destruct Hfits as [Hfit1 Hfits].
    unfold blockListEntrySize in Hfits.
    assert (Hslot : 16 <= slot r (block_count r))
      by (unfold slot, blockListHeaderSize, blockListEntrySize; lia).
    set (r1 := alloc_state r size).
    assert (HS1 : region_Size r1 = region_Size r)
      by (apply region_Size_alloc_state).
    assert (Hf1 : getFreePointer r1 = getFreePointer r + size).
    { unfold r1. rewrite getFreePointer_alloc_state by lia.
      apply wrap64_small. lia. }
    assert (Hc1 : block_count r1 = block_count r + 1).
    { unfold r1. rewrite block_count_alloc_state by lia.
      apply wrap64_small. lia. }
    destruct (IH r1)
      as (blocks & r' & Hall & Hlen & Hids & HS' & Hid' & Hc' & Hf').
    + rewrite HS1. exact HS.
    + rewrite Hf1. lia.
    + rewrite Hc1. lia.
    + rewrite Hc1. lia.
    + exact Hpos.
    + rewrite HS1, Hf1, Hc1.
      replace (region_Size r - (getFreePointer r + size) - 8
               - 16 * (block_count r + 1))
        with (region_Size r - getFreePointer r - 8 - 16 * block_count r
              - size - 16) by lia.
      exact Hfits.
    + exists (mkBlock (r_id r) (region_base (r_id r) + block_count r)
                size (getFreePointer r) :: blocks), r'.
      split; [|split; [|split]].
      * cbn [allocate_all]. rewrite region_Allocate_success by lia.
        replace (size =? 0) with false by lia. run.
        fold r1. rewrite Hall. reflexivity.
      * cbn [length]. rewrite Hlen. reflexivity.
      * intros [|i] b Hi.
        -- injection Hi as <-. cbn [Id Size]. split; [f_equal; lia|reflexivity].
        -- cbn [lookup list_lookup] in Hi. destruct (Hids i b Hi) as (Hid & Hsz).
           split; [|exact Hsz].
           rewrite Hid, Hc1. change (r_id r1) with (r_id r). f_equal. lia.
      * cbn [length foldr]. rewrite HS', Hid', Hc', Hf', HS1, Hc1, Hf1.
        change (r_id r1) with (r_id r).
        repeat split; lia.
Qed.

(** C9 (as amended).  From a freshly appended region, let a sequence of
    at most 65536 requests of positive size be allocated one after the
    other, each fitting what is available when it is made.  Every call
    returns a block, and the i-th block (counting from 0) has the identifier of
    block index i of the region: the indices are 0, 1, 2, ... without
    gaps.  The first block allocated in the heap of a new file has the
    identifier 0, which encodes region 0, block 0. *)
Theorem C9_dense_block_indices rid S sizes :
  40 <= S < 2 ^ 63 →
  Forall (λ size, 0 < size) sizes →
  fits (S - 40) sizes →
  Z.of_nat (length sizes) <= 65536 →
  (∃ blocks r',
      allocate_all (fresh_region rid S) sizes
      = Ret ((λ b, (Some b, None)) <$> blocks, r')
      ∧ length blocks = length sizes
      ∧ ∀ i b, blocks !! i = Some b →
               NewBlockId rid (Z.of_nat i) = Ret (Id b)
               ∧ BlockId_BlockId (Id b) = Z.of_nat i)
  ∧ (∀ size sizes', sizes = size :: sizes' →
       ∃ b h, Heap_Allocate 1 (new_heap S) size = Some (Ret (Some b, None, h))
              ∧ Id b = 0
              ∧ BlockId_RegionId (Id b) = 0 ∧ BlockId_BlockId (Id b) = 0).
Proof.
  intros HS Hpos Hfits Hlen. split.
  - pose proof (allocate_all_ids sizes (fresh_region rid S)) as H.
    rewrite region_Size_fresh, getFreePointer_fresh, block_count_fresh in H
      by lia.
    replace (S - 32 - 8 - 16 * 0) with (S - 40) in H by lia.
    destruct (H ltac:(lia) ltac:(lia) ltac:(lia) ltac:(lia) Hpos Hfits)
      as (blocks & r' & Hall & Hl & Hids & _).
    exists blocks, r'. split; [exact Hall|]. split; [exact Hl|].
    intros i b Hi. destruct (Hids i b Hi) as (Hid & _).
    pose proof (lookup_lt_Some _ _ _ Hi) as Hlt.
    change (r_id (fresh_region rid S)) with rid in Hid.
    rewrite Z.add_0_l in Hid.
    rewrite NewBlockId_eq by lia. rewrite Z.mod_small by lia.
    rewrite Hid. split; [reflexivity|].
    apply BlockId_BlockId_small. lia.
  - intros size sizes' ->.
    apply Forall_cons in Hpos as [Hpos1 _].
    cbn [fits] in Hfits. destruct Hfits as [Hfit1 _].
    exists (mkBlock 0 0 size 32), (mkHeap [alloc_state (fresh_region 0 S) size]).
    split; [|repeat split].
    cbn [Heap_Allocate new_heap regions allocate_first].
    rewrite region_Allocate_fresh by lia.
    replace (size =? 0) with false by lia. reflexivity.
Qed.

Lemma C9_dense_block_indices_witness :
  ∃ blocks r',
    allocate_all (fresh_region 0 MiB) [1000; 24; 7]
    = Ret ((λ b, (Some b, None)) <$> blocks, r')
    ∧ length blocks = length [1000; 24; 7]
    ∧ ∀ i b, blocks !! i = Some b →
             NewBlockId 0 (Z.of_nat i) = Ret (Id b)
             ∧ BlockId_BlockId (Id b) = Z.of_nat i.
Proof.
  assert (HS : 40 <= MiB < 2 ^ 63) by (unfold MiB; lia).
  assert (Hpos : Forall (λ size, 0 < size) [1000; 24; 7])
    by (repeat constructor; lia).
  assert (Hfits : fits (MiB - 40) [1000; 24; 7])
    by (cbn [fits]; unfold blockListEntrySize, MiB; lia).
  assert (Hlen : Z.of_nat (length [1000; 24; 7]) <= 65536)
    by (cbn [length]; lia).
  exact (proj1 (C9_dense_block_indices 0 MiB [1000; 24; 7]
                  HS Hpos Hfits Hlen)).
Defined.

(** A zero-size request followed by a request of positive size: the
    second call returns the block of the second slot. *)
Lemma allocate_all_zero_first r size :
  region_Size r < 2 ^ 63 → 32 <= getFreePointer r →
  0 <= block_count r < 65535 →
  0 < size <= region_Size r - getFreePointer r - 8 - 16 * block_count r - 16 →
  allocate_all r [0; size]
  = Ret ([(None, None);
          (Some (mkBlock (r_id r) (region_base (r_id r) + (block_count r + 1))
                   size (getFreePointer r)), None)],
         alloc_state (alloc_state r 0) size).
Proof.
  intros HS Hf Hc Hsz.
  assert (Hslot : 16 <= slot r (block_count r))
    by (unfold slot, blockListHeaderSize, blockListEntrySize; lia).
  assert (HS1 : region_Size (alloc_state r 0) = region_Size r)
    by apply region_Size_alloc_state.
  assert (Hf1 : getFreePointer (alloc_state r 0) = getFreePointer r).
  { rewrite getFreePointer_alloc_state by lia.
    rewrite Z.add_0_r. apply wrap64_peek. }
  assert (Hc1 : block_count (alloc_state r 0) = block_count r + 1).
  { rewrite block_count_alloc_state by lia. apply wrap64_small. lia. }
  cbn [allocate_all].
  rewrite (region_Allocate_success r 0) by lia.
  replace (0 =? 0) with true by reflexivity. run.
  rewrite (region_Allocate_success (alloc_state r 0) size)
    by (rewrite ?HS1, ?Hf1, ?Hc1; lia).
  replace (size =? 0) with false by lia. run.
  rewrite Hf1, Hc1, r_id_alloc_state. reflexivity.
Qed.

(** C9 (counterexample to the stated property): in a new 1 MiB region
    the requests 0 and 10 both fit; the first returns no block but takes
    block index 0, so the only block allocated, the first of the heap,
    has identifier 1 (region 0, block 1). *)
Lemma C9_zero_size_request_takes_index_0 :
  allocate_all (fresh_region 0 MiB) [0; 10]
  = Ret ([(None, None); (Some (mkBlock 0 1 10 32), None)],
         alloc_state (alloc_state (fresh_region 0 MiB) 0) 10)
  ∧ (BlockId_RegionId 1, BlockId_BlockId 1) = (0, 1).
Proof.
  assert (HS : 40 <= MiB) by (unfold MiB; lia).
  split; [|reflexivity].
  pose proof (allocate_all_zero_first (fresh_region 0 MiB) 10) as H.
  rewrite region_Size_fresh, getFreePointer_fresh, block_count_fresh,
    r_id_fresh, region_base_0 in H by exact HS.
  apply H; unfold MiB; lia.
Qed.

(** ** The block index beyond the 16-bit capacity *)

Lemma fits_replicate n size avail :
  0 <= size → Z.of_nat n * (size + 16) <= avail + 16 →
  fits avail (replicate n size).
Proof.
  intros Hs. revert avail. induction n as [|n IH]; intros avail Hn.
  - exact I.
  - cbn [replicate fits]. unfold blockListEntrySize.
    rewrite Nat2Z.inj_succ in Hn. split; [nia|]. apply IH. nia.
Qed.

Lemma foldr_add_replicate n size :
  foldr Z.add 0 (replicate n size) = Z.of_nat n * size.
Proof.
  induction n as [|n IH]; cbn [replicate foldr]; [reflexivity|].
  rewrite IH, Nat2Z.inj_succ. lia.
Qed.

(** [Allocate] on a region whose counter has reached 65536: the 16-bit
    mask of [NewBlockId] turns the next block index into 0. *)
Lemma region_Allocate_at_65536 r size :
  region_Size r < 2 ^ 63 → 32 <= getFreePointer r →
  block_count r = 65536 →
  0 < size <= region_Size r - getFreePointer r - 8 →
  ∃ r', region_Allocate r size
        = Ret (Some (mkBlock (r_id r) (region_base (r_id r)) size
                       (getFreePointer r)), None, r')
        ∧ block_count r' = 1.
Proof.
  intros HS Hf Hc Hsz.
  assert (Hnext : getNextFreeBlockId r = Ret (region_base (r_id r) + 0))
    by (rewrite getNextFreeBlockId_gen by lia; rewrite Hc; reflexivity).
  assert (Hslot : 16 <= slot r 0)
    by (unfold slot, blockListHeaderSize, blockListEntrySize; lia).
  pose proof (slot_bounds r 0 ltac:(lia)) as Hslot'.
  eexists. split.
  - unfold region_Allocate, region_Available. rewrite Hnext. run.
    rewrite BlockId_BlockId_small by lia.
    unfold blockListHeaderSize, blockListEntrySize.
    pose proof (region_Size_nonneg r).
    rewrite (wrap64_small (region_Size r - getFreePointer r)) by lia.
    rewrite (wrap64_small (0 * 16)) by lia.
    rewrite (wrap64_small (region_Size r - getFreePointer r - 8)) by lia.
    rewrite wrap64_small by lia.
    destruct (size >? _) eqn:E1; [lia|].
    destruct (size >? region_Size r) eqn:E2; [lia|].
    rewrite setBlockListEntry_eq
      by (rewrite BlockId_BlockId_small by lia; lia).
    rewrite BlockId_BlockId_small by lia. run.
    unfold rawGetBlock.
    rewrite getBlockListEntryBytes_eq
      by (rewrite BlockId_BlockId_small by lia; mem; lia).
    rewrite BlockId_BlockId_small by lia. run.
    mem.
    rewrite (wrap64_small (getFreePointer r)) by lia.
    rewrite (wrap64_small size) by lia.
    rewrite (wrap64_small (getFreePointer r + size)) by lia.
    replace (getFreePointer r =? 0) with false by lia.
    replace (size =? 0) with false by lia. cbn [orb].
    rewrite slice_ok_true by (fold (region_Size r); lia).
    unfold incrementFreeBlockId, setFreePointer, regionFreePointerOffset.
    assert (Hc3 : ∀ v, block_count
                        (poke (poke (poke r (slot r 0) (getFreePointer r))
                                 (slot r 0 + 8) size) 8 v) = 65536)
      by (intros v; rewrite !block_count_poke by (mem; lia); exact Hc).
    rewrite getNextFreeBlockId_gen by (rewrite Hc3; lia). run.
    rewrite Hc3. rewrite !r_id_poke.
    rewrite BlockId_BlockId_base, Z.mod_mod by lia.
    change (65536 mod 65536) with 0. rewrite Z.add_0_r. mem.
    reflexivity.
  - unfold block_count. mem.
    rewrite wrap64_idem. reflexivity.
Qed.

(** In a region large enough for 65537 one-byte blocks, the first 65536
    allocations receive the block indices 0 to 65535 and the next one
    receives the identifier of the first block again: the guard of
    [NewBlockId] (see C6) lets the counter value 65536 pass and the
    16-bit mask maps it to index 0. *)
Theorem block_index_wraps_after_65536 rid S :
  65536 * 17 + 40 <= S < 2 ^ 63 →
  ∃ blocks r1 first again r2,
    allocate_all (fresh_region rid S) (replicate (Z.to_nat 65536) 1)
    = Ret ((λ b, (Some b, None)) <$> blocks, r1)
    ∧ Z.of_nat (length blocks) = 65536
    ∧ blocks !! 0%nat = Some first
    ∧ region_Allocate r1 1 = Ret (Some again, None, r2)
    ∧ Id again = Id first
    ∧ block_count r2 = 1.
Proof.
  intros HS.
  pose proof (allocate_all_ids (replicate (Z.to_nat 65536) 1)
                (fresh_region rid S)) as H.
  rewrite region_Size_fresh, getFreePointer_fresh, block_count_fresh,
    r_id_fresh, length_replicate, foldr_add_replicate in H by lia.
  rewrite Z2Nat.id in H by lia.
  destruct H as (blocks & r1 & Hall & Hlen & Hids & HS1 & Hid1 & Hc1 & Hf1);
    try lia.
  { apply Forall_replicate. lia. }
  { apply fits_replicate; [lia|]. rewrite Z2Nat.id by lia. lia. }
  assert (Hlen' : Z.of_nat (length blocks) = 65536)
    by (rewrite Hlen; apply Z2Nat.id; lia).
  destruct (lookup_lt_is_Some_2 blocks 0%nat ltac:(lia)) as [first Hfirst].
  destruct (Hids _ _ Hfirst) as (Hidf & _).
  destruct (region_Allocate_at_65536 r1 1) as (r2 & Halloc & Hc2);
    rewrite ?HS1, ?Hf1, ?Hc1; try lia.
  exists blocks, r1, first,
    (mkBlock (r_id r1) (region_base (r_id r1)) 1 (getFreePointer r1)), r2.
  split; [exact Hall|]. split; [exact Hlen'|]. split; [exact Hfirst|].
  split; [exact Halloc|]. split; [|exact Hc2].
  cbn [Id]. rewrite Hidf, Hid1. change (Z.of_nat 0) with 0. lia.
Qed.

(** * Further properties of the code *)

(** ** Stores and the bytes they leave alone *)

Lemma le_write_lookup d off n v (k : nat) :
  (k < off ∨ off + n ≤ k)%nat → le_write d off n v !! k = d !! k.
Proof.
  revert d off v. induction n as [|n IH]; intros d off v Hk; [reflexivity|].
  cbn [le_write]. rewrite IH by lia.
  apply list_lookup_insert_ne. lia.
Qed.

Lemma poke_lookup r off v (p : nat) :
  0 <= off → Z.of_nat p < off ∨ off + 8 <= Z.of_nat p →
  r_d (poke r off v) !! p = r_d r !! p.
Proof.
  intros Hoff Hp. unfold poke, write_int64. cbn [r_d].
  apply le_write_lookup. lia.
Qed.

Lemma header_intact_poke r off v :
  header_intact r →
  off = regionFreePointerOffset ∨ regionHeaderSize <= off →
  header_intact (poke r off v).
Proof.
  intros (H1 & H2 & H3 & H4) Hoff.
  unfold regionFreePointerOffset, regionHeaderSize, regionSizeOffset,
    regionId in *.
  unfold header_intact, regionHeaderSize, regionSizeOffset, regionId.
  rewrite region_Size_poke, r_id_poke.
  rewrite !peek_poke_ne by lia.
  split; [exact H1|]. split; [|split; assumption].
  rewrite <- H2. apply list_eq. intros i.
  destruct (Nat.lt_ge_cases i 8) as [Hlt | Hge].
  - rewrite !lookup_take_lt by lia. apply poke_lookup; lia.
  - rewrite !lookup_take_ge by lia. reflexivity.
Qed.

(** ** BlockId: encoding and decoding *)

(** X1.  [RegionId] and [BlockId] decode what [NewBlockId] encodes: for a
    region index of 48 bits (signed) and a block index of 16 bits,
    [NewBlockId(rid, bid)] does not panic and the identifier it returns
    has region index [rid] and block index [bid]. *)
Theorem BlockId_decode_encode rid bid :
  - 2 ^ 47 <= rid < 2 ^ 47 → 0 <= bid <= 65535 →
  ∃ id, NewBlockId rid bid = Ret id
        ∧ - 2 ^ 63 <= id < 2 ^ 63
        ∧ BlockId_RegionId id = rid
        ∧ BlockId_BlockId id = bid.
Proof.
  intros Hr Hb. exists (region_base rid + bid).
  rewrite NewBlockId_eq by lia.
  rewrite Z.mod_small by lia.
  rewrite BlockId_RegionId_base by lia.
  rewrite BlockId_BlockId_small by lia.
  pose proof (region_base_bound rid).
  repeat split; lia.
Qed.

Lemma BlockId_decode_encode_witness :
  ∃ id, NewBlockId 3 7 = Ret id
        ∧ - 2 ^ 63 <= id < 2 ^ 63
        ∧ BlockId_RegionId id = 3
        ∧ BlockId_BlockId id = 7.
Proof. apply (BlockId_decode_encode 3 7); lia. Defined.

(** X2.  [NewBlockId] encodes what [RegionId] and [BlockId] decode: every
    [int64] identifier is rebuilt from its two components, without
    panic. *)
Theorem BlockId_encode_decode id :
  - 2 ^ 63 <= id < 2 ^ 63 →
  NewBlockId (BlockId_RegionId id) (BlockId_BlockId id) = Ret id.
Proof.
  intros Hid.
  pose proof (BlockId_BlockId_range id) as Hb.
  rewrite NewBlockId_eq by lia.
  unfold BlockId_RegionId, BlockId_BlockId, region_base.
  rewrite land_65535, Z.shiftr_div_pow2 by lia.
  change (2 ^ 16) with 65536.
  rewrite Z.mod_mod by lia.
  pose proof (Z.div_mod id 65536 ltac:(lia)) as Hdm.
  pose proof (Z.mod_pos_bound id 65536 ltac:(lia)) as Hm.
  rewrite wrap64_small by lia.
  f_equal. lia.
Qed.

Lemma BlockId_encode_decode_witness :
  NewBlockId (BlockId_RegionId 196615) (BlockId_BlockId 196615) = Ret 196615.
Proof. apply (BlockId_encode_decode 196615); lia. Defined.

(** X3.  The guard of [NewBlockId]: the call panics exactly when the
    block index is above 0xfffff (1048575).  Every other block index,
    negative ones included, is accepted and reduced modulo 65536: the
    identifier returned is the one of [bid mod 65536], and that is the
    block index it decodes to. *)
Theorem NewBlockId_guard rid bid :
  (NewBlockId rid bid = Panic ↔ 1048575 < bid)
  ∧ (bid <= 1048575 →
     ∃ id, NewBlockId rid bid = Ret id
           ∧ NewBlockId rid (bid mod 65536) = Ret id
           ∧ BlockId_BlockId id = bid mod 65536).
Proof.
  pose proof (Z.mod_pos_bound bid 65536 ltac:(lia)) as Hm.
  split.
  - split.
    + intros H. destruct (Z_lt_le_dec 1048575 bid) as [|Hle]; [assumption|].
      rewrite NewBlockId_eq in H by lia. discriminate.
    + apply NewBlockId_panic.
  - intros Hle. exists (region_base rid + bid mod 65536).
    rewrite !NewBlockId_eq by lia.
    rewrite Z.mod_mod by lia.
    rewrite BlockId_BlockId_small by lia.
    auto.
Qed.

(** ** Region: allocation, lookup and release *)

(** One successful [Allocate] on a well-formed region whose counter is
    below 65535, in terms of the stored fields. *)
Lemma alloc_step r size a :
  well_formed r → region_Available r = Ret a → 0 <= size <= a →
  block_count r < 65535 →
  region_Allocate r size
  = Ret (if size =? 0 then None
         else Some (mkBlock (r_id r) (region_base (r_id r) + block_count r)
                      size (getFreePointer r)),
         None, alloc_state r size)
  ∧ r_id (alloc_state r size) = r_id r
  ∧ region_Size (alloc_state r size) = region_Size r
  ∧ getFreePointer (alloc_state r size) = getFreePointer r + size
  ∧ block_count (alloc_state r size) = block_count r + 1
  ∧ well_formed (alloc_state r size)
  ∧ region_Available (alloc_state r size) = Ret (a - size - 16)
  ∧ entry (alloc_state r size) (block_count r) = (getFreePointer r, size)
  ∧ (∀ k, 0 <= k < block_count r →
          entry (alloc_state r size) k = entry r k)
  ∧ 16 <= slot r (block_count r).
Proof.
  intros Hwf Ha Hsz Hc.
  rewrite (well_formed_Available r Hwf) in Ha. injection Ha as Ha.
  pose proof Hwf as (HS & Hf & Hc'). unfold regionHeaderSize in Hf.
  assert (Hslot : 16 <= slot r (block_count r))
    by (unfold slot, blockListHeaderSize, blockListEntrySize; lia).
  assert (Hfp : getFreePointer (alloc_state r size) = getFreePointer r + size).
  { rewrite getFreePointer_alloc_state by lia. apply wrap64_small. lia. }
  assert (Hbc : block_count (alloc_state r size) = block_count r + 1).
  { rewrite block_count_alloc_state by lia. apply wrap64_small. lia. }
  assert (Hsize : region_Size (alloc_state r size) = region_Size r)
    by (apply region_Size_alloc_state).
  assert (Hwf' : well_formed (alloc_state r size)).
  { unfold well_formed. rewrite Hsize, Hfp, Hbc.
    unfold regionHeaderSize. lia. }
  split; [apply region_Allocate_success; lia|].
  split; [apply r_id_alloc_state|].
  split; [exact Hsize|]. split; [exact Hfp|]. split; [exact Hbc|].
  split; [exact Hwf'|].
  split.
  { rewrite (well_formed_Available _ Hwf'), Hsize, Hfp, Hbc.
    f_equal. lia. }
  split.
  { rewrite entry_alloc_state_same by lia.
    rewrite wrap64_small by lia. reflexivity. }
  split; [|exact Hslot].
  intros k Hk. apply entry_alloc_state_other; try lia.
  unfold slot, blockListHeaderSize, blockListEntrySize in *. lia.
Qed.

(** [GetBlock] in terms of the stored entry, for an identifier of the
    region below the counter. *)
Lemma region_GetBlock_slot r k :
  0 <= block_count r <= 65535 → 0 <= k < block_count r →
  0 <= slot r k →
  region_GetBlock r (region_base (r_id r) + k)
  = if (fst (entry r k) =? 0) || (snd (entry r k) =? 0) then Ret None
    else if slice_ok (r_d r) (fst (entry r k))
              (wrap64 (fst (entry r k) + snd (entry r k)))
         then Ret (Some (mkBlock (r_id r) (region_base (r_id r) + k)
                           (snd (entry r k)) (fst (entry r k))))
         else Panic.
Proof.
  intros Hc Hk Hs.
  rewrite region_GetBlock_eq by lia.
  replace ((region_base (r_id r) + k <? region_base (r_id r))
           || (region_base (r_id r) + k
               >=? region_base (r_id r) + block_count r))
    with false by lia.
  assert (Hb : BlockId_BlockId (region_base (r_id r) + k) = k)
    by (apply BlockId_BlockId_small; lia).
  rewrite rawGetBlock_eq by (rewrite Hb; lia).
  rewrite Hb. destruct (entry r k) as [o s]. reflexivity.
Qed.

Lemma region_GetBlock_outside r id :
  0 <= block_count r <= 65535 →
  id < region_base (r_id r) ∨ region_base (r_id r) + block_count r <= id →
  region_GetBlock r id = Ret None.
Proof.
  intros Hc Hid. rewrite region_GetBlock_eq by lia.
  replace ((id <? region_base (r_id r))
           || (id >=? region_base (r_id r) + block_count r))
    with true by lia.
  reflexivity.
Qed.

(** Two regions of the same size and id answer [GetBlock] alike for an
    identifier that is below both counters or below neither, and whose
    entry is the same in both. *)
Lemma region_GetBlock_ext_at r s id :
  r_id s = r_id r → region_Size s = region_Size r →
  0 <= block_count r <= 65535 → 0 <= block_count s <= 65535 →
  (id < region_base (r_id r) + block_count r
   ↔ id < region_base (r_id r) + block_count s) →
  entry s (id - region_base (r_id r)) = entry r (id - region_base (r_id r)) →
  region_GetBlock s id = region_GetBlock r id.
Proof.
  intros Hid Hsz Hc Hcs Hlt He.
  rewrite !region_GetBlock_eq by lia. rewrite Hid.
  replace (id >=? region_base (r_id r) + block_count s)
    with (id >=? region_base (r_id r) + block_count r) by lia.
  destruct ((id <? region_base (r_id r))
            || (id >=? region_base (r_id r) + block_count r)) eqn:E;
    [reflexivity|].
  apply rawGetBlock_ext; [assumption..|].
  assert (Hb : BlockId_BlockId id = id - region_base (r_id r)).
  { replace id with (region_base (r_id r) + (id - region_base (r_id r)))
      at 1 by lia.
    apply BlockId_BlockId_small. lia. }
  rewrite Hb. exact He.
Qed.

(** [GetBlock] finds the block an allocation has just stored. *)
Lemma region_GetBlock_alloc_new r size a :
  well_formed r → region_Available r = Ret a → 0 < size <= a →
  block_count r < 65535 →
  region_GetBlock (alloc_state r size)
    (region_base (r_id r) + block_count r)
  = Ret (Some (mkBlock (r_id r) (region_base (r_id r) + block_count r)
                 size (getFreePointer r))).
Proof.
  intros Hwf Ha Hsz Hc.
  destruct (alloc_step r size a Hwf Ha ltac:(lia) Hc)
    as (Hal & Hid & Hsize & Hfp & Hbc & Hwf' & Hav & He & _ & Hslot).
  pose proof Hwf as (HS & Hf & Hc'). unfold regionHeaderSize in Hf.
  rewrite (well_formed_Available r Hwf) in Ha. injection Ha as Ha.
  rewrite <- Hid at 1.
  rewrite region_GetBlock_slot;
    rewrite ?Hbc, ?(slot_same_size r _ _ Hsize); try lia.
  rewrite He. cbn [fst snd].
  replace (getFreePointer r =? 0) with false by lia.
  replace (size =? 0) with false by lia. cbn [orb].
  rewrite wrap64_small by lia.
  rewrite (slice_ok_same_size r _ _ _ Hsize).
  rewrite slice_ok_true by (fold (region_Size r); lia).
  rewrite Hid. reflexivity.
Qed.

(** [GetBlock] still finds, after an allocation, what it found before. *)
Lemma region_GetBlock_alloc_old r size a id b0 :
  well_formed r → region_Available r = Ret a → 0 <= size <= a →
  block_count r < 65535 →
  region_GetBlock r id = Ret (Some b0) →
  region_GetBlock (alloc_state r size) id = Ret (Some b0).
Proof.
  intros Hwf Ha Hsz Hc Hg.
  destruct (alloc_step r size a Hwf Ha Hsz Hc)
    as (Hal & Hid & Hsize & Hfp & Hbc & Hwf' & Hav & He & Hfr & Hslot).
  pose proof Hwf as (HS & Hf & Hc').
  assert (Hr : region_base (r_id r) <= id
               < region_base (r_id r) + block_count r).
  { rewrite region_GetBlock_eq in Hg by lia.
    destruct ((id <? region_base (r_id r))
              || (id >=? region_base (r_id r) + block_count r)) eqn:E;
      [discriminate|lia]. }
  rewrite <- Hg. apply region_GetBlock_ext_at; rewrite ?Hbc; auto; try lia.
  apply Hfr. lia.
Qed.

(** X4.  Bump allocation.  On a well-formed region whose counter is
    below 65535, [Allocate(size)] with [0 < size <= Available()] returns
    a block of [size] bytes that starts at the free pointer and carries
    the identifier of the next block index; the free pointer advances by
    [size], so the next block starts where this one ends;
    [Available()] drops by [size] plus the 16 bytes of the block-list
    entry; the region is well formed again; and [GetBlock] finds the
    block under its identifier. *)
Theorem region_Allocate_bump r size a :
  well_formed r → region_Available r = Ret a → 0 < size <= a →
  block_count r < 65535 →
  ∃ b r',
    region_Allocate r size = Ret (Some b, None, r')
    ∧ Region b = r_id r
    ∧ NewBlockId (r_id r) (block_count r) = Ret (Id b)
    ∧ Offset b = getFreePointer r ∧ Size b = size
    ∧ Z.of_nat (length (Block_Bytes r' b)) = size
    ∧ getFreePointer r' = Offset b + Size b
    ∧ region_Available r' = Ret (a - size - blockListEntrySize)
    ∧ well_formed r'
    ∧ region_GetBlock r' (Id b) = Ret (Some b).
Proof.
  intros Hwf Ha Hsz Hc.
  destruct (alloc_step r size a Hwf Ha ltac:(lia) Hc)
    as (Hal & Hid & Hsize & Hfp & Hbc & Hwf' & Hav & He & _ & Hslot).
  pose proof Hwf as (HS & Hf & Hc'). unfold regionHeaderSize in Hf.
  rewrite (well_formed_Available r Hwf) in Ha. injection Ha as Ha.
  replace (size =? 0) with false in Hal by lia.
  eexists _, _. split; [exact Hal|]. cbn [Region Id Offset Size].
  split; [reflexivity|].
  split; [rewrite NewBlockId_eq by lia; rewrite Z.mod_small by lia;
          reflexivity|].
  split; [reflexivity|]. split; [reflexivity|].
  split.
  { unfold Block_Bytes. cbn [Size Offset].
    rewrite length_take, length_drop.
    fold (region_Size (alloc_state r size)) in *.
    assert (H : Z.of_nat (length (r_d (alloc_state r size)))
                = region_Size r) by exact Hsize.
    lia. }
  split; [exact Hfp|]. split; [exact Hav|]. split; [exact Hwf'|].
  apply (region_GetBlock_alloc_new r size
           (region_Size r - getFreePointer r - 8 - 16 * block_count r));
    auto; try lia.
  apply well_formed_Available. exact Hwf.
Qed.

Lemma region_Allocate_bump_witness :
  ∃ b r',
    region_Allocate (fresh_region 0 MiB) 1000 = Ret (Some b, None, r')
    ∧ Region b = r_id (fresh_region 0 MiB)
    ∧ NewBlockId (r_id (fresh_region 0 MiB))
        (block_count (fresh_region 0 MiB)) = Ret (Id b)
    ∧ Offset b = getFreePointer (fresh_region 0 MiB) ∧ Size b = 1000
    ∧ Z.of_nat (length (Block_Bytes r' b)) = 1000
    ∧ getFreePointer r' = Offset b + Size b
    ∧ region_Available r' = Ret (MiB - 40 - 1000 - blockListEntrySize)
    ∧ well_formed r'
    ∧ region_GetBlock r' (Id b) = Ret (Some b).
Proof.
  apply (region_Allocate_bump (fresh_region 0 MiB) 1000 (MiB - 40)).
  - apply well_formed_fresh. unfold MiB. lia.
  - apply region_Available_fresh. unfold MiB. lia.
  - unfold MiB. lia.
  - rewrite block_count_fresh by (unfold MiB; lia). lia.
Defined.

(** Allocation followed by the release of the block, in terms of the
    stored fields. *)
Lemma alloc_free_step r size a :
  well_formed r → region_Available r = Ret a → 0 < size <= a →
  block_count r < 65535 →
  ∃ r2,
    region_Free (alloc_state r size)
      (mkBlock (r_id r) (region_base (r_id r) + block_count r) size
         (getFreePointer r)) = Ret (true, r2)
    ∧ r_id r2 = r_id r
    ∧ region_Size r2 = region_Size r
    ∧ getFreePointer r2 = getFreePointer r
    ∧ block_count r2 = block_count r
    ∧ well_formed r2
    ∧ region_Available r2 = Ret a
    ∧ (∀ k, 0 <= k < block_count r → entry r2 k = entry r k).
Proof.
  intros Hwf Ha Hsz Hc.
  destruct (alloc_step r size a Hwf Ha ltac:(lia) Hc)
    as (Hal & Hid & Hsize & Hfp & Hbc & Hwf' & Hav & He & Hfr & Hslot).
  pose proof Hwf as (HS & Hf & Hc'). unfold regionHeaderSize in Hf.
  set (r1 := alloc_state r size) in *.
  set (c := block_count r) in *.
  set (b := mkBlock (r_id r) (region_base (r_id r) + c) size
              (getFreePointer r)) in *.
  assert (Hk : BlockId_BlockId (Id b) = c)
    by (apply BlockId_BlockId_small; lia).
  assert (Hslot1 : 16 <= slot r1 c)
    by (rewrite (slot_same_size r r1 _ Hsize); exact Hslot).
  pose proof (region_Free_live r1 b) as Hfree. cbv zeta in Hfree.
  rewrite Hk, He, Hbc, Hid in Hfree. cbn [fst Id b] in Hfree.
  replace (region_base (r_id r) + (c + 1) - 1)
    with (region_base (r_id r) + c) in Hfree by lia.
  rewrite wrap64_region_id, Z.eqb_refl in Hfree by lia.
  specialize (Hfree Hslot1 ltac:(intros [= E _]; lia) ltac:(lia)).
  set (r2 := wind_back r1 c (getFreePointer r)) in *.
  assert (Hsize2 : region_Size r2 = region_Size r)
    by (unfold r2; rewrite region_Size_wind_back; exact Hsize).
  assert (Hfp2 : getFreePointer r2 = getFreePointer r).
  { unfold r2. rewrite getFreePointer_wind_back by lia.
    apply wrap64_small. lia. }
  assert (Hbc2 : block_count r2 = c).
  { unfold r2. rewrite block_count_wind_back by lia.
    apply wrap64_small. lia. }
  assert (Hwf2 : well_formed r2).
  { unfold well_formed. rewrite Hsize2, Hfp2, Hbc2.
    unfold regionHeaderSize. lia. }
  assert (Ha' : a = region_Size r - getFreePointer r - 8 - 16 * c).
  { rewrite (well_formed_Available r Hwf) in Ha. injection Ha as Ha. lia. }
  exists r2. split; [exact Hfree|]. split; [reflexivity|].
  split; [exact Hsize2|]. split; [exact Hfp2|]. split; [exact Hbc2|].
  split; [exact Hwf2|].
  split.
  { rewrite (well_formed_Available _ Hwf2), Hsize2, Hfp2, Hbc2.
    f_equal. lia. }
  intros k Hk'. unfold r2.
  rewrite entry_wind_back_other; try lia.
  - apply Hfr. lia.
  - rewrite (slot_same_size r r1 _ Hsize).
    unfold slot, blockListHeaderSize, blockListEntrySize in *. lia.
Qed.

(** X5.  Allocate, then free the block: the free pointer, the counter and
    [Available()] are what they were, [GetBlock] and [Blocks] answer as
    before the allocation, and the next [Allocate] of the same size
    hands out the same block (same identifier, same offset) again. *)
Theorem region_Allocate_Free_restores r size a :
  well_formed r → region_Available r = Ret a → 0 < size <= a →
  block_count r < 65535 →
  ∃ b r1 r2 r3,
    region_Allocate r size = Ret (Some b, None, r1)
    ∧ region_Free r1 b = Ret (true, r2)
    ∧ getFreePointer r2 = getFreePointer r
    ∧ block_count r2 = block_count r
    ∧ region_Available r2 = Ret a
    ∧ (∀ id, region_GetBlock r2 id = region_GetBlock r id)
    ∧ region_Blocks r2 = region_Blocks r
    ∧ region_Allocate r2 size = Ret (Some b, None, r3).
Proof.
  intros Hwf Ha Hsz Hc.
  destruct (alloc_step r size a Hwf Ha ltac:(lia) Hc) as (Hal & _).
  replace (size =? 0) with false in Hal by lia.
  destruct (alloc_free_step r size a Hwf Ha Hsz Hc)
    as (r2 & Hfree & Hid2 & Hsize2 & Hfp2 & Hbc2 & Hwf2 & Hav2 & He2).
  pose proof Hwf as (HS & Hf & Hc').
  destruct (alloc_step r2 size a Hwf2 Hav2 ltac:(lia) ltac:(lia))
    as (Hal2 & _).
  replace (size =? 0) with false in Hal2 by lia.
  rewrite Hid2, Hbc2, Hfp2 in Hal2.
  eexists _, _, r2, _.
  split; [exact Hal|]. split; [exact Hfree|].
  split; [exact Hfp2|]. split; [exact Hbc2|]. split; [exact Hav2|].
  split; [|split; [|exact Hal2]].
  - apply region_GetBlock_ext; auto; lia.
  - apply region_Blocks_ext; auto; lia.
Qed.

Lemma region_Allocate_Free_restores_witness :
  ∃ b r1 r2 r3,
    region_Allocate (fresh_region 0 MiB) 1000 = Ret (Some b, None, r1)
    ∧ region_Free r1 b = Ret (true, r2)
    ∧ getFreePointer r2 = getFreePointer (fresh_region 0 MiB)
    ∧ block_count r2 = block_count (fresh_region 0 MiB)
    ∧ region_Available r2 = Ret (MiB - 40)
    ∧ (∀ id, region_GetBlock r2 id
             = region_GetBlock (fresh_region 0 MiB) id)
    ∧ region_Blocks r2 = region_Blocks (fresh_region 0 MiB)
    ∧ region_Allocate r2 1000 = Ret (Some b, None, r3).
Proof.
  apply (region_Allocate_Free_restores (fresh_region 0 MiB) 1000 (MiB - 40)).
  - apply well_formed_fresh. unfold MiB. lia.
  - apply region_Available_fresh. unfold MiB. lia.
  - unfold MiB. lia.
  - rewrite block_count_fresh by (unfold MiB; lia). lia.
Defined.

(** ** Region: what [Blocks] lists *)

Lemma mapM_outcome_Ret_elem {A B} (f : A → outcome B) l ys x :
  mapM f l = Ret ys → x ∈ l → ∃ y, f x = Ret y ∧ y ∈ ys.
Proof.
  revert ys. induction l as [|a l IH]; intros ys H Hx.
  - inversion Hx.
  - cbn in H. destruct (f a) as [y0|] eqn:Ea; [|discriminate]. run.
    cbn in H. destruct (mapM f l) as [ys0|] eqn:El; [|discriminate].
    cbn in H. injection H as <-.
    apply elem_of_cons in Hx as [-> | Hx].
    + exists y0. split; [assumption|]. left.
    + destruct (IH ys0 eq_refl Hx) as (y & Hy & Hin).
      exists y. split; [assumption|]. right. assumption.
Qed.

Lemma mapM_outcome_total {A B} (f : A → outcome B) l :
  (∀ x, x ∈ l → ∃ y, f x = Ret y) → ∃ ys, mapM f l = Ret ys.
Proof.
  induction l as [|a l IH]; intros H.
  - exists []. reflexivity.
  - destruct (H a ltac:(left)) as (y & Hy).
    destruct IH as (ys & Hys); [intros x Hx; apply H; right; exact Hx|].
    exists (y :: ys). cbn. rewrite Hy. cbn. rewrite Hys. reflexivity.
Qed.

Lemma mapM_outcome_app {A B} (f : A → outcome B) l1 l2 :
  mapM f (l1 ++ l2)
  = ys1 ← mapM f l1; ys2 ← mapM f l2; mret (ys1 ++ ys2).
Proof.
  induction l1 as [|a l1 IH].
  - cbn. destruct (mapM f l2); reflexivity.
  - cbn. destruct (f a) as [y|]; [|reflexivity]. cbn.
    rewrite IH. destruct (mapM f l1) as [ys1|]; [|reflexivity]. cbn.
    destruct (mapM f l2); reflexivity.
Qed.

Lemma region_GetBlock_Some_range r id b :
  region_GetBlock r id = Ret (Some b) →
  ∃ lo max, NewBlockId (r_id r) 0 = Ret lo
            ∧ getNextFreeBlockId r = Ret max ∧ lo <= id < max.
Proof.
  unfold region_GetBlock. intros H.
  destruct (getNextFreeBlockId r) as [max|]; [|discriminate].
  destruct (NewBlockId (r_id r) 0) as [lo|]; [|discriminate].
  cbn in H.
  destruct ((id <? lo) || (id >=? max)) eqn:E; [discriminate|].
  exists lo, max. repeat split; lia.
Qed.

Lemma region_Blocks_iff r bs b :
  region_Blocks r = Ret bs →
  b ∈ bs ↔ region_GetBlock r (Id b) = Ret (Some b).
Proof.
  intros H. split; [apply region_Blocks_elem; exact H|].
  intros Hg.
  destruct (region_GetBlock_Some_range _ _ _ Hg)
    as (lo & max & Hlo & Hmax & Hr).
  unfold region_Blocks in H. rewrite Hmax, Hlo in H. cbn in H.
  destruct (max <? 0); [discriminate|].
  destruct (mapM (region_GetBlock r) (seqZ lo (max - lo))) as [bs0|] eqn:Em;
    [|discriminate].
  cbn in H. injection H as <-.
  destruct (mapM_outcome_Ret_elem _ _ _ (Id b) Em) as (y & Hy & Hin).
  { apply elem_of_seqZ. lia. }
  rewrite Hg in Hy. injection Hy as <-.
  apply list_elem_of_omap. exists (Some b). auto.
Qed.

Lemma region_Blocks_fresh rid S :
  40 <= S → 0 <= region_base rid →
  region_Blocks (fresh_region rid S) = Ret [].
Proof.
  intros HS Hb. unfold region_Blocks.
  rewrite getNextFreeBlockId_eq
    by (rewrite block_count_fresh by lia; lia).
  rewrite block_count_fresh, r_id_fresh by lia. run.
  replace (region_base rid + 0 <? 0) with false by lia.
  rewrite NewBlockId_eq by lia. run.
  replace (region_base rid + 0 - (region_base rid + 0 mod 65536)) with 0
    by (rewrite Z.mod_0_l by lia; lia).
  reflexivity.
Qed.

Lemma mapM_outcome_ext_elem {A B} (f g : A → outcome B) l :
  (∀ x, x ∈ l → f x = g x) → mapM f l = mapM g l.
Proof.
  induction l as [|a l IH]; intros H; [reflexivity|].
  cbn. rewrite (H a) by left.
  rewrite IH by (intros x Hx; apply H; right; exact Hx).
  reflexivity.
Qed.

(** [Blocks] on a region whose counter is a block index and whose
    identifiers are not negative: the blocks [GetBlock] finds under the
    identifiers below the counter, in order. *)
Lemma region_Blocks_eq r :
  0 <= block_count r <= 65535 → 0 <= region_base (r_id r) →
  region_Blocks r
  = bs ← mapM (region_GetBlock r)
            (seqZ (region_base (r_id r)) (block_count r));
    mret (omap (λ b, b) bs).
Proof.
  intros Hc Hb. unfold region_Blocks.
  rewrite getNextFreeBlockId_eq by lia. run.
  replace (region_base (r_id r) + block_count r <? 0) with false by lia.
  rewrite NewBlockId_eq by lia. run.
  rewrite Z.mod_0_l by lia.
  replace (region_base (r_id r) + block_count r - (region_base (r_id r) + 0))
    with (block_count r) by lia.
  rewrite Z.add_0_r. reflexivity.
Qed.

(** [Blocks] after one more allocation: the new block comes last. *)
Lemma region_Blocks_alloc r size a bs :
  well_formed r → region_Available r = Ret a → 0 < size <= a →
  block_count r < 65535 → 0 <= region_base (r_id r) →
  region_Blocks r = Ret bs →
  region_Blocks (alloc_state r size)
  = Ret (bs ++ [mkBlock (r_id r) (region_base (r_id r) + block_count r)
                  size (getFreePointer r)]).
Proof.
  intros Hwf Ha Hsz Hc Hb Hbs.
  pose proof (region_GetBlock_alloc_new r size a Hwf Ha Hsz Hc) as Hget.
  destruct (alloc_step r size a Hwf Ha ltac:(lia) Hc)
    as (Hal & Hid & Hsize & Hfp & Hbc & Hwf' & Hav & He & Hfr & Hslot).
  pose proof Hwf as (HS & Hf & Hc').
  rewrite region_Blocks_eq in Hbs by lia.
  rewrite region_Blocks_eq by (rewrite ?Hbc, ?Hid; lia).
  rewrite Hid, Hbc, seqZ_app, mapM_outcome_app by lia.
  rewrite (mapM_outcome_ext_elem (region_GetBlock (alloc_state r size))
             (region_GetBlock r)
             (seqZ (region_base (r_id r)) (block_count r))).
  2:{ intros x Hx. apply elem_of_seqZ in Hx.
      apply region_GetBlock_ext_at; rewrite ?Hbc; auto; try lia.
      apply Hfr. lia. }
  destruct (mapM (region_GetBlock r) _) as [bs0|]; [|discriminate].
  cbn in Hbs. injection Hbs as <-. run.
  change (seqZ (region_base (r_id r) + block_count r) 1)
    with [0 + (region_base (r_id r) + block_count r)].
  rewrite Z.add_0_l. cbn [mapM]. rewrite Hget. run.
  rewrite omap_app. reflexivity.
Qed.

Lemma region_Blocks_alloc_fresh rid S size :
  40 <= S < 2 ^ 63 → 0 < size <= S - 40 → 0 <= region_base rid →
  region_Blocks (alloc_state (fresh_region rid S) size)
  = Ret [mkBlock rid (region_base rid) size 32].
Proof.
  intros HS Hsz Hb.
  pose proof (region_Blocks_alloc (fresh_region rid S) size (S - 40) []) as H.
  rewrite r_id_fresh, block_count_fresh, getFreePointer_fresh, Z.add_0_r
    in H by lia.
  apply H; try lia.
  - apply well_formed_fresh. lia.
  - apply region_Available_fresh. lia.
  - apply region_Blocks_fresh; lia.
Qed.

(** X6.  [Blocks] and [GetBlock] agree: when [Blocks()] returns, a block
    is in the list exactly when [GetBlock] of its identifier returns that
    block. *)
Theorem region_Blocks_agrees_with_GetBlock r bs b :
  region_Blocks r = Ret bs →
  b ∈ bs ↔ region_GetBlock r (Id b) = Ret (Some b).
Proof. apply region_Blocks_iff. Qed.

Lemma region_Blocks_agrees_with_GetBlock_witness :
  mkBlock 0 0 1000 32 ∈ [mkBlock 0 0 1000 32]
  ↔ region_GetBlock (alloc_state (fresh_region 0 MiB) 1000)
      (Id (mkBlock 0 0 1000 32))
    = Ret (Some (mkBlock 0 0 1000 32)).
Proof.
  apply (region_Blocks_agrees_with_GetBlock
           (alloc_state (fresh_region 0 MiB) 1000)
           [mkBlock 0 0 1000 32] (mkBlock 0 0 1000 32)).
  pose proof (region_Blocks_alloc_fresh 0 MiB 1000) as H.
  rewrite region_base_0 in H. apply H; unfold MiB; lia.
Defined.

(** X7.  [Free] removes the block from the region's lookups.  For a
    block index below the counter of a well-formed region whose slot
    holds a live entry, the block list in use lying above the header,
    [Free] returns true; afterwards [GetBlock] of the block's identifier
    in this region returns nil, every other identifier is answered as
    before, and [Blocks()] lists the blocks it listed before except that
    one. *)
Theorem region_Free_removes r b bs :
  well_formed r →
  0 <= BlockId_BlockId (Id b) < block_count r →
  regionHeaderSize <= block_list_bottom r →
  entry r (BlockId_BlockId (Id b)) ≠ (0, 0) →
  region_Blocks r = Ret bs → 0 <= region_base (r_id r) →
  ∃ r' bs',
    region_Free r b = Ret (true, r')
    ∧ region_GetBlock r' (region_base (r_id r) + BlockId_BlockId (Id b))
      = Ret None
    ∧ (∀ id, id ≠ region_base (r_id r) + BlockId_BlockId (Id b) →
             region_GetBlock r' id = region_GetBlock r id)
    ∧ region_Blocks r' = Ret bs'
    ∧ ∀ x, x ∈ bs'
           ↔ x ∈ bs
             ∧ Id x ≠ region_base (r_id r) + BlockId_BlockId (Id b).
Proof.
  intros Hwf Hk Hslot He Hbs Hbase.
  set (k := BlockId_BlockId (Id b)) in *.
  set (base := region_base (r_id r)) in *.
  pose proof Hwf as (HS & Hf & Hc). unfold regionHeaderSize in Hf, Hslot.
  assert (Hothers : ∀ k', 0 <= k' < block_count r → 32 <= slot r k').
  { intros k' Hk'.
    unfold block_list_bottom, slot, blockListHeaderSize, blockListEntrySize
      in *.
    lia. }
  pose proof (Hothers k Hk) as Hslotk.
  pose proof (region_Free_live r b) as Hfree. cbv zeta in Hfree.
  fold k base in Hfree.
  specialize (Hfree ltac:(lia) He Hc).
  (* the region after the call, in both cases *)
  assert (Hr' : ∃ r', region_Free r b = Ret (true, r')
            ∧ r_id r' = r_id r ∧ region_Size r' = region_Size r
            ∧ 0 <= block_count r' <= 65535
            ∧ (block_count r' = block_count r
               ∨ (block_count r' = k ∧ k = block_count r - 1))
            ∧ entry r' k = (0, 0)
            ∧ ∀ k', 0 <= k' < block_count r → k' ≠ k →
                    entry r' k' = entry r k').
  { destruct (Id b =? wrap64 (base + block_count r - 1)) eqn:E.
    - exists (wind_back r k (fst (entry r k))).
      assert (Hkc : k = block_count r - 1).
      { apply Z.eqb_eq in E.
        replace (base + block_count r - 1)
          with (base + (block_count r - 1)) in E by lia.
        unfold base in E. rewrite wrap64_region_id in E by lia.
        unfold k. rewrite E. apply BlockId_BlockId_small. lia. }
      split; [exact Hfree|]. split; [reflexivity|].
      split; [apply region_Size_wind_back|].
      rewrite block_count_wind_back by lia.
      rewrite wrap64_small by lia.
      split; [lia|]. split; [right; split; [reflexivity|exact Hkc]|].
      split; [apply entry_wind_back_same; lia|].
      intros k' Hk' Hne. apply entry_wind_back_other; try lia.
      pose proof (Hothers k' Hk'). lia.
    - exists (zero_entry r k).
      split; [exact Hfree|]. split; [reflexivity|].
      split; [apply region_Size_zero_entry|].
      rewrite block_count_zero_entry by lia.
      split; [lia|]. split; [left; reflexivity|].
      split; [apply entry_zero_entry_same; lia|].
      intros k' Hk' Hne. apply entry_zero_entry_other; try lia.
      pose proof (Hothers k' Hk'). lia. }
  destruct Hr' as (r' & Hfr & Hid & Hsize & Hc' & Hcount & He0 & Hrest).
  assert (Hnone : region_GetBlock r' (base + k) = Ret None).
  { destruct Hcount as [Hsame | [Hk1 Hk2]].
    - unfold base. rewrite <- Hid.
      rewrite region_GetBlock_slot;
        rewrite ?Hsame, ?(slot_same_size r r' _ Hsize); try lia.
      rewrite He0. reflexivity.
    - apply region_GetBlock_outside; rewrite ?Hid; fold base; lia. }
  assert (Hother : ∀ id, id ≠ base + k →
            region_GetBlock r' id = region_GetBlock r id).
  { intros id Hne.
    destruct (Z_lt_le_dec id base) as [Hlo | Hlo].
    { rewrite !region_GetBlock_outside; rewrite ?Hid; fold base; auto; lia. }
    destruct (Z_lt_le_dec id (base + block_count r)) as [Hhi | Hhi].
    2:{ rewrite !region_GetBlock_outside; rewrite ?Hid; fold base; auto;
          lia. }
    apply region_GetBlock_ext_at; fold base; auto; try lia.
    apply Hrest; lia. }
  assert (Htot : ∃ bs', region_Blocks r' = Ret bs').
  { rewrite region_Blocks_eq by (rewrite ?Hid; fold base; lia).
    rewrite region_Blocks_eq in Hbs by (fold base; lia).
    destruct (mapM (region_GetBlock r) _) as [bs0|] eqn:Em; [|discriminate].
    destruct (mapM_outcome_total (region_GetBlock r')
                (seqZ (region_base (r_id r')) (block_count r')))
      as (ys & Hys).
    { intros x Hx. apply elem_of_seqZ in Hx. rewrite Hid in Hx.
      fold base in Hx.
      destruct (Z.eq_dec x (base + k)) as [-> | Hne].
      - exists None. exact Hnone.
      - rewrite (Hother x Hne).
        destruct (mapM_outcome_Ret_elem _ _ _ x Em) as (y & Hy & _).
        + apply elem_of_seqZ. fold base. lia.
        + exists y. exact Hy. }
    rewrite Hys. run. eauto. }
  destruct Htot as (bs' & Hbs').
  exists r', bs'. split; [exact Hfr|]. split; [exact Hnone|].
  split; [exact Hother|]. split; [exact Hbs'|].
  intros x. rewrite (region_Blocks_iff r' bs' x Hbs').
  rewrite (region_Blocks_iff r bs x Hbs).
  destruct (Z.eq_dec (Id x) (base + k)) as [Heq | Hne].
  - rewrite Heq, Hnone. split; [discriminate|]. intros [_ H]. lia.
  - rewrite (Hother _ Hne). tauto.
Qed.

Lemma region_Free_removes_witness :
  ∃ r' bs',
    region_Free (alloc_state (fresh_region 0 MiB) 1000)
      (mkBlock 0 0 1000 32) = Ret (true, r')
    ∧ region_GetBlock r'
        (region_base (r_id (alloc_state (fresh_region 0 MiB) 1000))
         + BlockId_BlockId (Id (mkBlock 0 0 1000 32)))
      = Ret None
    ∧ (∀ id,
         id ≠ region_base (r_id (alloc_state (fresh_region 0 MiB) 1000))
              + BlockId_BlockId (Id (mkBlock 0 0 1000 32)) →
         region_GetBlock r' id
         = region_GetBlock (alloc_state (fresh_region 0 MiB) 1000) id)
    ∧ region_Blocks r' = Ret bs'
    ∧ ∀ x, x ∈ bs'
           ↔ x ∈ [mkBlock 0 0 1000 32]
             ∧ Id x ≠ region_base
                        (r_id (alloc_state (fresh_region 0 MiB) 1000))
                      + BlockId_BlockId (Id (mkBlock 0 0 1000 32)).
Proof.
  assert (HS : 40 <= MiB < 2 ^ 63) by (unfold MiB; lia).
  assert (Hsz : 0 <= 1000 <= MiB - 40) by (unfold MiB; lia).
  apply (region_Free_removes (alloc_state (fresh_region 0 MiB) 1000)
           (mkBlock 0 0 1000 32) [mkBlock 0 0 1000 32]).
  - apply well_formed_alloc_fresh; assumption.
  - rewrite block_count_alloc_fresh by assumption.
    change (BlockId_BlockId (Id (mkBlock 0 0 1000 32))) with 0. lia.
  - unfold block_list_bottom.
    rewrite region_Size_alloc_fresh, block_count_alloc_fresh by assumption.
    unfold regionHeaderSize, blockListHeaderSize, blockListEntrySize, MiB.
    lia.
  - change (BlockId_BlockId (Id (mkBlock 0 0 1000 32))) with 0.
    rewrite entry_alloc_fresh by assumption. discriminate.
  - pose proof (region_Blocks_alloc_fresh 0 MiB 1000) as H.
    rewrite region_base_0 in H. apply H; unfold MiB; lia.
  - change (r_id (alloc_state (fresh_region 0 MiB) 1000)) with 0.
    rewrite region_base_0. lia.
Defined.

(** A run of allocations on one region. *)
Lemma allocate_all_run sizes :
  ∀ r a bs,
    well_formed r → region_Available r = Ret a →
    0 <= region_base (r_id r) → region_Blocks r = Ret bs →
    Forall (λ size, 0 < size) sizes → fits a sizes →
    block_count r + Z.of_nat (length sizes) <= 65535 →
    ∃ blocks r',
      allocate_all r sizes = Ret ((λ b, (Some b, None)) <$> blocks, r')
      ∧ Size <$> blocks = sizes
      ∧ (∀ i b, blocks !! i = Some b →
                Offset b = getFreePointer r + foldr Z.add 0 (take i sizes))
      ∧ region_Blocks r' = Ret (bs ++ blocks)
      ∧ well_formed r'
      ∧ r_id r' = r_id r ∧ region_Size r' = region_Size r
      ∧ (fits (a - blockListEntrySize) sizes → header_intact r →
         header_intact r').
Proof.
  induction sizes as [|size sizes IH]; intros r a bs Hwf Ha Hb Hbs Hpos Hfit Hn.
  - exists [], r. rewrite app_nil_r.
    split; [reflexivity|]. split; [reflexivity|].
    split; [intros i b H; inversion H|]. split; [exact Hbs|].
    split; [exact Hwf|]. auto.
  - apply Forall_cons in Hpos as [Hsz Hpos].
    cbn [fits] in Hfit. destruct Hfit as [Hle Hfit].
    cbn [length] in Hn.
    assert (Hc : block_count r < 65535) by lia.
    destruct (alloc_step r size a Hwf Ha ltac:(lia) Hc)
      as (Hal & Hid & Hsize & Hfp & Hbc & Hwf' & Hav & He & Hfr & Hslot).
    replace (size =? 0) with false in Hal by lia.
    pose proof (region_Blocks_alloc r size a bs Hwf Ha ltac:(lia) Hc Hb Hbs)
      as Hbs'.
    unfold blockListEntrySize in Hfit.
    destruct (IH (alloc_state r size) (a - size - 16) _ Hwf' Hav
                ltac:(rewrite Hid; exact Hb) Hbs' Hpos Hfit
                ltac:(rewrite Hbc; lia))
      as (blocks & r' & Hall & Hsizes & Hoff & Hbl & Hwf'' & Hid' & Hsize'
          & Hhdr).
    eexists (_ :: blocks), r'.
    split; [|split; [|split; [|split; [|split; [|split; [|split]]]]]].
    + cbn [allocate_all]. rewrite Hal. run. rewrite Hall. reflexivity.
    + cbn. rewrite Hsizes. reflexivity.
    + intros [|i] b H.
      * injection H as <-. cbn. lia.
      * cbn in H. rewrite (Hoff i b H), Hfp. cbn. lia.
    + rewrite Hbl, <- app_assoc. reflexivity.
    + exact Hwf''.
    + congruence.
    + congruence.
    + unfold blockListEntrySize. cbn [fits]. intros [Hle' Hfit'] Hh.
      apply Hhdr.
      * replace (a - size - 16 - blockListEntrySize)
          with (a - 16 - size - 16) by (unfold blockListEntrySize; lia).
        exact Hfit'.
      * pose proof Hwf as (HS & Hf & Hc'). unfold regionHeaderSize in Hf.
        rewrite (well_formed_Available r Hwf) in Ha. injection Ha as Ha.
        assert (Hs32 : 32 <= slot r (block_count r))
          by (unfold slot, blockListHeaderSize, blockListEntrySize; lia).
        pose proof (slot_bounds r _ (proj1 Hc')) as Hb'.
        unfold alloc_state.
        repeat apply header_intact_poke; auto;
          unfold regionHeaderSize, regionFreePointerOffset; lia.
Qed.

(** X8.  [Blocks] after a run of allocations.  Let requests of positive
    size be allocated one after the other on a well-formed region with
    non-negative identifiers, each fitting what is available when it is
    made, the counter staying within 65535.  Every call returns a block
    of the requested size; the blocks lie back to back from the free
    pointer on, in the order of the calls; and [Blocks()] then lists the
    blocks it listed before followed by the new ones, in that order. *)
Theorem region_Blocks_after_allocations sizes r a bs :
  well_formed r → region_Available r = Ret a →
  0 <= region_base (r_id r) → region_Blocks r = Ret bs →
  Forall (λ size, 0 < size) sizes → fits a sizes →
  block_count r + Z.of_nat (length sizes) <= 65535 →
  ∃ blocks r',
    allocate_all r sizes = Ret ((λ b, (Some b, None)) <$> blocks, r')
    ∧ Size <$> blocks = sizes
    ∧ (∀ i b, blocks !! i = Some b →
              Offset b = getFreePointer r + foldr Z.add 0 (take i sizes))
    ∧ region_Blocks r' = Ret (bs ++ blocks)
    ∧ well_formed r'.
Proof.
  intros Hwf Ha Hb Hbs Hpos Hfit Hn.
  destruct (allocate_all_run sizes r a bs Hwf Ha Hb Hbs Hpos Hfit Hn)
    as (blocks & r' & H1 & H2 & H3 & H4 & H5 & _).
  exists blocks, r'. auto.
Qed.

Lemma region_Blocks_after_allocations_witness :
  ∃ blocks r',
    allocate_all (fresh_region 0 MiB) [1000; 24; 7]
    = Ret ((λ b, (Some b, None)) <$> blocks, r')
    ∧ Size <$> blocks = [1000; 24; 7]
    ∧ (∀ i b, blocks !! i = Some b →
              Offset b = getFreePointer (fresh_region 0 MiB)
                         + foldr Z.add 0 (take i [1000; 24; 7]))
    ∧ region_Blocks r' = Ret ([] ++ blocks)
    ∧ well_formed r'.
Proof.
  apply (region_Blocks_after_allocations [1000; 24; 7]
           (fresh_region 0 MiB) (MiB - 40) []).
  - apply well_formed_fresh. unfold MiB. lia.
  - apply region_Available_fresh. unfold MiB. lia.
  - change (r_id (fresh_region 0 MiB)) with 0. rewrite region_base_0. lia.
  - apply region_Blocks_fresh; [unfold MiB; lia|].
    rewrite region_base_0. lia.
  - repeat constructor.
  - cbn [fits]. unfold MiB, blockListEntrySize. lia.
  - rewrite block_count_fresh by (unfold MiB; lia). cbn [length]. lia.
Defined.

(** ** The bytes of a block *)

(** The stores of [Allocate] and of [Free] leave the bytes between the
    free-pointer field and the entry they write as they are. *)
Lemma alloc_state_lookup r size (p : nat) :
  0 <= block_count r →
  16 <= Z.of_nat p < slot r (block_count r) →
  r_d (alloc_state r size) !! p = r_d r !! p.
Proof.
  intros Hc Hp. pose proof (slot_bounds r _ Hc) as Hb.
  unfold alloc_state, regionFreePointerOffset.
  rewrite !poke_lookup; rewrite ?region_Size_poke; try lia.
  reflexivity.
Qed.

Lemma zero_entry_lookup r k (p : nat) :
  0 <= k → 0 <= Z.of_nat p < slot r k →
  r_d (zero_entry r k) !! p = r_d r !! p.
Proof.
  intros Hk Hp. unfold zero_entry.
  rewrite !poke_lookup; try lia. reflexivity.
Qed.

Lemma wind_back_lookup r k offset (p : nat) :
  0 <= k → 16 <= Z.of_nat p < slot r k →
  r_d (wind_back r k offset) !! p = r_d r !! p.
Proof.
  intros Hk Hp. pose proof (slot_bounds r _ Hk) as Hb.
  unfold wind_back, regionFreePointerOffset.
  rewrite !poke_lookup; rewrite ?region_Size_poke; try lia.
  apply zero_entry_lookup; lia.
Qed.

Lemma Block_Bytes_lookup r b (i : nat) :
  Z.of_nat i < Size b →
  Block_Bytes r b !! i = r_d r !! (Z.to_nat (Offset b) + i)%nat.
Proof.
  intros Hi. unfold Block_Bytes.
  rewrite lookup_take_lt by lia. apply lookup_drop.
Qed.

Lemma Block_Bytes_ext r s b :
  0 <= Offset b →
  (∀ p : nat, Offset b <= Z.of_nat p < Offset b + Size b →
              r_d s !! p = r_d r !! p) →
  Block_Bytes s b = Block_Bytes r b.
Proof.
  intros Ho H. apply list_eq. intros i.
  destruct (Z_lt_le_dec (Z.of_nat i) (Size b)) as [Hi | Hi].
  - rewrite !Block_Bytes_lookup by assumption. apply H. lia.
  - unfold Block_Bytes. rewrite !lookup_take_ge by lia. reflexivity.
Qed.

(** The region after a client has stored a byte at position [p]. *)
Lemma store_byte_facts r (p : nat) v :
  0 <= block_count r <= 65535 →
  regionHeaderSize <= Z.of_nat p < block_list_bottom r →
  let r' := mkRegion (r_id r) (<[p := v]> (r_d r)) in
  region_Size r' = region_Size r
  ∧ getFreePointer r' = getFreePointer r
  ∧ block_count r' = block_count r
  ∧ (∀ k, 0 <= k < block_count r → entry r' k = entry r k)
  ∧ (header_intact r → header_intact r').
Proof.
  intros Hc Hp r'.
  unfold regionHeaderSize, block_list_bottom, blockListHeaderSize,
    blockListEntrySize in Hp.
  assert (Hsz : region_Size r' = region_Size r)
    by apply region_Size_store_byte.
  assert (Hpk : ∀ off, 0 <= off →
            off + 8 <= Z.of_nat p ∨ Z.of_nat p < off →
            peek r' off = peek r off).
  { intros off H0 H1. unfold r'.
    rewrite <- (Nat2Z.id p). apply peek_store_byte; lia. }
  split; [exact Hsz|].
  split; [apply Hpk; unfold regionFreePointerOffset; lia|].
  split; [unfold block_count; rewrite Hsz; apply Hpk; lia|].
  split.
  - intros k Hk. unfold entry. rewrite (slot_same_size r r' _ Hsz).
    unfold slot, blockListHeaderSize, blockListEntrySize.
    rewrite !Hpk by lia. reflexivity.
  - intros (H1 & H2 & H3 & H4). unfold header_intact.
    rewrite Hsz.
    unfold regionSizeOffset, regionId in *.
    rewrite !Hpk by lia.
    split; [exact H1|]. split; [|split; [exact H3|exact H4]].
    unfold r'. cbn [r_d]. rewrite take_insert_ge by lia. exact H2.
Qed.

(** X9.  A store of a client into a block stays in the block.  For a
    block that lies in the data area (between the header and the block
    list in use), [b.Bytes[i] = v] changes byte [i] of the block and
    nothing else that the package reads: the other bytes of the block and
    the bytes of every block that does not overlap it are unchanged, and
    so are the free pointer, the counter, the header fields, and the
    answers of [GetBlock], [Blocks] and [Available]. *)
Theorem Block_store_isolated r b i v r' :
  0 <= block_count r <= 65535 →
  in_data_area r (Offset b) (Size b) →
  Block_store r b i v = Ret r' →
  Block_Bytes r' b !! Z.to_nat i = Some (v mod 256)
  ∧ (∀ j : nat, Z.of_nat j ≠ i →
                Block_Bytes r' b !! j = Block_Bytes r b !! j)
  ∧ (∀ b', 0 <= Offset b' →
           Offset b' + Size b' <= Offset b
           ∨ Offset b + Size b <= Offset b' →
           Block_Bytes r' b' = Block_Bytes r b')
  ∧ getFreePointer r' = getFreePointer r
  ∧ block_count r' = block_count r
  ∧ (∀ id, region_GetBlock r' id = region_GetBlock r id)
  ∧ region_Blocks r' = region_Blocks r
  ∧ region_Available r' = region_Available r
  ∧ (header_intact r → header_intact r').
Proof.
  intros Hc [Hlo Hhi] Hst.
  apply Block_store_shape in Hst as [Hi ->].
  set (p := Z.to_nat (Offset b + i)).
  unfold regionHeaderSize in Hlo.
  assert (Hp : regionHeaderSize <= Z.of_nat p < block_list_bottom r)
    by (unfold regionHeaderSize, p; lia).
  destruct (store_byte_facts r p (v mod 256) Hc Hp)
    as (Hsz & Hfp & Hbc & He & Hh).
  set (r' := mkRegion (r_id r) (<[p := v mod 256]> (r_d r))) in *.
  assert (Hlen : (p < length (r_d r))%nat).
  { unfold block_list_bottom, blockListHeaderSize, blockListEntrySize in Hp.
    unfold region_Size in Hp. lia. }
  split.
  { rewrite Block_Bytes_lookup by lia.
    replace (Z.to_nat (Offset b) + Z.to_nat i)%nat with p by (unfold p; lia).
    apply list_lookup_insert_eq. exact Hlen. }
  split.
  { intros j Hj.
    destruct (Z_lt_le_dec (Z.of_nat j) (Size b)) as [Hlt | Hge].
    - rewrite !Block_Bytes_lookup by assumption.
      apply list_lookup_insert_ne. unfold p. lia.
    - unfold Block_Bytes. rewrite !lookup_take_ge by lia. reflexivity. }
  split.
  { intros b' Ho Hdis. apply Block_Bytes_ext; [assumption|].
    intros q Hq. apply list_lookup_insert_ne. unfold p. lia. }
  split; [exact Hfp|]. split; [exact Hbc|].
  split; [|split; [|split; [|exact Hh]]].
  - apply region_GetBlock_ext; auto.
  - apply region_Blocks_ext; auto.
  - unfold region_Available.
    rewrite (getNextFreeBlockId_ext r r') by auto.
    rewrite Hsz, Hfp. reflexivity.
Qed.

Lemma Block_store_isolated_witness :
  ∃ r', Block_store (alloc_state (fresh_region 0 MiB) 1000)
          (mkBlock 0 0 1000 32) 5 255 = Ret r'
        ∧ Block_Bytes r' (mkBlock 0 0 1000 32) !! Z.to_nat 5
          = Some (255 mod 256)
        ∧ getFreePointer r'
          = getFreePointer (alloc_state (fresh_region 0 MiB) 1000)
        ∧ block_count r'
          = block_count (alloc_state (fresh_region 0 MiB) 1000).
Proof.
  assert (HS : 40 <= MiB < 2 ^ 63) by (unfold MiB; lia).
  assert (Hsz : 0 <= 1000 <= MiB - 40) by (unfold MiB; lia).
  exists (mkRegion (r_id (alloc_state (fresh_region 0 MiB) 1000))
            (<[Z.to_nat (Offset (mkBlock 0 0 1000 32) + 5) := 255 mod 256]>
               (r_d (alloc_state (fresh_region 0 MiB) 1000)))).
  split; [reflexivity|].
  destruct (Block_store_isolated (alloc_state (fresh_region 0 MiB) 1000)
              (mkBlock 0 0 1000 32) 5 255
              (mkRegion (r_id (alloc_state (fresh_region 0 MiB) 1000))
                 (<[Z.to_nat (Offset (mkBlock 0 0 1000 32) + 5)
                    := 255 mod 256]>
                    (r_d (alloc_state (fresh_region 0 MiB) 1000)))))
    as (H1 & _ & _ & H4 & H5 & _); [| |reflexivity|].
  - rewrite block_count_alloc_fresh by assumption. lia.
  - unfold in_data_area, block_list_bottom. cbn [Offset Size].
    rewrite region_Size_alloc_fresh, block_count_alloc_fresh by assumption.
    unfold regionHeaderSize, blockListHeaderSize, blockListEntrySize, MiB.
    lia.
  - split; [exact H1|]. split; [exact H4|exact H5].
Defined.

(** X10.  [Free] and [Allocate] do not clear the bytes of a block.
    Allocate a block with room to spare for its entry, store a byte in
    it, free it and allocate the same size again: the same block comes
    back, and the byte stored before the [Free] is still there. *)
Theorem freed_block_keeps_its_bytes r size a i v :
  well_formed r → region_Available r = Ret a →
  0 < size <= a - blockListEntrySize → block_count r < 65535 →
  0 <= i < size →
  ∃ b r1 r2 r3 r4,
    region_Allocate r size = Ret (Some b, None, r1)
    ∧ Block_store r1 b i v = Ret r2
    ∧ region_Free r2 b = Ret (true, r3)
    ∧ region_Allocate r3 size = Ret (Some b, None, r4)
    ∧ Block_Bytes r4 b !! Z.to_nat i = Some (v mod 256).
Proof.
  intros Hwf Ha Hsz Hc Hi. unfold blockListEntrySize in Hsz.
  destruct (alloc_step r size a Hwf Ha ltac:(lia) Hc)
    as (Hal & Hid & Hsize & Hfp & Hbc & Hwf' & Hav & He & Hfr & Hslot).
  pose proof Hwf as (HS & Hf & Hc'). unfold regionHeaderSize in Hf.
  replace (size =? 0) with false in Hal by lia.
  assert (Ha' : a = region_Size r - getFreePointer r - 8 - 16 * block_count r).
  { rewrite (well_formed_Available r Hwf) in Ha. injection Ha as Ha. lia. }
  set (r1 := alloc_state r size) in *.
  set (c := block_count r) in *.
  set (f := getFreePointer r) in *.
  set (b := mkBlock (r_id r) (region_base (r_id r) + c) size f) in *.
  set (p := Z.to_nat (f + i)).
  set (r2 := mkRegion (r_id r1) (<[p := v mod 256]> (r_d r1))).
  assert (Hst : Block_store r1 b i v = Ret r2).
  { unfold Block_store. cbn [Size Offset b].
    replace ((0 <=? i) && (i <? size)) with true by lia. reflexivity. }
  assert (Hp : regionHeaderSize <= Z.of_nat p < block_list_bottom r1).
  { unfold regionHeaderSize, block_list_bottom, blockListHeaderSize,
      blockListEntrySize.
    rewrite Hsize, Hbc. unfold p. lia. }
  destruct (store_byte_facts r1 p (v mod 256) ltac:(lia) Hp)
    as (Hsz2 & Hfp2 & Hbc2 & He2 & _).
  fold r2 in Hsz2, Hfp2, Hbc2, He2.
  assert (Hk : BlockId_BlockId (Id b) = c)
    by (apply BlockId_BlockId_small; lia).
  assert (Hslot2 : slot r2 c = slot r c)
    by (rewrite (slot_same_size r1 r2 _ Hsz2);
        apply (slot_same_size r r1 _ Hsize)).
  pose proof (region_Free_live r2 b) as Hfree. cbv zeta in Hfree.
  rewrite Hk, (He2 c), He, Hbc2, Hbc in Hfree by lia.
  change (r_id r2) with (r_id r) in Hfree. cbn [fst Id b] in Hfree.
  replace (region_base (r_id r) + (c + 1) - 1)
    with (region_base (r_id r) + c) in Hfree by lia.
  rewrite wrap64_region_id, Z.eqb_refl in Hfree by lia.
  specialize (Hfree ltac:(lia) ltac:(intros [= E _]; lia) ltac:(lia)).
  set (r3 := wind_back r2 c f) in *.
  assert (Hsize3 : region_Size r3 = region_Size r)
    by (unfold r3; rewrite region_Size_wind_back; congruence).
  assert (Hfp3 : getFreePointer r3 = f).
  { unfold r3. rewrite getFreePointer_wind_back by lia.
    apply wrap64_small. lia. }
  assert (Hbc3 : block_count r3 = c).
  { unfold r3. rewrite block_count_wind_back by lia.
    apply wrap64_small. lia. }
  assert (Hwf3 : well_formed r3).
  { unfold well_formed. rewrite Hsize3, Hfp3, Hbc3.
    unfold regionHeaderSize. lia. }
  assert (Hav3 : region_Available r3 = Ret a).
  { rewrite (well_formed_Available _ Hwf3), Hsize3, Hfp3, Hbc3.
    f_equal. lia. }
  destruct (alloc_step r3 size a Hwf3 Hav3 ltac:(lia) ltac:(lia))
    as (Hal3 & _).
  replace (size =? 0) with false in Hal3 by lia.
  rewrite Hbc3, Hfp3 in Hal3. change (r_id r3) with (r_id r) in Hal3.
  fold b in Hal3.
  exists b, r1, r2, r3, (alloc_state r3 size).
  split; [exact Hal|]. split; [exact Hst|]. split; [exact Hfree|].
  split; [exact Hal3|].
  assert (Hslotc : slot r c = a + f - 16)
    by (unfold slot, blockListHeaderSize, blockListEntrySize; lia).
  rewrite Block_Bytes_lookup by (cbn [Size b]; lia).
  replace (Z.to_nat (Offset b) + Z.to_nat i)%nat with p
    by (cbn [Offset b]; unfold p; lia).
  rewrite alloc_state_lookup
    by (rewrite ?Hbc3, ?(slot_same_size r r3 _ Hsize3); unfold p; lia).
  unfold r3. rewrite wind_back_lookup by (rewrite ?Hslot2; unfold p; lia).
  apply list_lookup_insert_eq.
  assert (Z.of_nat (length (r_d r1)) = region_Size r) by exact Hsize.
  unfold p. lia.
Qed.

Lemma freed_block_keeps_its_bytes_witness :
  ∃ b r1 r2 r3 r4,
    region_Allocate (fresh_region 0 MiB) 1000 = Ret (Some b, None, r1)
    ∧ Block_store r1 b 5 255 = Ret r2
    ∧ region_Free r2 b = Ret (true, r3)
    ∧ region_Allocate r3 1000 = Ret (Some b, None, r4)
    ∧ Block_Bytes r4 b !! Z.to_nat 5 = Some (255 mod 256).
Proof.
  apply (freed_block_keeps_its_bytes (fresh_region 0 MiB) 1000 (MiB - 40)
           5 255).
  - apply well_formed_fresh. unfold MiB. lia.
  - apply region_Available_fresh. unfold MiB. lia.
  - unfold MiB, blockListEntrySize. lia.
  - rewrite block_count_fresh by (unfold MiB; lia). lia.
  - lia.
Defined.

(** ** Heap: first fit *)

Lemma full_for_OutOfMemory size rs :
  Forall (full_for size) rs →
  Forall (λ r, region_Allocate r size = Ret (None, Some OutOfMemory, r)) rs.
Proof.
  intros H. eapply Forall_impl; [exact H|].
  intros r (a & Ha & Hlt).
  eapply region_Allocate_OutOfMemory; eassumption.
Qed.

Lemma Heap_Allocate_first_fit_step fuel pre r post size a :
  Forall (full_for size) pre →
  well_formed r → region_Available r = Ret a → 0 < size <= a →
  block_count r < 65535 →
  Heap_Allocate (S fuel) (mkHeap (pre ++ r :: post)) size
  = Some (Ret (Some (mkBlock (r_id r) (region_base (r_id r) + block_count r)
                       size (getFreePointer r)),
               None, mkHeap (pre ++ alloc_state r size :: post))).
Proof.
  intros Hpre Hwf Ha Hsz Hc.
  destruct (alloc_step r size a Hwf Ha ltac:(lia) Hc) as (Hal & _).
  replace (size =? 0) with false in Hal by lia.
  cbn [Heap_Allocate regions].
  rewrite allocate_first_app_OutOfMemory
    by (apply full_for_OutOfMemory; exact Hpre).
  cbn [allocate_first]. rewrite Hal. reflexivity.
Qed.

Lemma heap_ok_new_heap S : 40 <= S < 2 ^ 63 → heap_ok (new_heap S).
Proof.
  intros HS. split; cbn [regions new_heap].
  - intros [|i] r H; [|destruct i; discriminate].
    injection H as <-. reflexivity.
  - constructor; [|constructor].
    split; [apply well_formed_fresh; exact HS|].
    rewrite region_Size_fresh, block_count_fresh by lia. lia.
Qed.

Lemma Heap_Allocate_new_heap fuel S size :
  40 <= S < 2 ^ 63 → 0 < size <= S - 40 →
  Heap_Allocate (Datatypes.S fuel) (new_heap S) size
  = Some (Ret (Some (mkBlock 0 0 size 32), None,
               mkHeap [alloc_state (fresh_region 0 S) size])).
Proof.
  intros HS Hsz.
  pose proof (Heap_Allocate_first_fit_step fuel [] (fresh_region 0 S) []
                size (S - 40)) as H.
  rewrite r_id_fresh, block_count_fresh, getFreePointer_fresh, region_base_0
    in H by lia.
  apply H; try lia.
  - constructor.
  - apply well_formed_fresh. exact HS.
  - apply region_Available_fresh. exact HS.
Qed.

(** X11.  First fit.  [Heap.Allocate] walks the regions in order and
    serves the request from the first one that has room: the regions
    before it, which are out of memory for the request, and the regions
    after it are left as they are, and no region is appended. *)
Theorem Heap_Allocate_first_fit fuel pre r post size a :
  Forall (full_for size) pre →
  well_formed r → region_Available r = Ret a → 0 < size <= a →
  block_count r < 65535 →
  ∃ b r',
    region_Allocate r size = Ret (Some b, None, r')
    ∧ Heap_Allocate (S fuel) (mkHeap (pre ++ r :: post)) size
      = Some (Ret (Some b, None, mkHeap (pre ++ r' :: post)))
    ∧ Region b = r_id r.
Proof.
  intros Hpre Hwf Ha Hsz Hc.
  destruct (alloc_step r size a Hwf Ha ltac:(lia) Hc) as (Hal & _).
  replace (size =? 0) with false in Hal by lia.
  eexists _, _. split; [exact Hal|]. split; [|reflexivity].
  apply (Heap_Allocate_first_fit_step fuel pre r post size a); assumption.
Qed.

Lemma Heap_Allocate_first_fit_witness :
  ∃ b r',
    region_Allocate (fresh_region 1 MiB) 1000 = Ret (Some b, None, r')
    ∧ Heap_Allocate 1
        (mkHeap ([alloc_state (fresh_region 0 MiB) (MiB - 40)]
                 ++ fresh_region 1 MiB :: [])) 1000
      = Some (Ret (Some b, None,
                   mkHeap ([alloc_state (fresh_region 0 MiB) (MiB - 40)]
                           ++ r' :: [])))
    ∧ Region b = r_id (fresh_region 1 MiB).
Proof.
  assert (HS : 40 <= MiB < 2 ^ 63) by (unfold MiB; lia).
  apply (Heap_Allocate_first_fit 0
           [alloc_state (fresh_region 0 MiB) (MiB - 40)]
           (fresh_region 1 MiB) [] 1000 (MiB - 40)).
  - constructor; [|constructor].
    exists (MiB - 40 - (MiB - 40) - 16). split; [|lia].
    apply region_Available_alloc_fresh; lia.
  - apply well_formed_fresh. exact HS.
  - apply region_Available_fresh. exact HS.
  - unfold MiB. lia.
  - rewrite block_count_fresh by lia. lia.
Defined.

(** ** Heap: blocks are found again *)

Lemma region_Allocate_OutOfMemory_inv r size b r' :
  region_Allocate r size = Ret (b, Some OutOfMemory, r') →
  b = None ∧ r' = r.
Proof.
  unfold region_Allocate.
  destruct (region_Available r) as [a|]; run; [|discriminate].
  destruct (size >? a); [intros [= <- <-]; auto|].
  destruct (size >? region_Size r); [discriminate|].
  destruct (getNextFreeBlockId r) as [id|]; run; [|discriminate].
  destruct (setBlockListEntry r id _ size) as [r1|]; run; [|discriminate].
  destruct (rawGetBlock r1 id) as [b1|]; run; [|discriminate].
  destruct (incrementFreeBlockId _) as [[id' r3]|]; run; discriminate.
Qed.

(** What the loop over the regions returns: nothing when every region is
    out of memory, the regions being left as they are; otherwise the
    answer of the first region that is not out of memory. *)
Lemma allocate_first_inv size rs :
  ∀ res rs', allocate_first rs size = Ret (res, rs') →
  match res with
  | None =>
      rs' = rs
      ∧ Forall (λ r, region_Allocate r size
                     = Ret (None, Some OutOfMemory, r)) rs
  | Some (b, e) =>
      ∃ pre r post b' r1,
        rs = pre ++ r :: post ∧ rs' = pre ++ r1 :: post
        ∧ region_Allocate r size = Ret (b', e, r1)
        ∧ (e = None → b' = b)
  end.
Proof.
  induction rs as [|r rs IH]; intros res rs' H.
  - cbn in H. injection H as <- <-. split; constructor.
  - cbn [allocate_first] in H.
    destruct (region_Allocate r size) as [[[b e] r1]|] eqn:Ea;
      [|discriminate].
    run. destruct e as [e|].
    + destruct (decide (e = OutOfMemory)) as [-> | Hne].
      * destruct (region_Allocate_OutOfMemory_inv _ _ _ _ Ea) as [-> ->].
        destruct (allocate_first rs size) as [[res0 rs0]|] eqn:Er;
          [|discriminate].
        run. injection H as <- <-.
        specialize (IH _ _ eq_refl).
        destruct res0 as [[b0 e0]|].
        -- destruct IH as (pre & q & post & b' & q1 & -> & -> & Hq & Hb).
           exists (r :: pre), q, post, b', q1. auto.
        -- destruct IH as [-> Hall]. split; [reflexivity|].
           constructor; assumption.
      * assert (H' : Ret (Some (None, Some e), r1 :: rs)
                     = Ret (res, rs'))
          by (destruct e; (congruence || exact H)).
        injection H' as <- <-.
        exists [], r, rs, b, r1. repeat split; auto. discriminate.
    + injection H as <- <-.
      exists [], r, rs, b, r1. repeat split; auto.
Qed.

Lemma grow_region_size_inv fuel :
  ∀ L size G, grow_region_size fuel L size = Some G →
  size <= G ∧ (G = L ∨ (L < size ∧ - 2 ^ 63 <= G < 2 ^ 63)).
Proof.
  induction fuel as [|fuel IH]; intros L size G H; cbn [grow_region_size] in H;
    destruct (L <? size) eqn:E.
  - discriminate.
  - injection H as <-. split; [lia|]. left. reflexivity.
  - destruct (IH _ _ _ H) as [Hle [-> | [_ Hr]]].
    + split; [exact Hle|]. right. split; [lia|]. apply wrap64_range.
    + split; [exact Hle|]. right. split; [lia|exact Hr].
  - injection H as <-. split; [lia|]. left. reflexivity.
Qed.

Lemma region_at_Ret h i r :
  region_at h i = Ret r → 0 <= i ∧ regions h !! Z.to_nat i = Some r.
Proof.
  unfold region_at.
  destruct ((i <? 0) || (Z.of_nat (length (regions h)) <=? i)) eqn:E;
    [discriminate|].
  destruct (regions h !! Z.to_nat i) as [q|]; [|discriminate].
  intros [= <-]. split; [lia|reflexivity].
Qed.

Lemma numbered_snoc rs r :
  numbered rs → r_id r = Z.of_nat (length rs) → numbered (rs ++ [r]).
Proof.
  intros Hn Hr i q Hq. apply lookup_snoc_Some in Hq as [[Hi Hq] | [-> <-]].
  - apply Hn. exact Hq.
  - exact Hr.
Qed.

Lemma numbered_last rs r :
  numbered rs → last rs = Some r → r_id r + 1 = Z.of_nat (length rs).
Proof.
  intros Hn Hl. apply last_Some in Hl as [l' ->].
  rewrite (Hn (length l') r), length_app; [cbn; lia|].
  rewrite lookup_app_r by lia. rewrite Nat.sub_diag. reflexivity.
Qed.

(** Where a successful [Heap.Allocate] has put the block: in a region of
    the heap, possibly extended by appended regions, that had room. *)
Lemma Heap_Allocate_success fuel :
  ∀ h size b h',
    heap_ok h →
    Z.of_nat (length (regions h)) + Z.of_nat fuel < 2 ^ 47 →
    0 < size →
    Heap_Allocate fuel h size = Some (Ret (Some b, None, h')) →
    ∃ ext pre r post a,
      regions h ++ ext = pre ++ r :: post
      ∧ Z.of_nat (length ext) <= Z.of_nat fuel
      ∧ heap_ok (mkHeap (pre ++ r :: post))
      ∧ regions h' = pre ++ alloc_state r size :: post
      ∧ region_Available r = Ret a ∧ size <= a
      ∧ b = mkBlock (r_id r) (region_base (r_id r) + block_count r) size
              (getFreePointer r).
Proof.
  induction fuel as [|fuel IH]; intros h size b h' Hok Hlen Hsz H;
    [discriminate|].
  cbn [Heap_Allocate] in H.
  destruct (allocate_first (regions h) size) as [[res rs']|] eqn:Ef;
    [|discriminate].
  pose proof (allocate_first_inv _ _ _ _ Ef) as Hinv.
  destruct res as [[b0 e0]|].
  - (* served by a region of the heap *)
    injection H as -> -> <-.
    destruct Hinv as (pre & r & post & b' & r1 & Hrs & -> & Hal & Hb).
    specialize (Hb eq_refl). subst b'.
    destruct Hok as [Hnum Hall]. rewrite Hrs in Hnum, Hall.
    pose proof Hall as Hall'.
    apply Forall_app in Hall' as [_ Hr].
    apply Forall_cons in Hr as [(Hwf & HS & Hc) _].
    pose proof (well_formed_Available r Hwf) as Hav.
    destruct (region_Allocate_error_cases _ _ _ _ _ _ Hav Hal)
      as [[_ ?] | [[_ [_ ?]] | (Hle & _)]]; try discriminate.
    destruct (alloc_step r size _ Hwf Hav ltac:(lia) Hc) as (Hal' & _).
    replace (size =? 0) with false in Hal' by lia.
    rewrite Hal in Hal'. injection Hal' as -> ->.
    exists [], pre, r, post,
      (region_Size r - getFreePointer r - 8 - 16 * block_count r).
    rewrite app_nil_r.
    split; [exact Hrs|]. split; [cbn [length]; lia|].
    split; [split; assumption|].
    split; [reflexivity|]. split; [exact Hav|]. split; [exact Hle|].
    reflexivity.
  - (* every region is out of memory: a region is appended *)
    destruct Hinv as [-> Hoom].
    destruct (last (regions h)) as [r|] eqn:El; [|discriminate].
    destruct (grow_region_size fuel (region_Size r) size) as [G|] eqn:Eg;
      [|discriminate].
    destruct Hok as [Hnum Hall].
    assert (Hr : well_formed r ∧ 40 <= region_Size r
                 ∧ block_count r < 65535).
    { apply last_Some in El as [l' El]. rewrite El in Hall.
      apply Forall_app in Hall as [_ Hall].
      apply Forall_cons in Hall as [Hr _]. exact Hr. }
    destruct Hr as (Hwf & HS & _). pose proof Hwf as (HS' & _).
    destruct (grow_region_size_inv _ _ _ _ Eg) as [HG HG'].
    assert (HGr : 40 <= G < 2 ^ 63) by lia.
    rewrite appendRegion_fresh in H by lia.
    pose proof (numbered_last _ _ Hnum El) as Hid.
    assert (Hw : wrap64 (r_id r + 1) = Z.of_nat (length (regions h)))
      by (rewrite wrap64_small by lia; exact Hid).
    rewrite Hw in H.
    set (r' := fresh_region (Z.of_nat (length (regions h))) G) in *.
    destruct (IH (mkHeap (regions h ++ [r'])) size b h') as
      (ext & pre & q & post & a & Hext & Hn & Hok' & Hh' & Hav & Hle & Hb);
      auto.
    + split.
      * apply numbered_snoc; [exact Hnum|]. apply r_id_fresh.
      * cbn [regions]. apply Forall_app. split; [exact Hall|].
        constructor; [|constructor].
        split; [apply well_formed_fresh; lia|].
        split; [unfold r'; rewrite region_Size_fresh by lia; lia|].
        unfold r'. rewrite block_count_fresh by lia. lia.
    + cbn [regions]. rewrite length_app. cbn [length]. lia.
    + cbn [regions] in Hext.
      exists ([r'] ++ ext), pre, q, post, a.
      rewrite app_assoc.
      split; [exact Hext|]. split; [rewrite length_app; cbn [length]; lia|].
      auto 10.
Qed.

Lemma lookup_middle_ne {A} (pre post : list A) x y (n : nat) :
  n ≠ length pre → (pre ++ x :: post) !! n = (pre ++ y :: post) !! n.
Proof.
  intros Hn. destruct (Nat.lt_ge_cases n (length pre)) as [Hlt | Hge].
  - rewrite !lookup_app_l by lia. reflexivity.
  - rewrite !lookup_app_r by lia.
    destruct (n - length pre)%nat as [|m] eqn:E; [lia|]. reflexivity.
Qed.

(** The heap after a successful [Heap.Allocate], seen through
    [Heap.GetBlock]. *)
Lemma Heap_Allocate_lookup fuel h size b h' :
  heap_ok h →
  Z.of_nat (length (regions h)) + Z.of_nat fuel < 2 ^ 47 →
  0 < size →
  Heap_Allocate fuel h size = Some (Ret (Some b, None, h')) →
  ∃ pre r post a,
    regions h' = pre ++ alloc_state r size :: post
    ∧ heap_ok (mkHeap (pre ++ r :: post))
    ∧ region_Available r = Ret a ∧ size <= a
    ∧ b = mkBlock (r_id r) (region_base (r_id r) + block_count r) size
            (getFreePointer r)
    ∧ r_id r = Z.of_nat (length pre)
    ∧ BlockId_RegionId (Id b) = Z.of_nat (length pre)
    ∧ (∀ id q, region_at h (BlockId_RegionId id) = Ret q →
               (pre ++ r :: post) !! Z.to_nat (BlockId_RegionId id) = Some q
               ∧ 0 <= BlockId_RegionId id).
Proof.
  intros Hok Hlen Hsz H.
  destruct (Heap_Allocate_success fuel h size b h' Hok Hlen Hsz H)
    as (ext & pre & r & post & a & Hext & Hn & Hok' & Hh' & Hav & Hle & Hb).
  pose proof Hok' as [Hnum Hall]. cbn [regions] in Hnum, Hall.
  assert (Hid : r_id r = Z.of_nat (length pre))
    by (apply Hnum, list_lookup_middle; reflexivity).
  assert (Hbound : Z.of_nat (length pre) < 2 ^ 47).
  { assert (Hl : length (regions h ++ ext) = length (pre ++ r :: post))
      by (rewrite Hext; reflexivity).
    rewrite !length_app in Hl. cbn [length] in Hl. lia. }
  apply Forall_app in Hall as [_ Hr].
  apply Forall_cons in Hr as [(Hwf & HS & Hc) _].
  pose proof Hwf as (_ & _ & Hc').
  exists pre, r, post, a.
  split; [exact Hh'|]. split; [exact Hok'|]. split; [exact Hav|].
  split; [exact Hle|]. split; [exact Hb|]. split; [exact Hid|].
  split.
  { rewrite Hb. cbn [Id]. rewrite Hid.
    apply BlockId_RegionId_base; lia. }
  intros id q Hq. apply region_at_Ret in Hq as [H0 Hq].
  split; [|exact H0]. rewrite <- Hext.
  apply lookup_app_l_Some. exact Hq.
Qed.

(** X13.  A block that [Heap.Allocate] returns is found again.  On a
    heap in good order, whatever [Heap.Allocate] had to do (first fit or
    appending a region), [Heap.GetBlock] of the returned block's
    identifier returns that block; every block that [Heap.GetBlock]
    found before the call is still found; and the regions are still
    numbered by position and well formed. *)
Theorem Heap_Allocate_then_GetBlock fuel h size b h' :
  heap_ok h →
  Z.of_nat (length (regions h)) + Z.of_nat fuel < 2 ^ 47 →
  0 < size →
  Heap_Allocate fuel h size = Some (Ret (Some b, None, h')) →
  Heap_GetBlock h' (Id b) = Ret (Some b)
  ∧ (∀ id b0, Heap_GetBlock h id = Ret (Some b0) →
              Heap_GetBlock h' id = Ret (Some b0))
  ∧ numbered (regions h')
  ∧ Forall well_formed (regions h').
Proof.
  intros Hok Hlen Hsz H.
  destruct (Heap_Allocate_lookup fuel h size b h' Hok Hlen Hsz H)
    as (pre & r & post & a & Hh' & [Hnum Hall] & Hav & Hle & Hb & Hid
        & Hrid & Hat).
  cbn [regions] in Hnum, Hall.
  pose proof Hall as Hall'.
  apply Forall_app in Hall' as [Hpre Hr].
  apply Forall_cons in Hr as [(Hwf & HS & Hc) Hpost].
  split; [|split; [|split]].
  - unfold Heap_GetBlock. rewrite Hrid.
    rewrite (region_at_in_range h' _ (alloc_state r size)) by
      first [lia | rewrite Nat2Z.id, Hh'; apply list_lookup_middle;
                   reflexivity].
    run. rewrite Hb. cbn [Id].
    apply (region_GetBlock_alloc_new r size a); auto; lia.
  - intros id b0 Hg. unfold Heap_GetBlock in Hg |- *.
    destruct (region_at h (BlockId_RegionId id)) as [q|] eqn:Eq;
      [|discriminate].
    run. destruct (Hat id q Eq) as [Hq H0].
    destruct (Nat.eq_dec (Z.to_nat (BlockId_RegionId id)) (length pre))
      as [Heq | Hne].
    + rewrite Heq, list_lookup_middle in Hq by reflexivity.
      injection Hq as <-.
      rewrite (region_at_in_range h' _ (alloc_state r size)) by
        first [lia | rewrite Heq, Hh'; apply list_lookup_middle;
                     reflexivity].
      run. apply (region_GetBlock_alloc_old r size a); auto; lia.
    + rewrite (region_at_in_range h' _ q); [exact Hg|lia|].
      rewrite Hh', <- Hq. apply lookup_middle_ne. exact Hne.
  - rewrite Hh'. intros i q Hq.
    destruct (Nat.eq_dec i (length pre)) as [-> | Hne].
    + rewrite list_lookup_middle in Hq by reflexivity.
      injection Hq as <-. rewrite r_id_alloc_state. exact Hid.
    + apply Hnum. rewrite <- Hq. apply lookup_middle_ne. exact Hne.
  - rewrite Hh'. apply Forall_app. split.
    + eapply Forall_impl; [exact Hpre|]. intros x Hx. apply Hx.
    + constructor.
      * destruct (alloc_step r size a Hwf Hav ltac:(lia) Hc)
          as (_ & _ & _ & _ & _ & Hwf' & _). exact Hwf'.
      * eapply Forall_impl; [exact Hpost|]. intros x Hx. apply Hx.
Qed.

Lemma Heap_Allocate_then_GetBlock_witness :
  Heap_GetBlock (mkHeap [alloc_state (fresh_region 0 MiB) 1000])
    (Id (mkBlock 0 0 1000 32)) = Ret (Some (mkBlock 0 0 1000 32))
  ∧ (∀ id b0, Heap_GetBlock (new_heap MiB) id = Ret (Some b0) →
              Heap_GetBlock (mkHeap [alloc_state (fresh_region 0 MiB) 1000])
                id = Ret (Some b0))
  ∧ numbered (regions (mkHeap [alloc_state (fresh_region 0 MiB) 1000]))
  ∧ Forall well_formed
      (regions (mkHeap [alloc_state (fresh_region 0 MiB) 1000])).
Proof.
  assert (HS : 40 <= MiB < 2 ^ 63) by (unfold MiB; lia).
  apply (Heap_Allocate_then_GetBlock 1 (new_heap MiB) 1000
           (mkBlock 0 0 1000 32)
           (mkHeap [alloc_state (fresh_region 0 MiB) 1000])).
  - apply heap_ok_new_heap. exact HS.
  - cbn [new_heap regions length]. lia.
  - lia.
  - apply Heap_Allocate_new_heap; unfold MiB; lia.
Defined.

(** X14.  A block that [Heap.Allocate] returns can be freed through the
    heap.  On a heap in good order, [Heap.Free] of the returned block
    returns true; afterwards [Heap.GetBlock] of its identifier returns
    nil, the blocks found before the allocation are still found, and the
    heap has the regions it had after the allocation. *)
Theorem Heap_Allocate_then_Free fuel h size b h' :
  heap_ok h →
  Z.of_nat (length (regions h)) + Z.of_nat fuel < 2 ^ 47 →
  0 < size →
  Heap_Allocate fuel h size = Some (Ret (Some b, None, h')) →
  ∃ h'',
    Heap_Free h' b = Ret (true, h'')
    ∧ Heap_GetBlock h'' (Id b) = Ret None
    ∧ (∀ id b0, Heap_GetBlock h id = Ret (Some b0) →
                Heap_GetBlock h'' id = Ret (Some b0))
    ∧ length (regions h'') = length (regions h').
Proof.
  intros Hok Hlen Hsz H.
  destruct (Heap_Allocate_lookup fuel h size b h' Hok Hlen Hsz H)
    as (pre & r & post & a & Hh' & [Hnum Hall] & Hav & Hle & Hb & Hid
        & Hrid & Hat).
  cbn [regions] in Hnum, Hall.
  pose proof Hall as Hall'.
  apply Forall_app in Hall' as [Hpre Hr].
  apply Forall_cons in Hr as [(Hwf & HS & Hc) Hpost].
  pose proof Hwf as (_ & _ & Hc').
  destruct (alloc_free_step r size a Hwf Hav ltac:(lia) Hc)
    as (r2 & Hfree & Hid2 & Hsize2 & Hfp2 & Hbc2 & Hwf2 & Hav2 & He2).
  rewrite <- Hb in Hfree.
  exists (mkHeap (pre ++ r2 :: post)).
  assert (Hfr : Heap_Free h' b = Ret (true, mkHeap (pre ++ r2 :: post))).
  { unfold Heap_Free. rewrite Hrid.
    rewrite (region_at_in_range h' _ (alloc_state r size)) by
      first [lia | rewrite Nat2Z.id, Hh'; apply list_lookup_middle;
                   reflexivity].
    run. rewrite Hfree. run. rewrite Nat2Z.id, Hh'.
    rewrite insert_app_r_alt, Nat.sub_diag by lia. reflexivity. }
  assert (Hsame : ∀ id, region_GetBlock r2 id = region_GetBlock r id)
    by (apply region_GetBlock_ext; auto; lia).
  split; [exact Hfr|]. split; [|split].
  - unfold Heap_GetBlock. rewrite Hrid.
    rewrite (region_at_in_range _ _ r2) by
      first [lia | rewrite Nat2Z.id; apply list_lookup_middle; reflexivity].
    run. rewrite Hsame, Hb. cbn [Id].
    apply region_GetBlock_outside; lia.
  - intros id b0 Hg. unfold Heap_GetBlock in Hg |- *.
    destruct (region_at h (BlockId_RegionId id)) as [q|] eqn:Eq;
      [|discriminate].
    run. destruct (Hat id q Eq) as [Hq H0].
    destruct (Nat.eq_dec (Z.to_nat (BlockId_RegionId id)) (length pre))
      as [Heq | Hne].
    + rewrite Heq, list_lookup_middle in Hq by reflexivity.
      injection Hq as <-.
      rewrite (region_at_in_range _ _ r2) by
        first [lia | rewrite Heq; apply list_lookup_middle; reflexivity].
      run. rewrite Hsame. exact Hg.
    + rewrite (region_at_in_range _ _ q); [exact Hg|lia|].
      cbn [regions]. rewrite <- Hq. apply lookup_middle_ne. exact Hne.
  - rewrite Hh'. cbn [regions]. rewrite !length_app. reflexivity.
Qed.

Lemma Heap_Allocate_then_Free_witness :
  ∃ h'',
    Heap_Free (mkHeap [alloc_state (fresh_region 0 MiB) 1000])
      (mkBlock 0 0 1000 32) = Ret (true, h'')
    ∧ Heap_GetBlock h'' (Id (mkBlock 0 0 1000 32)) = Ret None
    ∧ (∀ id b0, Heap_GetBlock (new_heap MiB) id = Ret (Some b0) →
                Heap_GetBlock h'' id = Ret (Some b0))
    ∧ length (regions h'')
      = length (regions (mkHeap [alloc_state (fresh_region 0 MiB) 1000])).
Proof.
  assert (HS : 40 <= MiB < 2 ^ 63) by (unfold MiB; lia).
  apply (Heap_Allocate_then_Free 1 (new_heap MiB) 1000
           (mkBlock 0 0 1000 32)
           (mkHeap [alloc_state (fresh_region 0 MiB) 1000])).
  - apply heap_ok_new_heap. exact HS.
  - cbn [new_heap regions length]. lia.
  - lia.
  - apply Heap_Allocate_new_heap; unfold MiB; lia.
Defined.

(** ** The heap file: opening regions *)

(** Boolean tests on file and mapping lengths, decided as propositions. *)
Ltac blia :=
  symmetry;
  rewrite ?orb_true_iff, ?andb_true_iff, ?orb_false_iff, ?andb_false_iff,
    ?Z.ltb_lt, ?Z.leb_le, ?Z.eqb_eq, ?Z.ltb_ge, ?Z.leb_gt, ?Z.eqb_neq;
  lia.

Lemma read_int64_take d n off :
  0 <= off → (Z.to_nat off + 8 ≤ n)%nat →
  read_int64 (take n d) off = read_int64 d off.
Proof.
  intros Hoff Hn. unfold read_int64. f_equal.
  apply le_read_ext. intros k Hk.
  destruct (Nat.lt_ge_cases k (length d)) as [Hlt | Hge].
  - rewrite !list_lookup_total_alt, lookup_take_lt by lia. reflexivity.
  - rewrite !list_lookup_total_alt, lookup_take_lt by lia. reflexivity.
Qed.

(** [openRegion] at the start of a region whose header is intact, in a
    file that holds the region's bytes at a page boundary. *)
Lemma openRegion_tiled pagesize pre r post writeable :
  0 < pagesize → Z.of_nat (length pre) mod pagesize = 0 →
  header_intact r →
  openRegion pagesize (pre ++ r_d r ++ post) writeable
    (Z.of_nat (length pre))
  = Ret (Opened r).
Proof.
  intros Hp Hal (H1 & H2 & H3 & H4). destruct r as [rid d].
  apply Z.eqb_eq in Hal.
  unfold region_Size, peek in *. cbn [r_d r_id] in *.
  unfold regionHeaderSize, regionSizeOffset, regionId in *.
  unfold openRegion, read_header, regionHeaderSize.
  rewrite length_app, length_app.
  replace ((Z.of_nat (length pre) <? 0)
           || (Z.of_nat (length pre + (length d + length post))
               <=? Z.of_nat (length pre))) with false by blia.
  rewrite Nat2Z.id, drop_app_length.
  rewrite (take_app_le d post) by lia.
  rewrite length_take, Nat.min_l, Nat.sub_diag by lia.
  cbn [replicate]. rewrite app_nil_r.
  rewrite take_take. change (8 `min` Z.to_nat 32)%nat with 8%nat.
  rewrite bool_decide_eq_true_2 by exact H2. cbn [negb].
  unfold regionSizeOffset, regionId.
  rewrite !read_int64_take by lia.
  rewrite H3, H4.
  unfold Mmap.
  replace (Z.of_nat (length d) <=? 0) with false by blia.
  rewrite Hal. cbn [negb]. rewrite length_app, length_app.
  replace (Z.of_nat (length pre + (length d + length post))
           <? Z.of_nat (length pre) + Z.of_nat (length d))
    with false by blia.
  rewrite !Nat2Z.id, drop_app_length, take_app_length.
  unfold regionFreePointerOffset.
  rewrite !slice_ok_true by lia.
  reflexivity.
Qed.

Lemma aligned_concat pagesize rs :
  0 < pagesize →
  Forall (λ r, region_Size r mod pagesize = 0) rs →
  Z.of_nat (length (concat (r_d <$> rs))) mod pagesize = 0.
Proof.
  intros Hp. induction 1 as [|r rs Hr _ IH]; cbn [fmap list_fmap concat].
  - apply Z.mod_0_l. lia.
  - rewrite length_app, Nat2Z.inj_add.
    apply Z.mod_divide; [lia|]. apply Z.divide_add_r.
    + apply Z.mod_divide; [lia|exact Hr].
    + apply Z.mod_divide; [lia|exact IH].
Qed.

Lemma Heap_file_snoc acc r rest :
  concat (r_d <$> (acc ++ r :: rest))
  = concat (r_d <$> acc) ++ r_d r ++ concat (r_d <$> rest).
Proof. rewrite fmap_app, concat_app. reflexivity. Qed.

Lemma initHeap_loop_tiled pagesize writeable :
  0 < pagesize →
  ∀ rest acc fuel,
    Forall (λ r, region_Size r mod pagesize = 0) acc →
    Forall (λ r, header_intact r ∧ region_Size r mod pagesize = 0) rest →
    Z.of_nat (length (concat (r_d <$> (acc ++ rest)))) < 2 ^ 63 →
    (length rest ≤ fuel)%nat →
    initHeap_loop fuel pagesize (concat (r_d <$> (acc ++ rest))) writeable
      (Z.of_nat (length (concat (r_d <$> acc)))) acc
    = Some (Ret (Opened (mkHeap (acc ++ rest)))).
Proof.
  intros Hp. induction rest as [|r rest IH]; intros acc fuel Hacc Hrest Hlen Hf.
  - rewrite app_nil_r.
    destruct fuel; cbn [initHeap_loop]; rewrite Z.ltb_irrefl; reflexivity.
  - destruct fuel as [|fuel]; [cbn [length] in Hf; lia|].
    apply Forall_cons in Hrest as [[Hr Hal] Hrest].
    pose proof Hr as (H32 & _). unfold regionHeaderSize, region_Size in H32.
    cbn [initHeap_loop]. rewrite Heap_file_snoc in Hlen |- *.
    rewrite !length_app in Hlen.
    replace (Z.of_nat (length (concat (r_d <$> acc)))
             <? Z.of_nat (length (concat (r_d <$> acc) ++ r_d r
                                  ++ concat (r_d <$> rest))))
      with true by (rewrite !length_app; blia).
    rewrite openRegion_tiled;
      [|exact Hp|apply aligned_concat; assumption|exact Hr].
    rewrite wrap64_small by (unfold region_Size; lia).
    replace (Z.of_nat (length (concat (r_d <$> acc))) + region_Size r)
      with (Z.of_nat (length (concat (r_d <$> (acc ++ [r]))))).
    2:{ rewrite fmap_app, concat_app, length_app. cbn.
        rewrite app_nil_r. unfold region_Size. lia. }
    rewrite <- Heap_file_snoc.
    replace (acc ++ r :: rest) with ((acc ++ [r]) ++ rest)
      by (rewrite <- app_assoc; reflexivity).
    apply IH.
    + apply Forall_app. split; [exact Hacc|]. constructor; [exact Hal|].
      constructor.
    + exact Hrest.
    + rewrite <- app_assoc. cbn [app]. rewrite Heap_file_snoc, !length_app.
      lia.
    + cbn [length] in Hf. lia.
Qed.

(** X15.  A heap file can be reopened.  When every region of a heap has
    its header intact (signature, stored size and stored id are those of
    the region) and a size that is a multiple of the page size,
    [initHeap] on the file that holds the regions one after the other
    returns exactly these regions, in order, with their bytes: what
    [OpenForUpdate] and [Open] give for an existing file is the heap as
    it was left. *)
Theorem initHeap_reopens fuel pagesize h writeable :
  0 < pagesize →
  Forall (λ r, header_intact r ∧ region_Size r mod pagesize = 0)
    (regions h) →
  Z.of_nat (length (Heap_file h)) < 2 ^ 63 →
  (length (regions h) ≤ fuel)%nat →
  initHeap fuel pagesize (Heap_file h) writeable = Some (Ret (Opened h)).
Proof.
  intros Hp Hall Hlen Hf. destruct h as [rs]. cbn [regions] in *.
  unfold initHeap, Heap_file. cbn [regions].
  apply (initHeap_loop_tiled pagesize writeable Hp rs [] fuel);
    auto.
Qed.

(** What [openRegion] has checked when it returns a region. *)
Lemma openRegion_Opened pagesize f writeable offset r :
  openRegion pagesize f writeable offset = Ret (Opened r) →
  0 <= offset ∧ 16 <= region_Size r
  ∧ offset + region_Size r <= Z.of_nat (length f).
Proof.
  unfold openRegion, read_header.
  destruct ((offset <? 0) || (Z.of_nat (length f) <=? offset)) eqn:E;
    [discriminate|].
  destruct (negb (bool_decide _)); [discriminate|].
  unfold Mmap.
  destruct (read_int64 _ regionSizeOffset <=? 0) eqn:E1; [discriminate|].
  destruct (negb (offset mod pagesize =? 0)); [discriminate|].
  destruct (Z.of_nat (length f) <? offset + read_int64 _ regionSizeOffset)
    eqn:E2; [discriminate|].
  destruct (slice_ok _ regionFreePointerOffset _ && slice_ok _ _ _) eqn:E3;
    [|discriminate].
  intros [= <-]. unfold region_Size. cbn [r_d].
  apply andb_prop in E3 as [E3 _]. unfold slice_ok in E3.
  unfold regionFreePointerOffset in E3.
  revert E3. rewrite length_take, length_drop. intros E3.
  apply orb_false_elim in E as [Ea Eb].
  apply Z.ltb_ge in Ea, E2. apply Z.leb_gt in Eb, E1.
  apply andb_prop in E3 as [_ E3]. apply Z.leb_le in E3.
  lia.
Qed.

Lemma initHeap_loop_terminates pagesize f writeable :
  Z.of_nat (length f) < 2 ^ 63 →
  ∀ fuel offset acc,
    0 <= offset → Z.of_nat (length f) - offset <= Z.of_nat fuel →
    ∃ o, initHeap_loop fuel pagesize f writeable offset acc = Some o.
Proof.
  intros Hlen. induction fuel as [|fuel IH]; intros offset acc H0 Hf;
    cbn [initHeap_loop];
    destruct (offset <? Z.of_nat (length f)) eqn:E; eauto.
  - apply Z.ltb_lt in E. lia.
  - destruct (openRegion pagesize f writeable offset) as [[r|e|]|] eqn:Eo;
      eauto.
    destruct (openRegion_Opened _ _ _ _ _ Eo) as (_ & H16 & Hend).
    rewrite wrap64_small by lia. apply IH; lia.
Qed.

(** X16.  [initHeap] terminates on every file, whatever its bytes: each
    region it opens is at least 16 bytes long and lies inside the file,
    so the loop reaches the end of the file, stops at an error, or
    panics, within as many iterations as the file has bytes. *)
Theorem initHeap_terminates fuel pagesize f writeable :
  Z.of_nat (length f) < 2 ^ 63 → (length f ≤ fuel)%nat →
  ∃ o, initHeap fuel pagesize f writeable = Some o.
Proof.
  intros Hlen Hf. unfold initHeap.
  apply initHeap_loop_terminates; lia.
Qed.

Lemma initHeap_terminates_witness :
  ∃ o, initHeap 8 4096 [72; 69; 65; 80; 82; 69; 71; 78] true = Some o.
Proof.
  apply (initHeap_terminates 8 4096 [72; 69; 65; 80; 82; 69; 71; 78] true).
  - cbn [length]. lia.
  - cbn [length]. lia.
Defined.

(** ** The heap file: creating regions *)

Lemma take_write_int64 d off v n :
  0 <= off → (n ≤ Z.to_nat off)%nat →
  take n (write_int64 d off v) = take n d.
Proof.
  intros Hoff Hn. apply list_eq. intros i.
  destruct (Nat.lt_ge_cases i n) as [Hlt | Hge].
  - rewrite !lookup_take_lt by lia. unfold write_int64.
    apply le_write_lookup. lia.
  - rewrite !lookup_take_ge by lia. reflexivity.
Qed.

Lemma header_intact_mapping rid S :
  40 <= S < 2 ^ 63 → - 2 ^ 63 <= rid < 2 ^ 63 →
  header_intact (mkRegion rid (fresh_mapping rid S)).
Proof.
  intros HS Hrid.
  assert (Hsz : region_Size (mkRegion rid (fresh_mapping rid S)) = S)
    by (apply fresh_mapping_length; lia).
  unfold header_intact. rewrite Hsz. cbn [r_id r_d].
  split; [unfold regionHeaderSize; lia|].
  assert (Hpk : ∀ off, 0 <= off → off + 8 <= 32 →
            peek (mkRegion rid (fresh_mapping rid S)) off
            = read_int64 (region_header rid S) off).
  { intros off H0 H1. unfold peek, read_int64, fresh_mapping. cbn [r_d].
    rewrite le_read_app_l by (rewrite region_header_length; lia).
    reflexivity. }
  split; [|split].
  - unfold fresh_mapping.
    rewrite take_app_le by (rewrite region_header_length; lia).
    unfold region_header, regionId, regionSizeOffset,
      regionFreePointerOffset.
    rewrite !take_write_int64 by lia. reflexivity.
  - unfold regionSizeOffset. rewrite Hpk by lia.
    unfold region_header, regionId, regionSizeOffset,
      regionFreePointerOffset, regionHeaderSize.
    rewrite read_write_ne by lia.
    rewrite read_write_same by (rewrite ?write_int64_length; cbn; lia).
    apply wrap64_small. lia.
  - unfold regionId. rewrite Hpk by lia.
    unfold region_header, regionId, regionSizeOffset,
      regionFreePointerOffset, regionHeaderSize.
    rewrite read_write_same by (rewrite ?write_int64_length; cbn; lia).
    apply wrap64_small. lia.
Qed.

Lemma header_intact_fresh rid S :
  40 <= S < 2 ^ 63 → - 2 ^ 63 <= rid < 2 ^ 63 →
  header_intact (fresh_region rid S).
Proof.
  intros HS Hrid. unfold fresh_region, initBlockList.
  apply header_intact_poke; [apply header_intact_mapping; assumption|].
  right. unfold regionHeaderSize, region_Size. cbn [r_d].
  rewrite fresh_mapping_length by lia. lia.
Qed.

Lemma Heap_file_new_heap S : Heap_file (new_heap S) = r_d (fresh_region 0 S).
Proof. unfold Heap_file, new_heap. cbn [regions fmap list_fmap concat].
  apply app_nil_r. Qed.

Lemma Heap_file_new_heap_length S :
  40 <= S → Z.of_nat (length (Heap_file (new_heap S))) = S.
Proof.
  intros HS. rewrite Heap_file_new_heap. apply region_Size_fresh. exact HS.
Qed.

Lemma initHeap_reopens_witness :
  initHeap 1 4096 (Heap_file (new_heap MiB)) true
  = Some (Ret (Opened (new_heap MiB))).
Proof.
  assert (HS : 40 <= MiB < 2 ^ 63) by (unfold MiB; lia).
  apply (initHeap_reopens 1 4096 (new_heap MiB) true).
  - lia.
  - cbn [new_heap regions]. constructor; [|constructor].
    split; [apply header_intact_fresh; lia|].
    rewrite region_Size_fresh by lia. reflexivity.
  - rewrite Heap_file_new_heap_length by lia. lia.
  - cbn [new_heap regions length]. lia.
Defined.

Lemma Truncate_extend f n :
  0 <= n →
  Truncate f (Z.of_nat (length f) + n) = Some (f ++ replicate (Z.to_nat n) 0).
Proof.
  intros Hn. unfold Truncate.
  replace (Z.of_nat (length f) + n <? 0) with false by blia.
  rewrite take_ge by lia. do 3 f_equal. lia.
Qed.

Lemma write_at_end f bs tail :
  length bs = length tail →
  write_at (f ++ tail) (Z.of_nat (length f)) bs = f ++ bs.
Proof.
  intros Hlen. unfold write_at. rewrite Nat2Z.id.
  rewrite take_app_length, length_app.
  rewrite (proj2 (Nat.sub_0_le _ _)) by lia.
  rewrite drop_app_ge by lia.
  rewrite drop_ge by lia.
  cbn [replicate app]. rewrite app_nil_r. reflexivity.
Qed.

Lemma write_header_at_end f rid S :
  32 <= S →
  write_at (f ++ replicate (Z.to_nat S) 0) (Z.of_nat (length f))
    (region_header rid S)
  = f ++ fresh_mapping rid S.
Proof.
  intros HS. unfold write_at. rewrite Nat2Z.id.
  rewrite take_app_length, length_app, region_header_length.
  rewrite (proj2 (Nat.sub_0_le _ _)) by lia.
  rewrite drop_app_ge by lia.
  replace (length f + 32 - length f)%nat with 32%nat by lia.
  rewrite drop_replicate. cbn [replicate app].
  unfold fresh_mapping, regionHeaderSize.
  replace (Z.to_nat S - 32)%nat with (Z.to_nat (S - 32)) by lia.
  reflexivity.
Qed.

(** [appendRegion] on a file whose length is a multiple of the page
    size: the file grows by the bytes of the new region, and the region
    is the one the file-less model of [appendRegion] returns. *)
Lemma appendRegion_file_fresh pagesize f rid S :
  0 < pagesize → Z.of_nat (length f) mod pagesize = 0 →
  40 <= S → Z.of_nat (length f) + S < 2 ^ 63 →
  - 2 ^ 63 <= rid < 2 ^ 63 →
  appendRegion_file pagesize f rid S
  = Ret (f ++ r_d (fresh_region rid S), Opened (fresh_region rid S)).
Proof.
  intros Hp Hal HS Hlen Hrid. unfold appendRegion_file.
  rewrite wrap64_small by lia.
  rewrite Truncate_extend by lia.
  rewrite write_header_at_end by lia.
  pose proof (openRegion_tiled pagesize f
                (mkRegion rid (fresh_mapping rid S)) [] true Hp Hal
                (header_intact_mapping rid S ltac:(lia) Hrid)) as Ho.
  cbn [r_d] in Ho. rewrite app_nil_r in Ho. rewrite Ho. run.
  fold (fresh_region rid S).
  rewrite write_at_end; [reflexivity|].
  assert (H1 : Z.of_nat (length (r_d (fresh_region rid S))) = S)
    by (apply region_Size_fresh; lia).
  assert (H2 : Z.of_nat (length (fresh_mapping rid S)) = S)
    by (apply fresh_mapping_length; lia).
  lia.
Qed.

Lemma le_write_zeros d off n :
  (∀ k, (off ≤ k < off + n)%nat → d !! k = Some 0) →
  le_write d off n 0 = d.
Proof.
  revert d off. induction n as [|n IH]; intros d off H; [reflexivity|].
  cbn [le_write]. change (0 mod 256) with 0. change (0 / 256) with 0.
  rewrite list_insert_id by (apply H; lia).
  apply IH. intros k Hk. apply H. lia.
Qed.

(** The counter of a new region is cleared over bytes that are zero
    already: the mapping of a fresh region is the header followed by
    zeros. *)
Lemma r_d_fresh rid S :
  40 <= S → r_d (fresh_region rid S) = fresh_mapping rid S.
Proof.
  intros HS. unfold fresh_region, initBlockList, poke, write_int64.
  cbn [r_d]. apply le_write_zeros. intros k Hk.
  unfold region_Size in Hk. cbn [r_d] in Hk.
  rewrite (fresh_mapping_length rid S HS) in Hk.
  unfold fresh_mapping, regionHeaderSize.
  rewrite lookup_app_r by (rewrite region_header_length; lia).
  apply lookup_replicate. split; [reflexivity|].
  rewrite region_header_length. lia.
Qed.

(** X17.  [appendRegion] and the file.  On a file whose length is a
    multiple of the page size, [appendRegion(rid, f, size)] with
    [size >= 40] appends exactly [size] bytes: the 32-byte header
    (signature, free pointer 32, the size, the id) followed by zeros.
    The region it returns maps these bytes; its header is intact, it is
    well formed, nothing is allocated in it, [size - 40] bytes are
    available, and it is the region of the model without the file. *)
Theorem appendRegion_appends_a_fresh_region pagesize f rid size :
  0 < pagesize → Z.of_nat (length f) mod pagesize = 0 →
  40 <= size → Z.of_nat (length f) + size < 2 ^ 63 →
  - 2 ^ 63 <= rid < 2 ^ 63 →
  ∃ r,
    appendRegion_file pagesize f rid size = Ret (f ++ r_d r, Opened r)
    ∧ appendRegion rid size = Ret (inl r)
    ∧ r_id r = rid ∧ region_Size r = size
    ∧ r_d r = region_header rid size
              ++ replicate (Z.to_nat (size - regionHeaderSize)) 0
    ∧ header_intact r ∧ well_formed r
    ∧ getFreePointer r = regionHeaderSize
    ∧ block_count r = 0
    ∧ region_Available r = Ret (size - 40).
Proof.
  intros Hp Hal HS Hlen Hrid. exists (fresh_region rid size).
  split; [apply appendRegion_file_fresh; assumption|].
  split; [apply appendRegion_fresh; lia|].
  split; [reflexivity|].
  split; [apply region_Size_fresh; lia|].
  split; [apply r_d_fresh; lia|].
  split; [apply header_intact_fresh; lia|].
  split; [apply well_formed_fresh; lia|].
  split; [apply getFreePointer_fresh; lia|].
  split; [apply block_count_fresh; lia|].
  apply region_Available_fresh. lia.
Qed.

Lemma appendRegion_appends_a_fresh_region_witness :
  ∃ r,
    appendRegion_file 4096 [] 0 MiB = Ret ([] ++ r_d r, Opened r)
    ∧ appendRegion 0 MiB = Ret (inl r)
    ∧ r_id r = 0 ∧ region_Size r = MiB
    ∧ r_d r = region_header 0 MiB
              ++ replicate (Z.to_nat (MiB - regionHeaderSize)) 0
    ∧ header_intact r ∧ well_formed r
    ∧ getFreePointer r = regionHeaderSize
    ∧ block_count r = 0
    ∧ region_Available r = Ret (MiB - 40).
Proof.
  apply (appendRegion_appends_a_fresh_region 4096 [] 0 MiB).
  - lia.
  - reflexivity.
  - unfold MiB. lia.
  - cbn [length]. unfold MiB. lia.
  - lia.
Defined.

(** ** Heap: growth *)

(** X12.  Growth.  Take a heap whose regions lie one after the other in
    the file and have sizes that are multiples of the page size.  When
    every region is out of memory for a request of [size] bytes,
    [Heap.Allocate] doubles the last region's size as often as needed to
    reach [size] ([k] times, [k] the least such number); [appendRegion]
    then extends the file by a region of that size, whose id is the last
    region's id plus one, maps it at the former end of the file and
    returns it empty, its size being a multiple of the page size again;
    and [Heap.Allocate] calls itself on the heap with that region
    appended.  If the request also leaves room for the 40 bytes of
    header and counter in the new region, the call returns the first
    block of that region (block index 0, offset 32), and the regions
    that were there are unchanged. *)
Theorem Heap_Allocate_growth fuel pagesize rs r size :
  0 < pagesize →
  Forall (λ q, region_Size q mod pagesize = 0) rs →
  Forall (full_for size) rs → last rs = Some r →
  40 <= region_Size r → 0 < size <= 2 ^ 62 →
  Z.of_nat (length (Heap_file (mkHeap rs)))
  + Z.max (region_Size r) (2 * size) < 2 ^ 63 →
  (62 ≤ fuel)%nat →
  ∃ k, 0 <= k
       ∧ size <= region_Size r * 2 ^ k
       ∧ (0 < k → region_Size r * 2 ^ (k - 1) < size)
       ∧ grow_region_size (S fuel) (region_Size r) size
         = Some (region_Size r * 2 ^ k)
       ∧ let r' := fresh_region (wrap64 (r_id r + 1))
                     (region_Size r * 2 ^ k) in
         appendRegion_file pagesize (Heap_file (mkHeap rs))
           (wrap64 (r_id r + 1)) (region_Size r * 2 ^ k)
         = Ret (Heap_file (mkHeap (rs ++ [r'])), Opened r')
         ∧ region_Size r' mod pagesize = 0
         ∧ Heap_Allocate (S (S fuel)) (mkHeap rs) size
           = Heap_Allocate (S fuel) (mkHeap (rs ++ [r'])) size
         ∧ (size <= region_Size r * 2 ^ k - 40 →
            ∃ b,
              Heap_Allocate (S (S fuel)) (mkHeap rs) size
              = Some (Ret (Some b, None,
                           mkHeap (rs ++ [alloc_state r' size])))
              ∧ Region b = wrap64 (r_id r + 1)
              ∧ NewBlockId (wrap64 (r_id r + 1)) 0 = Ret (Id b)
              ∧ Offset b = regionHeaderSize ∧ Size b = size).
Proof.
  intros Hp Hal Hfull Hlast HL Hsz Hlen Hfuel.
  pose proof (full_for_OutOfMemory _ _ Hfull) as Hall.
  assert (Hdiv : (pagesize | region_Size r)).
  { apply last_Some in Hlast as [rs' ->].
    apply Forall_app in Hal as [_ Hal].
    apply Forall_cons in Hal as [Hal _].
    apply Z.mod_divide; [lia|exact Hal]. }
  pose proof (aligned_concat pagesize rs Hp Hal) as Hfile.
  clear Hal.
  destruct (grow_region_size_spec (S fuel) (region_Size r) size)
    as (k & Hk & Hg & Hle & Hmin); try lia.
  { assert (2 ^ 62 <= 2 ^ Z.of_nat (S fuel))
      by (apply Z.pow_le_mono_r; lia).
    clear - HL Hsz H. nia. }
  exists k. split; [exact Hk|]. split; [exact Hle|]. split; [exact Hmin|].
  split; [exact Hg|].
  assert (Hdiv' : (pagesize | region_Size r * 2 ^ k))
    by (apply Z.divide_mul_l; exact Hdiv).
  unfold Heap_file in Hlen |- *. cbn [regions] in Hlen |- *.
  set (f := concat (r_d <$> rs)) in *.
  set (N := region_Size r * 2 ^ k) in *.
  assert (HN : 40 <= N ∧ Z.of_nat (length f) + N < 2 ^ 63).
  { destruct (Z.eq_dec k 0) as [->|Hne].
    - unfold N. rewrite Z.pow_0_r. clear - HL Hlen. lia.
    - specialize (Hmin ltac:(lia)). unfold N in *.
      replace (2 ^ k) with (2 * 2 ^ (k - 1)) in *
        by (rewrite <- Z.pow_succ_r by lia; f_equal; lia).
      assert (Hpow : 0 < 2 ^ (k - 1)) by (apply Z.pow_pos_nonneg; lia).
      clear - HL Hlen Hmin Hle Hpow. nia. }
  destruct HN as [HN HlenN].
  set (r' := fresh_region (wrap64 (r_id r + 1)) N).
  assert (Hstep : Heap_Allocate (S (S fuel)) (mkHeap rs) size
                  = Heap_Allocate (S fuel) (mkHeap (rs ++ [r'])) size).
  { cbn [Heap_Allocate regions].
    rewrite allocate_first_all_OutOfMemory by exact Hall.
    rewrite Hlast, Hg. fold N.
    rewrite appendRegion_fresh by exact HN.
    reflexivity. }
  split.
  { pose proof (wrap64_range (r_id r + 1)) as Hrid.
    rewrite (appendRegion_file_fresh pagesize f _ N Hp Hfile HN HlenN Hrid).
    rewrite fmap_app, concat_app. cbn [fmap list_fmap concat].
    rewrite app_nil_r. reflexivity. }
  split.
  { unfold r'. rewrite region_Size_fresh by exact HN.
    apply Z.mod_divide; [clear - Hp; lia|exact Hdiv']. }
  split; [exact Hstep|].
  intros Hroom. rewrite Hstep.
  exists (mkBlock (wrap64 (r_id r + 1)) (region_base (wrap64 (r_id r + 1)))
            size 32).
  split.
  { cbn [Heap_Allocate regions].
    rewrite allocate_first_app_OutOfMemory by exact Hall.
    cbn [allocate_first]. unfold r'.
    rewrite region_Allocate_fresh by (clear - HN HlenN Hsz Hroom; lia).
    replace (size =? 0) with false by (clear - Hsz; lia). reflexivity. }
  cbn [Region Id Offset Size].
  split; [reflexivity|].
  split; [rewrite NewBlockId_eq by lia; rewrite Z.mod_0_l by lia;
          f_equal; unfold region_base; lia|].
  split; reflexivity.
Qed.

Lemma Heap_Allocate_growth_witness :
  ∃ k, 0 <= k
       ∧ 3 * MiB <= region_Size (fresh_region 0 MiB) * 2 ^ k
       ∧ (0 < k → region_Size (fresh_region 0 MiB) * 2 ^ (k - 1) < 3 * MiB)
       ∧ grow_region_size (S 62) (region_Size (fresh_region 0 MiB)) (3 * MiB)
         = Some (region_Size (fresh_region 0 MiB) * 2 ^ k)
       ∧ let r' := fresh_region (wrap64 (r_id (fresh_region 0 MiB) + 1))
                     (region_Size (fresh_region 0 MiB) * 2 ^ k) in
         appendRegion_file 4096 (Heap_file (mkHeap [fresh_region 0 MiB]))
           (wrap64 (r_id (fresh_region 0 MiB) + 1))
           (region_Size (fresh_region 0 MiB) * 2 ^ k)
         = Ret (Heap_file (mkHeap ([fresh_region 0 MiB] ++ [r'])),
                Opened r')
         ∧ region_Size r' mod 4096 = 0
         ∧ Heap_Allocate (S (S 62)) (mkHeap [fresh_region 0 MiB]) (3 * MiB)
           = Heap_Allocate (S 62)
               (mkHeap ([fresh_region 0 MiB] ++ [r'])) (3 * MiB)
         ∧ (3 * MiB <= region_Size (fresh_region 0 MiB) * 2 ^ k - 40 →
            ∃ b,
              Heap_Allocate (S (S 62)) (mkHeap [fresh_region 0 MiB])
                (3 * MiB)
              = Some (Ret (Some b, None,
                           mkHeap ([fresh_region 0 MiB]
                                   ++ [alloc_state r' (3 * MiB)])))
              ∧ Region b = wrap64 (r_id (fresh_region 0 MiB) + 1)
              ∧ NewBlockId (wrap64 (r_id (fresh_region 0 MiB) + 1)) 0
                = Ret (Id b)
              ∧ Offset b = regionHeaderSize ∧ Size b = 3 * MiB).
Proof.
  assert (HS : 40 <= MiB < 2 ^ 63) by (unfold MiB; lia).
  apply (Heap_Allocate_growth 62 4096 [fresh_region 0 MiB]
           (fresh_region 0 MiB) (3 * MiB)).
  - lia.
  - constructor; [|constructor].
    rewrite region_Size_fresh by lia. reflexivity.
  - constructor; [|constructor].
    exists (MiB - 40). split; [|unfold MiB; lia].
    apply region_Available_fresh. exact HS.
  - reflexivity.
  - rewrite region_Size_fresh by lia. lia.
  - unfold MiB. lia.
  - change (mkHeap [fresh_region 0 MiB]) with (new_heap MiB).
    rewrite (Heap_file_new_heap_length MiB) by lia.
    rewrite region_Size_fresh by lia. unfold MiB. lia.
  - lia.
Defined.

(** ** The heap file: [OpenForUpdate] *)

Lemma region_size_of_Mb n :
  - 2 ^ 43 <= n < 2 ^ 43 → wrap64 (wrap64 (n * 1024) * 1024) = n * MiB.
Proof.
  intros Hn. unfold MiB. rewrite (wrap64_small (n * 1024)) by lia.
  rewrite wrap64_small by lia. lia.
Qed.

Lemma Heap_Available_new_heap S :
  40 <= S < 2 ^ 63 → Heap_Available (new_heap S) = Ret (S - 40).
Proof.
  intros HS. unfold Heap_Available, new_heap. cbn [regions sum_Available].
  rewrite region_Available_fresh by exact HS. run.
  rewrite wrap64_small by lia. reflexivity.
Qed.

Lemma Heap_Blocks_new_heap S :
  40 <= S → Heap_Blocks (new_heap S) = Ret [].
Proof.
  intros HS. unfold Heap_Blocks, new_heap. cbn [regions mapM].
  rewrite region_Blocks_fresh by (rewrite ?region_base_0; lia).
  reflexivity.
Qed.

(** X18.  [OpenForUpdate] creates a heap of one empty region.  On a file
    that does not exist yet (or is empty), [OpenForUpdate(name, n)] with
    [1 <= n < 2^43] leaves a file of [n] MiB that holds one region with
    id 0, and returns the heap of that region: [Available()] is
    [n MiB - 40], [Blocks()] is empty, and the heap is in good order. *)
Theorem OpenForUpdate_creates fuel pagesize n :
  0 < pagesize → 1 <= n < 2 ^ 43 →
  ∃ h r,
    OpenForUpdate_file fuel pagesize [] n
    = Some (Ret (Heap_file h, Opened h))
    ∧ OpenForUpdate n = Ret (inl h)
    ∧ regions h = [r] ∧ r_id r = 0 ∧ region_Size r = n * MiB
    ∧ Z.of_nat (length (Heap_file h)) = n * MiB
    ∧ Heap_Available h = Ret (n * MiB - 40)
    ∧ Heap_Blocks h = Ret []
    ∧ heap_ok h.
Proof.
  intros Hp Hn.
  assert (HS : 40 <= n * MiB < 2 ^ 63) by (unfold MiB; lia).
  assert (Hfile : Heap_file (new_heap (n * MiB))
                  = r_d (fresh_region 0 (n * MiB)))
    by (unfold Heap_file; cbn; apply app_nil_r).
  exists (new_heap (n * MiB)), (fresh_region 0 (n * MiB)).
  split; [|split; [|split; [|split; [|split; [|split; [|split; [|split]]]]]]].
  - unfold OpenForUpdate_file. cbn [length]. cbn [Z.of_nat Z.eqb].
    rewrite region_size_of_Mb by lia.
    rewrite appendRegion_file_fresh;
      [|exact Hp|apply Z.mod_0_l; lia|lia|cbn [length]; lia|lia].
    run. rewrite Hfile. reflexivity.
  - unfold OpenForUpdate. rewrite region_size_of_Mb by lia.
    rewrite appendRegion_fresh by lia. reflexivity.
  - reflexivity.
  - reflexivity.
  - apply region_Size_fresh. lia.
  - rewrite Hfile. apply region_Size_fresh. lia.
  - apply Heap_Available_new_heap. exact HS.
  - apply Heap_Blocks_new_heap. lia.
  - apply heap_ok_new_heap. exact HS.
Qed.

Lemma OpenForUpdate_creates_witness :
  ∃ h r,
    OpenForUpdate_file 0 4096 [] 1 = Some (Ret (Heap_file h, Opened h))
    ∧ OpenForUpdate 1 = Ret (inl h)
    ∧ regions h = [r] ∧ r_id r = 0 ∧ region_Size r = 1 * MiB
    ∧ Z.of_nat (length (Heap_file h)) = 1 * MiB
    ∧ Heap_Available h = Ret (1 * MiB - 40)
    ∧ Heap_Blocks h = Ret []
    ∧ heap_ok h.
Proof. apply (OpenForUpdate_creates 0 4096 1); lia. Defined.

(** X19.  [OpenForUpdate] with a region size that is not positive.  The
    call returns an error and no heap.  For a negative size the new file
    is left empty.  For the size 0 the 32-byte header has been written
    before the mapping is refused, and the file is left with a header
    whose stored size is 0: every later [OpenForUpdate] of that file,
    with whatever region size, fails with the same error. *)
Theorem OpenForUpdate_refuses fuel pagesize n :
  - 2 ^ 43 <= n <= 0 →
  ∃ f',
    OpenForUpdate_file fuel pagesize [] n = Some (Ret (f', Failed IOError))
    ∧ OpenForUpdate n = Ret (inr IOError)
    ∧ (n < 0 → f' = [])
    ∧ (n = 0 →
       f' = region_header 0 0
       ∧ ∀ fuel' m,
           OpenForUpdate_file (S fuel') pagesize f' m
           = Some (Ret (f', Failed IOError))).
Proof.
  intros Hn.
  assert (Habs : OpenForUpdate n = Ret (inr IOError)).
  { unfold OpenForUpdate. rewrite region_size_of_Mb by lia.
    unfold appendRegion.
    replace (n * MiB <=? 0) with true by (unfold MiB; lia).
    reflexivity. }
  destruct (Z.eq_dec n 0) as [-> | Hne].
  - exists (region_header 0 0).
    split; [reflexivity|]. split; [exact Habs|].
    split; [lia|]. intros _. split; [reflexivity|].
    intros fuel' m. reflexivity.
  - exists []. split; [|split; [exact Habs|split; [reflexivity|lia]]].
    unfold OpenForUpdate_file. cbn [length]. cbn [Z.of_nat Z.eqb].
    rewrite region_size_of_Mb by lia.
    unfold appendRegion_file, Truncate. cbn [length]. cbn [Z.of_nat].
    rewrite Z.add_0_l, wrap64_small by (unfold MiB; lia).
    replace (n * MiB <? 0) with true by (unfold MiB; lia).
    reflexivity.
Qed.

Lemma OpenForUpdate_refuses_witness :
  ∃ f',
    OpenForUpdate_file 0 4096 [] 0 = Some (Ret (f', Failed IOError))
    ∧ OpenForUpdate 0 = Ret (inr IOError)
    ∧ (0 < 0 → f' = [])
    ∧ (0 = 0 →
       f' = region_header 0 0
       ∧ ∀ fuel' m,
           OpenForUpdate_file (S fuel') 4096 f' m
           = Some (Ret (f', Failed IOError))).
Proof. apply (OpenForUpdate_refuses 0 4096 0); lia. Defined.

(** ** The heap file: what [initHeap] rejects *)

Lemma read_header_signature f :
  take 8 (take (Z.to_nat regionHeaderSize) f
          ++ replicate (Z.to_nat regionHeaderSize
                        - length (take (Z.to_nat regionHeaderSize) f)) 0)
  = signature →
  take 8 f = signature.
Proof.
  intros H.
  do 8 (destruct f as [|? f]; [cbn in H; discriminate H|]).
  cbn in H |- *. exact H.
Qed.

(** X20.  A file that does not start with the signature is rejected.
    [initHeap] on a non-empty file whose first eight bytes are not
    ["HEAPREGN"] (a file shorter than eight bytes included) returns
    [InvalidSignature]; it does not panic. *)
Theorem initHeap_InvalidSignature fuel pagesize f writeable :
  (0 < length f)%nat → take 8 f ≠ signature →
  initHeap (S fuel) pagesize f writeable
  = Some (Ret (Failed InvalidSignature)).
Proof.
  intros Hlen Hsig. unfold initHeap. cbn [initHeap_loop].
  replace (0 <? Z.of_nat (length f)) with true by blia.
  unfold openRegion, read_header.
  replace ((0 <? 0) || (Z.of_nat (length f) <=? 0)) with false by blia.
  change (Z.to_nat 0) with 0%nat. rewrite drop_0.
  rewrite bool_decide_eq_false_2; [reflexivity|].
  intros H. apply Hsig, read_header_signature. exact H.
Qed.

Lemma initHeap_InvalidSignature_witness :
  initHeap 1 4096 [72; 69; 65; 80] true
  = Some (Ret (Failed InvalidSignature)).
Proof.
  apply (initHeap_InvalidSignature 0 4096 [72; 69; 65; 80] true).
  - cbn [length]. lia.
  - discriminate.
Defined.

(** The header [read_header] returns for a file of at least 32 bytes. *)
Lemma read_header_long f :
  32 <= Z.of_nat (length f) →
  read_header f 0 = Some (take 32 f).
Proof.
  intros Hlen. unfold read_header, regionHeaderSize.
  replace ((0 <? 0) || (Z.of_nat (length f) <=? 0)) with false by blia.
  change (Z.to_nat 32) with 32%nat. change (Z.to_nat 0) with 0%nat.
  rewrite drop_0, length_take, Nat.min_l, Nat.sub_diag by lia.
  cbn [replicate]. rewrite app_nil_r. reflexivity.
Qed.

(** X21.  A stored region size that cannot be a region's.  Let a file of
    at least 32 bytes start with the signature.  If the size stored in
    its header is zero or negative, the mapping is refused and
    [initHeap] returns that error.  If the stored size is between 1 and
    15, the mapping is made and the slice expression for the free
    pointer, [d[8:16]], panics: such a file crashes [Open] and
    [OpenForUpdate]. *)
Theorem initHeap_bad_stored_size fuel pagesize f writeable :
  0 < pagesize → 32 <= Z.of_nat (length f) → take 8 f = signature →
  (read_int64 f regionSizeOffset <= 0 →
   initHeap (S fuel) pagesize f writeable = Some (Ret (Failed IOError)))
  ∧ (0 < read_int64 f regionSizeOffset < 16 →
     initHeap (S fuel) pagesize f writeable = Some Panic).
Proof.
  intros Hp Hlen Hsig.
  assert (Hstep : initHeap (S fuel) pagesize f writeable
            = match Mmap pagesize f 0 (read_int64 f regionSizeOffset) with
              | Opened d =>
                  if slice_ok d regionFreePointerOffset
                       (regionFreePointerOffset + 8)
                     && slice_ok d (Z.of_nat (length d) - 8)
                          (Z.of_nat (length d))
                  then initHeap_loop fuel pagesize f writeable
                         (wrap64 (0 + Z.of_nat (length d)))
                         ([] ++ [mkRegion (read_int64 f regionId) d])
                  else Some Panic
              | Failed e => Some (Ret (Failed e))
              | PastEnd => Some (Ret PastEnd)
              end).
  { unfold initHeap. cbn [initHeap_loop].
    replace (0 <? Z.of_nat (length f)) with true by blia.
    unfold openRegion. rewrite read_header_long by exact Hlen.
    rewrite take_take. change (8 `min` 32)%nat with 8%nat.
    rewrite bool_decide_eq_true_2 by exact Hsig. cbn [negb].
    unfold regionSizeOffset, regionId.
    rewrite !read_int64_take by lia.
    destruct (Mmap pagesize f 0 (read_int64 f 16)) as [d|e|]; try reflexivity.
    destruct (slice_ok d _ _ && slice_ok d _ _); reflexivity. }
  rewrite Hstep. unfold Mmap. split; intros Hs.
  - replace (read_int64 f regionSizeOffset <=? 0) with true by blia.
    reflexivity.
  - replace (read_int64 f regionSizeOffset <=? 0) with false by blia.
    rewrite Z.mod_0_l by lia. cbn [Z.eqb negb].
    replace (Z.of_nat (length f) <? 0 + read_int64 f regionSizeOffset)
      with false by blia.
    unfold slice_ok at 1. rewrite length_take, length_drop.
    unfold regionFreePointerOffset.
    replace (8 + 8 <=? Z.of_nat (Z.to_nat (read_int64 f regionSizeOffset)
                                 `min` (length f - Z.to_nat 0)))
      with false by blia.
    rewrite andb_false_r. reflexivity.
Qed.

Lemma initHeap_bad_stored_size_witness :
  (read_int64 ([72; 69; 65; 80; 82; 69; 71; 78] ++ replicate 8 0
               ++ [8; 0; 0; 0; 0; 0; 0; 0] ++ replicate 8 0)
     regionSizeOffset <= 0 →
   initHeap 1 4096
     ([72; 69; 65; 80; 82; 69; 71; 78] ++ replicate 8 0
      ++ [8; 0; 0; 0; 0; 0; 0; 0] ++ replicate 8 0) true
   = Some (Ret (Failed IOError)))
  ∧ (0 < read_int64 ([72; 69; 65; 80; 82; 69; 71; 78] ++ replicate 8 0
                     ++ [8; 0; 0; 0; 0; 0; 0; 0] ++ replicate 8 0)
           regionSizeOffset < 16 →
     initHeap 1 4096
       ([72; 69; 65; 80; 82; 69; 71; 78] ++ replicate 8 0
        ++ [8; 0; 0; 0; 0; 0; 0; 0] ++ replicate 8 0) true
     = Some Panic).
Proof.
  apply (initHeap_bad_stored_size 0 4096
           ([72; 69; 65; 80; 82; 69; 71; 78] ++ replicate 8 0
            ++ [8; 0; 0; 0; 0; 0; 0; 0] ++ replicate 8 0) true).
  - lia.
  - cbn [length app replicate]. lia.
  - reflexivity.
Defined.

(** ** A heap without regions *)

(** X22.  A heap without regions.  [Close] leaves the heap without
    regions, and [Open] on an empty file returns such a heap without an
    error.  On it [Available()] is 0 and [Blocks()] is empty, while
    [GetBlock] and [Free] panic for every identifier (the index into the
    region slice is out of range) and [Allocate] panics for every size
    (the region whose size the growth loop reads is nil). *)
Theorem heap_without_regions h fuel pagesize :
  regions (Heap_Close h) = []
  ∧ Open fuel pagesize [] = Some (Ret (Opened (Heap_Close h)))
  ∧ Heap_Available (Heap_Close h) = Ret 0
  ∧ Heap_Blocks (Heap_Close h) = Ret []
  ∧ (∀ id, Heap_GetBlock (Heap_Close h) id = Panic)
  ∧ (∀ b, Heap_Free (Heap_Close h) b = Panic)
  ∧ (∀ fuel' size,
       Heap_Allocate (S fuel') (Heap_Close h) size = Some Panic).
Proof.
  assert (Hat : ∀ i, region_at (Heap_Close h) i = Panic).
  { intros i. apply region_at_out_of_range. cbn [Heap_Close regions length].
    lia. }
  split; [reflexivity|].
  split; [destruct fuel; reflexivity|].
  split; [reflexivity|]. split; [reflexivity|].
  split; [intros id; unfold Heap_GetBlock; rewrite Hat; reflexivity|].
  split; [intros b; unfold Heap_Free; rewrite Hat; reflexivity|].
  intros fuel' size. reflexivity.
Qed.

(** ** The header survives the operations *)

(** X23.  [Allocate] and [Free] do not touch the signature, the stored
    size and the stored id of a region, provided the block-list entry
    they write lies above the 32-byte header: a region whose header is
    intact keeps it intact. *)
Theorem header_survives r :
  header_intact r → 0 <= block_count r <= 65535 →
  (∀ size b r',
     regionHeaderSize <= slot r (block_count r) →
     region_Allocate r size = Ret (b, None, r') → header_intact r')
  ∧ (∀ b ok r',
       regionHeaderSize <= slot r (BlockId_BlockId (Id b)) →
       region_Free r b = Ret (ok, r') → header_intact r').
Proof.
  intros Hh Hc. unfold regionHeaderSize. split.
  - intros size b r' Hs Hal.
    destruct (region_Allocate_shape _ _ _ _ Hal)
      as (id & v & w & Hid & _ & _ & _ & ->).
    rewrite getNextFreeBlockId_eq in Hid by exact Hc.
    injection Hid as <-. rewrite BlockId_BlockId_small by exact Hc.
    pose proof (slot_bounds r _ (proj1 Hc)) as Hb.
    repeat apply header_intact_poke; auto;
      unfold regionHeaderSize, regionFreePointerOffset; lia.
  - intros b ok r' Hs Hfr.
    pose proof (BlockId_BlockId_range (Id b)) as Hk.
    pose proof (slot_bounds r _ (proj1 Hk)) as Hb.
    destruct (region_Free_shape _ _ _ _ Hfr)
      as (_ & [[_ ->] | (_ & _ & [-> | ->])]).
    + exact Hh.
    + unfold zero_entry.
      repeat apply header_intact_poke; auto;
        unfold regionHeaderSize; lia.
    + unfold wind_back, zero_entry.
      repeat apply header_intact_poke; auto;
        unfold regionHeaderSize, regionFreePointerOffset; lia.
Qed.

Lemma header_survives_witness :
  (∀ size b r',
     regionHeaderSize
     <= slot (fresh_region 0 MiB) (block_count (fresh_region 0 MiB)) →
     region_Allocate (fresh_region 0 MiB) size = Ret (b, None, r') →
     header_intact r')
  ∧ (∀ b ok r',
       regionHeaderSize
       <= slot (fresh_region 0 MiB) (BlockId_BlockId (Id b)) →
       region_Free (fresh_region 0 MiB) b = Ret (ok, r') → header_intact r').
Proof.
  apply (header_survives (fresh_region 0 MiB)).
  - apply header_intact_fresh; unfold MiB; lia.
  - rewrite block_count_fresh by (unfold MiB; lia). lia.
Defined.

(** ** What is allocated persists *)

Lemma fits_mono sizes :
  ∀ a a', a <= a' → fits a sizes → fits a' sizes.
Proof.
  induction sizes as [|size sizes IH]; intros a a' Ha H; [exact I|].
  cbn [fits] in *. destruct H as [H1 H2]. split; [lia|].
  apply (IH (a - size - blockListEntrySize)); [lia|exact H2].
Qed.

Lemma initHeap_single fuel pagesize r writeable :
  0 < pagesize → header_intact r → region_Size r mod pagesize = 0 →
  region_Size r < 2 ^ 63 →
  initHeap (S fuel) pagesize (r_d r) writeable
  = Some (Ret (Opened (mkHeap [r]))).
Proof.
  intros Hp Hh Hal Hs.
  pose proof (initHeap_loop_tiled pagesize writeable Hp [r] [] (S fuel)) as H.
  cbn [app fmap list_fmap concat] in H. rewrite app_nil_r in H.
  apply H.
  - constructor.
  - constructor; [split; assumption|constructor].
  - exact Hs.
  - cbn [length]. lia.
Qed.

(** X24.  What is allocated persists.  Create a heap with
    [OpenForUpdate(name, n)] on a new file, [n] MiB being a multiple of
    the page size, and allocate blocks of positive sizes in its region,
    each request leaving room for its 16-byte entry.  The file then
    holds the bytes of the region; [OpenForUpdate] of that file, with
    whatever region size, and [Open] return the heap of exactly this
    region, and [GetBlock] finds each allocated block under its
    identifier. *)
Theorem allocations_persist fuel pagesize n sizes m :
  0 < pagesize → (n * MiB) mod pagesize = 0 → 1 <= n < 2 ^ 43 →
  Forall (λ size, 0 < size) sizes →
  fits (n * MiB - 40 - blockListEntrySize) sizes →
  Z.of_nat (length sizes) <= 65535 →
  ∃ r0 blocks r',
    OpenForUpdate_file fuel pagesize [] n
    = Some (Ret (r_d r0, Opened (mkHeap [r0])))
    ∧ allocate_all r0 sizes = Ret ((λ b, (Some b, None)) <$> blocks, r')
    ∧ Size <$> blocks = sizes
    ∧ OpenForUpdate_file (S fuel) pagesize (r_d r') m
      = Some (Ret (r_d r', Opened (mkHeap [r'])))
    ∧ Open (S fuel) pagesize (r_d r') = Some (Ret (Opened (mkHeap [r'])))
    ∧ (∀ b, b ∈ blocks →
            Heap_GetBlock (mkHeap [r']) (Id b) = Ret (Some b)).
Proof.
  intros Hp Hal Hn Hpos Hfit Hlen.
  assert (HS : 40 <= n * MiB < 2 ^ 63) by (unfold MiB; lia).
  set (S0 := n * MiB) in *.
  destruct (allocate_all_run sizes (fresh_region 0 S0) (S0 - 40) [])
    as (blocks & r' & Hall & Hsizes & _ & Hbl & Hwf' & Hid' & Hsize' & Hhdr).
  { apply well_formed_fresh. exact HS. }
  { apply region_Available_fresh. exact HS. }
  { rewrite r_id_fresh, region_base_0. lia. }
  { apply region_Blocks_fresh; [lia|]. rewrite region_base_0. lia. }
  { exact Hpos. }
  { eapply fits_mono; [|exact Hfit]. unfold blockListEntrySize. lia. }
  { rewrite block_count_fresh by lia. lia. }
  specialize (Hhdr Hfit (header_intact_fresh 0 S0 HS ltac:(lia))).
  rewrite region_Size_fresh in Hsize' by lia.
  rewrite r_id_fresh in Hid'.
  assert (Hinit : ∀ w, initHeap (S fuel) pagesize (r_d r') w
                       = Some (Ret (Opened (mkHeap [r'])))).
  { intros w. apply initHeap_single; auto; rewrite Hsize'; auto; lia. }
  exists (fresh_region 0 S0), blocks, r'.
  split; [|split; [exact Hall|split; [exact Hsizes|split; [|split]]]].
  - unfold OpenForUpdate_file. cbn [length]. cbn [Z.of_nat Z.eqb].
    rewrite region_size_of_Mb by lia. fold S0.
    rewrite appendRegion_file_fresh;
      [|exact Hp|apply Z.mod_0_l; lia|lia|cbn [length]; lia|lia].
    reflexivity.
  - unfold OpenForUpdate_file.
    replace (Z.of_nat (length (r_d r')) =? 0) with false
      by (unfold region_Size in Hsize'; blia).
    rewrite Hinit. reflexivity.
  - apply Hinit.
  - intros b Hb. cbn [app] in Hbl.
    pose proof (proj1 (region_Blocks_iff r' blocks b Hbl) Hb) as Hg.
    destruct (region_GetBlock_Some_range _ _ _ Hg)
      as (lo & max & Hlo & Hmax & Hr).
    pose proof Hwf' as (_ & _ & Hc).
    rewrite getNextFreeBlockId_eq in Hmax by exact Hc.
    rewrite Hid', region_base_0 in Hmax. injection Hmax as <-.
    rewrite Hid', NewBlockId_eq in Hlo by lia.
    rewrite region_base_0, Z.mod_0_l in Hlo by lia. injection Hlo as <-.
    assert (Hrid : BlockId_RegionId (Id b) = 0).
    { unfold BlockId_RegionId. rewrite Z.shiftr_div_pow2 by lia.
      apply Z.div_small. change (2 ^ 16) with 65536.
      clear - Hr Hc. lia. }
    unfold Heap_GetBlock. rewrite Hrid.
    rewrite (region_at_in_range _ 0 r') by (lia || reflexivity).
    exact Hg.
Qed.

Lemma allocations_persist_witness :
  ∃ r0 blocks r',
    OpenForUpdate_file 0 4096 [] 1
    = Some (Ret (r_d r0, Opened (mkHeap [r0])))
    ∧ allocate_all r0 [1000; 24; 7]
      = Ret ((λ b, (Some b, None)) <$> blocks, r')
    ∧ Size <$> blocks = [1000; 24; 7]
    ∧ OpenForUpdate_file 1 4096 (r_d r') 5
      = Some (Ret (r_d r', Opened (mkHeap [r'])))
    ∧ Open 1 4096 (r_d r') = Some (Ret (Opened (mkHeap [r'])))
    ∧ (∀ b, b ∈ blocks →
            Heap_GetBlock (mkHeap [r']) (Id b) = Ret (Some b)).
Proof.
  apply (allocations_persist 0 4096 1 [1000; 24; 7] 5).
  - lia.
  - reflexivity.
  - lia.
  - repeat constructor.
  - cbn [fits]. unfold MiB, blockListEntrySize. lia.
  - cbn [length]. lia.
Defined.

(** ** Stored ids and counters that the code trusts *)

(** A region whose stored counter is 65536. *)
Lemma full_counter r :
  block_count r = 65536 → region_Size r < 2 ^ 63 →
  0 <= getFreePointer r <= region_Size r →
  getNextFreeBlockId r = Ret (region_base (r_id r))
  ∧ (∀ id, region_GetBlock r id = Ret None)
  ∧ region_Available r = Ret (region_Size r - getFreePointer r - 8)
  ∧ (0 <= region_base (r_id r) → region_Blocks r = Ret []).
Proof.
  intros Hc HS Hf.
  assert (Hnext : getNextFreeBlockId r = Ret (region_base (r_id r))).
  { rewrite getNextFreeBlockId_gen by lia. rewrite Hc.
    change (65536 mod 65536) with 0. rewrite Z.add_0_r. reflexivity. }
  assert (Hlo : NewBlockId (r_id r) 0 = Ret (region_base (r_id r))).
  { rewrite NewBlockId_eq by lia. rewrite Z.mod_0_l, Z.add_0_r by lia.
    reflexivity. }
  split; [exact Hnext|]. split; [|split].
  - intros id. unfold region_GetBlock. rewrite Hnext, Hlo. run.
    replace ((id <? region_base (r_id r)) || (id >=? region_base (r_id r)))
      with true by lia.
    reflexivity.
  - unfold region_Available. rewrite Hnext. run.
    pose proof (BlockId_BlockId_base (r_id r) 0) as Hb.
    rewrite Z.add_0_r, Z.mod_0_l in Hb by lia. rewrite Hb.
    unfold blockListHeaderSize, blockListEntrySize.
    rewrite (wrap64_small (region_Size r - getFreePointer r)) by lia.
    rewrite (wrap64_small (0 * 16)) by lia.
    rewrite (wrap64_small (region_Size r - getFreePointer r - 8)) by lia.
    rewrite wrap64_small by lia. f_equal. lia.
  - intros Hbase. unfold region_Blocks. rewrite Hnext, Hlo. run.
    replace (region_base (r_id r) <? 0) with false by lia.
    rewrite Z.sub_diag. reflexivity.
Qed.

(** X25.  The block counter runs over.  In a region large enough, 65536
    one-byte blocks can be allocated one after the other; the stored
    counter is then 65536, which [NewBlockId] reduces to block index 0.
    From then on [GetBlock] returns nil for every identifier, the 65536
    blocks just allocated included, [Available()] no longer counts the
    65536 entries of the block list, and the next [Allocate] hands out
    the identifier of the first block again; in the region with id 0,
    where the identifier of block 0 is 0, [Blocks()] is empty. *)
Theorem counter_overflow_hides_blocks rid S :
  65536 * 17 + 40 <= S < 2 ^ 63 →
  ∃ blocks r1 first again r2,
    allocate_all (fresh_region rid S) (replicate (Z.to_nat 65536) 1)
    = Ret ((λ b, (Some b, None)) <$> blocks, r1)
    ∧ Z.of_nat (length blocks) = 65536
    ∧ block_count r1 = 65536
    ∧ (∀ id, region_GetBlock r1 id = Ret None)
    ∧ (rid = 0 → region_Blocks r1 = Ret [])
    ∧ region_Available r1 = Ret (S - (32 + 65536) - 8)
    ∧ blocks !! 0%nat = Some first
    ∧ region_Allocate r1 1 = Ret (Some again, None, r2)
    ∧ Id again = Id first.
Proof.
  intros HS.
  pose proof (allocate_all_ids (replicate (Z.to_nat 65536) 1)
                (fresh_region rid S)) as H.
  rewrite region_Size_fresh, getFreePointer_fresh, block_count_fresh,
    r_id_fresh, length_replicate, foldr_add_replicate in H by lia.
  rewrite Z2Nat.id in H by lia.
  destruct H as (blocks & r1 & Hall & Hlen & Hids & HS1 & Hid1 & Hc1 & Hf1);
    try lia.
  { apply Forall_replicate. lia. }
  { apply fits_replicate; [lia|]. rewrite Z2Nat.id by lia. lia. }
  assert (Hlen' : Z.of_nat (length blocks) = 65536)
    by (rewrite Hlen; apply Z2Nat.id; lia).
  destruct (lookup_lt_is_Some_2 blocks 0%nat ltac:(lia)) as [first Hfirst].
  destruct (Hids _ _ Hfirst) as (Hidf & _).
  destruct (region_Allocate_at_65536 r1 1) as (r2 & Halloc & Hc2);
    rewrite ?HS1, ?Hf1, ?Hc1; try lia.
  destruct (full_counter r1) as (_ & Hget & Hav & Hbl);
    rewrite ?HS1, ?Hf1, ?Hc1; try lia.
  rewrite HS1, Hf1 in Hav. rewrite Hid1 in Hbl.
  exists blocks, r1, first,
    (mkBlock (r_id r1) (region_base (r_id r1)) 1 (getFreePointer r1)), r2.
  split; [exact Hall|]. split; [exact Hlen'|]. split; [lia|].
  split; [exact Hget|].
  split; [intros E; apply Hbl; rewrite E, region_base_0; lia|].
  split; [rewrite Hav; f_equal; lia|].
  split; [exact Hfirst|]. split; [exact Halloc|].
  cbn [Id]. rewrite Hidf, Hid1. change (Z.of_nat 0) with 0. lia.
Qed.

Lemma counter_overflow_hides_blocks_witness :
  ∃ blocks r1 first again r2,
    allocate_all (fresh_region 0 (2 * MiB)) (replicate (Z.to_nat 65536) 1)
    = Ret ((λ b, (Some b, None)) <$> blocks, r1)
    ∧ Z.of_nat (length blocks) = 65536
    ∧ block_count r1 = 65536
    ∧ (∀ id, region_GetBlock r1 id = Ret None)
    ∧ region_Blocks r1 = Ret []
    ∧ region_Available r1 = Ret (2 * MiB - (32 + 65536) - 8)
    ∧ blocks !! 0%nat = Some first
    ∧ region_Allocate r1 1 = Ret (Some again, None, r2)
    ∧ Id again = Id first.
Proof.
  assert (HS : 65536 * 17 + 40 <= 2 * MiB < 2 ^ 63) by (unfold MiB; lia).
  destruct (counter_overflow_hides_blocks 0 (2 * MiB) HS)
    as (blocks & r1 & first & again & r2
        & H1 & H2 & H3 & H4 & H5 & H6 & H7 & H8 & H9).
  exists blocks, r1, first, again, r2.
  split; [exact H1|]. split; [exact H2|]. split; [exact H3|].
  split; [exact H4|]. split; [exact (H5 eq_refl)|].
  split; [exact H6|]. split; [exact H7|]. split; [exact H8|exact H9].
Defined.



(** ** Requests of negative size *)

(** X27.  [Allocate] with a negative size panics.  On a well-formed
    region with [Available() >= 0], a negative [size] passes both size
    tests; the entry (free pointer, size) is stored in the next slot, and
    [rawGetBlock] then evaluates the slice [d[offset : offset+size]]
    whose upper bound lies below its lower bound.  The call panics with
    no error returned, and so does [Heap.Allocate] when the region is
    the first of the heap. *)
Theorem region_Allocate_negative_size r size a :
  well_formed r → region_Available r = Ret a → 0 <= a →
  - 2 ^ 63 <= size < 0 →
  region_Allocate r size = Panic
  ∧ ∀ fuel rs, Heap_Allocate (S fuel) (mkHeap (r :: rs)) size = Some Panic.
Proof.
  intros Hwf Ha H0 Hsz.
  assert (Hpanic : region_Allocate r size = Panic).
  { pose proof Hwf as (HS & Hf & Hc). unfold regionHeaderSize in Hf.
    pose proof Ha as Ha'.
    rewrite (well_formed_Available r Hwf) in Ha'. injection Ha' as Ha'.
    assert (Hslot : 16 <= slot r (block_count r))
      by (unfold slot, blockListHeaderSize, blockListEntrySize; lia).
    pose proof (slot_bounds r _ (proj1 Hc)) as Hb.
    pose proof (region_Size_nonneg r) as Hn.
    assert (Hk : BlockId_BlockId (region_base (r_id r) + block_count r)
                 = block_count r)
      by (apply BlockId_BlockId_small; lia).
    unfold region_Allocate. rewrite Ha. run.
    replace (size >? a) with false by lia.
    replace (size >? region_Size r) with false by lia.
    rewrite getNextFreeBlockId_eq by lia. run.
    rewrite setBlockListEntry_eq by (rewrite Hk; lia). run.
    rewrite Hk.
    rewrite rawGetBlock_eq by (rewrite Hk; mem; lia).
    rewrite Hk. unfold entry. mem.
    rewrite !wrap64_small by lia.
    replace (getFreePointer r =? 0) with false by lia.
    replace (size =? 0) with false by lia. cbn [orb].
    rewrite slice_ok_false by lia. reflexivity. }
  split; [exact Hpanic|].
  intros fuel rs. cbn [Heap_Allocate regions allocate_first].
  rewrite Hpanic. reflexivity.
Qed.

Lemma region_Allocate_negative_size_witness :
  region_Allocate (fresh_region 0 MiB) (-1) = Panic
  ∧ ∀ fuel rs,
      Heap_Allocate (S fuel) (mkHeap (fresh_region 0 MiB :: rs)) (-1)
      = Some Panic.
Proof.
  apply (region_Allocate_negative_size (fresh_region 0 MiB) (-1) (MiB - 40)).
  - apply well_formed_fresh. unfold MiB. lia.
  - apply region_Available_fresh. unfold MiB. lia.
  - unfold MiB. lia.
  - lia.
Defined.

(** ** Heap: [Blocks] and [Available] *)

Lemma elem_of_concat {A} (x : A) (ls : list (list A)) :
  x ∈ concat ls ↔ ∃ l, x ∈ l ∧ l ∈ ls.
Proof.
  induction ls as [|l ls IH]; cbn [concat].
  - split; [intros H; inversion H|intros (l & _ & H); inversion H].
  - rewrite elem_of_app, IH. split.
    + intros [H | (l' & H1 & H2)].
      * exists l. split; [exact H|left].
      * exists l'. split; [exact H1|right; exact H2].
    + intros (l' & H1 & H2). apply elem_of_cons in H2 as [-> | H2].
      * left. exact H1.
      * right. exists l'. auto.
Qed.

(** X28.  [Heap.Blocks] and [Heap.GetBlock] agree.  On a heap whose
    regions are numbered by position and whose counters are block
    indices, when [Blocks()] returns, a block is in the list exactly when
    [GetBlock] of its identifier returns that block. *)
Theorem Heap_Blocks_agrees_with_GetBlock h bs b :
  numbered (regions h) → Z.of_nat (length (regions h)) <= 2 ^ 47 →
  Forall (λ r, 0 <= block_count r <= 65535) (regions h) →
  Heap_Blocks h = Ret bs →
  b ∈ bs ↔ Heap_GetBlock h (Id b) = Ret (Some b).
Proof.
  intros Hnum Hlen Hall Hbs. unfold Heap_Blocks in Hbs.
  destruct (mapM region_Blocks (regions h)) as [bss|] eqn:Em; [|discriminate].
  cbn in Hbs. injection Hbs as <-.
  rewrite elem_of_concat. split.
  - intros (l & Hb & Hl).
    destruct (mapM_outcome_elem _ _ _ _ Em Hl) as (r & Hr & Hrl).
    pose proof (proj1 (region_Blocks_iff r l b Hrl) Hb) as Hg.
    apply list_elem_of_lookup in Hr as [i Hi].
    pose proof (Hnum i r Hi) as Hid.
    pose proof (lookup_lt_Some _ _ _ Hi) as Hlt.
    assert (Hc : 0 <= block_count r <= 65535).
    { rewrite Forall_forall in Hall. apply Hall.
      apply list_elem_of_lookup. eauto. }
    destruct (region_GetBlock_Some_range _ _ _ Hg)
      as (lo & max & Hlo & Hmax & Hrange).
    rewrite getNextFreeBlockId_eq in Hmax by exact Hc.
    injection Hmax as <-.
    rewrite NewBlockId_eq, Z.mod_0_l, Z.add_0_r in Hlo by lia.
    injection Hlo as <-.
    assert (Hrid : BlockId_RegionId (Id b) = Z.of_nat i).
    { replace (Id b)
        with (region_base (r_id r) + (Id b - region_base (r_id r))) by lia.
      rewrite Hid in Hrange |- *. apply BlockId_RegionId_base; lia. }
    unfold Heap_GetBlock. rewrite Hrid.
    rewrite (region_at_in_range h _ r) by
      first [lia | rewrite Nat2Z.id; exact Hi].
    exact Hg.
  - unfold Heap_GetBlock. intros Hg.
    destruct (region_at h (BlockId_RegionId (Id b))) as [r|] eqn:Er;
      [|discriminate].
    apply region_at_Ret in Er as [_ Hi]. cbn in Hg.
    destruct (mapM_outcome_Ret_elem _ _ _ r Em) as (l & Hrl & Hl).
    { apply list_elem_of_lookup. eauto. }
    exists l. split; [|exact Hl].
    apply (region_Blocks_iff r l b Hrl). exact Hg.
Qed.

Lemma Heap_Blocks_agrees_with_GetBlock_witness :
  mkBlock 0 0 1000 32 ∈ [mkBlock 0 0 1000 32]
  ↔ Heap_GetBlock (mkHeap [alloc_state (fresh_region 0 MiB) 1000])
      (Id (mkBlock 0 0 1000 32))
    = Ret (Some (mkBlock 0 0 1000 32)).
Proof.
  assert (HS : 40 <= MiB < 2 ^ 63) by (unfold MiB; lia).
  assert (Hsz : 0 <= 1000 <= MiB - 40) by (unfold MiB; lia).
  apply (Heap_Blocks_agrees_with_GetBlock
           (mkHeap [alloc_state (fresh_region 0 MiB) 1000])
           [mkBlock 0 0 1000 32] (mkBlock 0 0 1000 32)).
  - cbn [regions]. intros [|i] r H; [|destruct i; discriminate].
    injection H as <-. reflexivity.
  - cbn [regions length]. lia.
  - cbn [regions]. constructor; [|constructor].
    rewrite block_count_alloc_fresh by assumption. lia.
  - unfold Heap_Blocks. cbn [regions mapM].
    pose proof (region_Blocks_alloc_fresh 0 MiB 1000) as H.
    rewrite region_base_0 in H. rewrite H by (unfold MiB; lia).
    reflexivity.
Defined.

Lemma wrap64_shift x k : wrap64 (x + k * 2 ^ 64) = wrap64 x.
Proof.
  unfold wrap64.
  replace (x + k * 2 ^ 64 + 2 ^ 63) with (x + 2 ^ 63 + k * 2 ^ 64) by lia.
  rewrite Z_mod_plus_full. reflexivity.
Qed.

Lemma wrap64_repr x : ∃ k, wrap64 x = x + k * 2 ^ 64.
Proof.
  exists (- ((x + 2 ^ 63) / 2 ^ 64)). unfold wrap64.
  pose proof (Z.div_mod (x + 2 ^ 63) (2 ^ 64) ltac:(lia)). lia.
Qed.

Lemma sum_Available_range rs :
  ∀ c A, wrap64 c = c → sum_Available rs c = Ret A → wrap64 A = A.
Proof.
  induction rs as [|r rs IH]; intros c A Hc H; cbn [sum_Available] in H.
  - injection H as <-. exact Hc.
  - destruct (region_Available r) as [a|]; [|discriminate]. cbn in H.
    apply (IH _ _ (wrap64_idem _) H).
Qed.

Lemma sum_Available_shift rs :
  ∀ c1 c2 A, wrap64 c2 = c2 →
    sum_Available rs c1 = Ret A →
    sum_Available rs c2 = Ret (wrap64 (A + c2 - c1)).
Proof.
  induction rs as [|r rs IH]; intros c1 c2 A Hc H; cbn [sum_Available] in *.
  - injection H as <-. f_equal. rewrite <- Hc at 1. f_equal. lia.
  - destruct (region_Available r) as [a|]; [|discriminate]. cbn in *.
    rewrite (IH _ (wrap64 (c2 + a)) _ (wrap64_idem _) H). f_equal.
    destruct (wrap64_repr (c2 + a)) as [k2 ->].
    destruct (wrap64_repr (c1 + a)) as [k1 ->].
    rewrite <- (wrap64_shift (A + c2 - c1) (k2 - k1)). f_equal. lia.
Qed.

(** [Heap.Available] when one region is replaced by another. *)
Lemma sum_Available_replace pre r r' post a a' :
  region_Available r = Ret a → region_Available r' = Ret a' →
  ∀ c A, sum_Available (pre ++ r :: post) c = Ret A →
         sum_Available (pre ++ r' :: post) c = Ret (wrap64 (A + a' - a)).
Proof.
  intros Ha Ha'. induction pre as [|q pre IH]; intros c A H;
    cbn [app sum_Available] in *.
  - rewrite Ha in H. rewrite Ha'. cbn in *.
    rewrite (sum_Available_shift _ _ (wrap64 (c + a')) _ (wrap64_idem _) H).
    f_equal.
    destruct (wrap64_repr (c + a')) as [k2 ->].
    destruct (wrap64_repr (c + a)) as [k1 ->].
    rewrite <- (wrap64_shift (A + a' - a) (k2 - k1)). f_equal. lia.
  - destruct (region_Available q) as [aq|]; [|discriminate]. cbn in *.
    apply IH. exact H.
Qed.

(** X29.  [Heap.Available] after a first-fit allocation.  When
    [Heap.Allocate] serves a request of [size] bytes from a region of the
    heap, [Heap.Available()] drops by [size] plus the 16 bytes of the
    block-list entry. *)
Theorem Heap_Available_after_Allocate fuel pre r post size a A :
  Forall (full_for size) pre →
  well_formed r → region_Available r = Ret a → 0 < size <= a →
  block_count r < 65535 →
  Heap_Available (mkHeap (pre ++ r :: post)) = Ret A →
  - 2 ^ 63 <= A - size - blockListEntrySize →
  ∃ b h',
    Heap_Allocate (S fuel) (mkHeap (pre ++ r :: post)) size
    = Some (Ret (Some b, None, h'))
    ∧ Heap_Available h' = Ret (A - size - blockListEntrySize).
Proof.
  intros Hpre Hwf Ha Hsz Hc HA Hlow.
  destruct (alloc_step r size a Hwf Ha ltac:(lia) Hc)
    as (_ & _ & _ & _ & _ & _ & Hav & _).
  eexists _, _.
  split; [apply (Heap_Allocate_first_fit_step fuel pre r post size a);
          assumption|].
  unfold Heap_Available in *. cbn [regions] in *.
  pose proof (sum_Available_range _ _ _ eq_refl HA) as Hr.
  pose proof (wrap64_range A) as Hr'. rewrite Hr in Hr'.
  rewrite (sum_Available_replace pre r _ post a _ Ha Hav 0 A HA).
  f_equal. unfold blockListEntrySize in *.
  replace (A + (a - size - 16) - a) with (A - size - 16) by lia.
  apply wrap64_small. lia.
Qed.

Lemma Heap_Available_after_Allocate_witness :
  ∃ b h',
    Heap_Allocate 1 (mkHeap ([] ++ fresh_region 0 MiB :: [])) 1000
    = Some (Ret (Some b, None, h'))
    ∧ Heap_Available h' = Ret (MiB - 40 - 1000 - blockListEntrySize).
Proof.
  assert (HS : 40 <= MiB < 2 ^ 63) by (unfold MiB; lia).
  apply (Heap_Available_after_Allocate 0 [] (fresh_region 0 MiB) [] 1000
           (MiB - 40) (MiB - 40)).
  - constructor.
  - apply well_formed_fresh. exact HS.
  - apply region_Available_fresh. exact HS.
  - unfold MiB. lia.
  - rewrite block_count_fresh by lia. lia.
  - apply (Heap_Available_new_heap MiB HS).
  - unfold MiB, blockListEntrySize. lia.
Defined.
